(** * MessageBoard: frame buffer and animation engine of the 8x120 LED sign

    A shallow embedding of the rendering core of [MessageBoard.ino]
    (frame buffer, glyph renderer, text layout, animation state machine),
    of its in-place string helpers ([remove_spaces], [UTF8.h]) and of its
    EEPROM message memory, and the properties checked against it.

    Target: Arduino Yun (ATmega32U4, avr-gcc).  There [int] and
    [unsigned int] are 16 bits wide, [unsigned long] is 32 bits wide,
    [byte] is an unsigned 8-bit cell and plain [char] is signed.
    Machine integers are integers of [Z] with the wrap-around written out
    at every store. *)

From Stdlib Require Import ZArith List Bool Lia.
Import ListNotations.
Local Open Scope Z_scope.

(** ** Machine integers *)

Module Mach.

(** [byte] store: the low eight bits. *)
Definition to_byte (v : Z) : Z := v mod 256.

(** [unsigned int] store (16 bits). *)
Definition to_uint (v : Z) : Z := v mod 65536.

(** [unsigned long] store (32 bits). *)
Definition to_ulong (v : Z) : Z := v mod 4294967296.

(** [int] store (16 bits, two's complement, as avr-gcc wraps it). *)
Definition to_int (v : Z) : Z := (v + 32768) mod 65536 - 32768.

(** [char] store (signed 8 bits). *)
Definition to_char (v : Z) : Z := (v + 128) mod 256 - 128.

Definition INT_MAX : Z := 32767.

(** Arduino's [bitRead(value, bit)]: [((value) >> (bit)) & 0x01]. *)
Definition bitRead (value bit : Z) : Z := Z.land (Z.shiftr value bit) 1.

(** Arduino's [bitSet(value, bit)]: [value |= (1UL << bit)]. *)
Definition bitSet (value bit : Z) : Z := Z.lor value (Z.shiftl 1 bit).

(** Arduino's [bitClear(value, bit)]: [value &= ~(1UL << bit)]. *)
Definition bitClear (value bit : Z) : Z :=
  Z.land value (Z.lnot (Z.shiftl 1 bit)).

(** Arduino's [bitWrite(value, bit, bitvalue)]. *)
Definition bitWrite (value bit bitvalue : Z) : Z :=
  if bitvalue =? 0 then bitClear value bit else bitSet value bit.

(** C's [!x] on an integer. *)
Definition lnot_int (x : Z) : Z := if x =? 0 then 1 else 0.

Definition is_byte (v : Z) : bool := (0 <=? v) && (v <? 256).

End Mach.
Import Mach.

(** ** Counted loops *)

(** [for (int i = 0; i < n; i++) body] *)
Definition for_up {S : Type} (n : Z) (body : Z -> S -> S) (s : S) : S :=
  fold_left (fun acc i => body (Z.of_nat i) acc) (seq 0 (Z.to_nat n)) s.

(** [for (int i = n - 1; i >= 0; i--) body] *)
Definition for_down {S : Type} (n : Z) (body : Z -> S -> S) (s : S) : S :=
  fold_left (fun acc i => body (Z.of_nat i) acc) (rev (seq 0 (Z.to_nat n))) s.

(** ** General definitions of the sketch *)

Definition MATRIX_ROWS : Z := 8.
Definition MATRIX_COLUMNS : Z := 120.
Definition MATRIX_NUM_ZONES : Z := MATRIX_COLUMNS / 8.
Definition MATRIX_MAX_ZONE_INDEX : Z := MATRIX_NUM_ZONES - 1.

(** Modelled from the spec: the header [font8x5.h] is not among the sources;
    the spec fixes the character pitch ("given FONT_PITCH=5, COLUMNS=120",
    "MAX_CHARS=24"). *)
Definition FONT_PITCH : Z := 5.

Definition MATRIX_MAX_CHRS : Z := MATRIX_COLUMNS / FONT_PITCH.

Definition DT_ALIGN_LEFT : Z := 0.
Definition DT_ALIGN_CENTER : Z := 1.
Definition DT_ALIGN_RIGHT : Z := 2.

Definition DT_STYLE_NORMAL : Z := 0.
Definition DT_STYLE_INVERSE : Z := 1.

Definition DIRECTION_LEFT : Z := 0.
Definition DIRECTION_RIGHT : Z := 1.
Definition DIRECTION_UP : Z := 2.
Definition DIRECTION_DOWN : Z := 3.

(** The two pac-man animation frames held in PROGMEM. *)
Definition pacman : list (list Z) :=
  [ [0x00; 0x3C; 0x7E; 0xFF; 0xFF; 0xFF; 0x7E; 0x3C];
    [0x00; 0x42; 0xE7; 0xFF; 0xFF; 0xFF; 0x7E; 0x3C] ].

(** ** Frame buffer: [byte display_buffer[MATRIX_ROWS][MATRIX_NUM_ZONES]] *)

Definition buffer : Type := list (list Z).

Fixpoint upd {A : Type} (i : nat) (f : A -> A) (l : list A) : list A :=
  match l, i with
  | [], _ => []
  | x :: l', O => f x :: l'
  | x :: l', S i' => x :: upd i' f l'
  end.

(** [display_buffer[row][zone]] as an rvalue. *)
Definition buf_read (b : buffer) (row zone : Z) : Z :=
  nth (Z.to_nat zone) (nth (Z.to_nat row) b []) 0.

(** [display_buffer[row][zone] = v]; the cell keeps the low eight bits. *)
Definition buf_write (b : buffer) (row zone v : Z) : buffer :=
  upd (Z.to_nat row) (upd (Z.to_nat zone) (fun _ => to_byte v)) b.

(** The shape the array type gives the buffer: eight rows of fifteen bytes. *)
Definition wf_row (r : list Z) : bool :=
  (length r =? Z.to_nat MATRIX_NUM_ZONES)%nat && forallb is_byte r.

Definition wf_buffer (b : buffer) : bool :=
  (length b =? Z.to_nat MATRIX_ROWS)%nat && forallb wf_row b.

Definition blank_buffer : buffer :=
  repeat (repeat 0 (Z.to_nat MATRIX_NUM_ZONES)) (Z.to_nat MATRIX_ROWS).

(** [matrix_draw_pixel]: converts column/row to the buffer bit and turns it
    on or off; coordinates off the matrix are dropped. *)
Definition matrix_draw_pixel (column row value : Z) (b : buffer) : buffer :=
  if (column <? 0) || (column >? MATRIX_COLUMNS - 1)
     || (row <? 0) || (row >? MATRIX_ROWS - 1)
  then b
  else
    let zone := Z.quot column 8 in
    let bit_index := Z.rem column 8 in
    if negb (value =? 0)
    then buf_write b row zone (Z.lor (buf_read b row zone) (Z.shiftl 1 bit_index))
    else buf_write b row zone
           (Z.land (buf_read b row zone) (Z.lnot (Z.shiftl 1 bit_index))).

(** [matrix_fill_buffer]: clear/fill the display buffer. *)
Definition matrix_fill_buffer (value : Z) (b : buffer) : buffer :=
  for_up MATRIX_ROWS (fun row b =>
    for_up (MATRIX_MAX_ZONE_INDEX + 1) (fun zone b =>
      buf_write b row zone value) b) b.

(** [matrix_rotate_buffer]: rotates the entire buffer left or right; any
    other direction matches no [case] of the [switch]. *)
Definition matrix_rotate_buffer (roll_dir : Z) (b : buffer) : buffer :=
  if roll_dir =? DIRECTION_LEFT then
    for_up MATRIX_ROWS (fun row b =>
      let t := buf_read b row 0 in
      for_up MATRIX_NUM_ZONES (fun zone b =>
        let b := buf_write b row zone (Z.shiftr (buf_read b row zone) 1) in
        if zone <? MATRIX_MAX_ZONE_INDEX
        then buf_write b row zone
               (bitWrite (buf_read b row zone) 7
                         (bitRead (buf_read b row (zone + 1)) 0))
        else buf_write b row zone
               (bitWrite (buf_read b row zone) 7 (bitRead t 0))) b) b
  else if roll_dir =? DIRECTION_RIGHT then
    for_up MATRIX_ROWS (fun row b =>
      let t := buf_read b row MATRIX_MAX_ZONE_INDEX in
      for_down (MATRIX_MAX_ZONE_INDEX + 1) (fun zone b =>
        let b := buf_write b row zone (Z.shiftl (buf_read b row zone) 1) in
        if zone >? 0
        then buf_write b row zone
               (bitWrite (buf_read b row zone) 0
                         (bitRead (buf_read b row (zone - 1)) 7))
        else buf_write b row zone
               (bitWrite (buf_read b row zone) 0 (bitRead t 7))) b) b
  else b.

(** [matrix_shift_buffer]: shifts the display buffer left/right/up/down,
    dropping what leaves and filling with zero. *)
Definition matrix_shift_buffer (shift_dir : Z) (b : buffer) : buffer :=
  if shift_dir =? DIRECTION_LEFT then
    for_up MATRIX_ROWS (fun row b =>
      for_up MATRIX_NUM_ZONES (fun zone b =>
        let b := buf_write b row zone (Z.shiftr (buf_read b row zone) 1) in
        if zone <? MATRIX_MAX_ZONE_INDEX
        then buf_write b row zone
               (bitWrite (buf_read b row zone) 7
                         (bitRead (buf_read b row (zone + 1)) 0))
        else b) b) b
  else if shift_dir =? DIRECTION_RIGHT then
    for_up MATRIX_ROWS (fun row b =>
      for_down (MATRIX_MAX_ZONE_INDEX + 1) (fun zone b =>
        let b := buf_write b row zone (Z.shiftl (buf_read b row zone) 1) in
        if zone >? 0
        then buf_write b row zone
               (bitWrite (buf_read b row zone) 0
                         (bitRead (buf_read b row (zone - 1)) 7))
        else b) b) b
  else if shift_dir =? DIRECTION_UP then
    for_up MATRIX_ROWS (fun row b =>
      for_up MATRIX_NUM_ZONES (fun zone b =>
        buf_write b row zone
          (if row <? 7 then buf_read b (row + 1) zone else 0x00)) b) b
  else if shift_dir =? DIRECTION_DOWN then
    for_down MATRIX_ROWS (fun row b =>
      for_up MATRIX_NUM_ZONES (fun zone b =>
        buf_write b row zone
          (if row >? 0 then buf_read b (row - 1) zone else 0x00)) b) b
  else b.

(** ** Glyph renderer and text layout *)

(** What the sketch takes from [font8x5.h], which is not among the sources:
    the bounds of the printable range and the column bitmaps
    [Font8x5[glyph][column]] read with [pgm_read_byte]. *)
Record font8x5_h : Type := {
  FONT_FIRST_CHR : Z;
  FONT_LAST_CHR : Z;
  Font8x5 : Z -> Z -> Z
}.

(** A zero-terminated [char] string; the list ends at the terminator at the
    latest. *)
Fixpoint strlen (s : list Z) : Z :=
  match s with
  | [] => 0
  | c :: s' => if c =? 0 then 0 else 1 + strlen s'
  end.

(** [text[i]] *)
Definition char_at (text : list Z) (i : Z) : Z := nth (Z.to_nat i) text 0.

(** The first [switch] of [matrix_draw_text]: start column and start index
    for an alignment.  [count] is an [int]; [/] is C's truncating division. *)
Definition matrix_draw_text_layout (count format : Z) : Z * Z :=
  if format =? DT_ALIGN_CENTER then
    if count <=? MATRIX_MAX_CHRS
    then (to_int (Z.quot MATRIX_COLUMNS 2
                  - Z.quot (to_int (count * FONT_PITCH)) 2), 0)
    else (0, Z.quot (to_int (count - MATRIX_MAX_CHRS)) 2)
  else if format =? DT_ALIGN_RIGHT then
    if count <=? MATRIX_MAX_CHRS
    then (to_int (MATRIX_COLUMNS - to_int (count * FONT_PITCH)), 0)
    else (0, to_int (count - MATRIX_MAX_CHRS))
  else (0, 0).

Section Glyphs.

Variable font : font8x5_h.

(** The glyph row of the table for a character: codes outside the
    printable range become the unknown glyph, then [c -= 0x1D] and the
    cast [(byte)c]. *)
Definition glyph_of (c : Z) : Z :=
  let c := if (c <? FONT_FIRST_CHR font) || (c >? FONT_LAST_CHR font)
           then 0x7F else c in
  to_byte (to_char (c - 0x1D)).

(** [matrix_draw_chr]: draw a character in normal style, or inverted. *)
Definition matrix_draw_chr (column c : Z) (inv : bool) (b : buffer)
  : buffer :=
  let g := glyph_of c in
  for_up FONT_PITCH (fun col b =>
    for_up MATRIX_ROWS (fun row b =>
      let d := bitRead (Font8x5 font g col) row in
      let d := if inv then lnot_int d else d in
      matrix_draw_pixel (col + column) row d b) b) b.

(** The drawing loop of [matrix_draw_text]:
    [for (i = start_index; i < count && column < MATRIX_COLUMNS; i++)].
    [i] grows on every turn, so [count - start_index] turns are enough. *)
Fixpoint draw_text_loop (fuel : nat) (text : list Z) (count style i column : Z)
                        (b : buffer) : buffer :=
  match fuel with
  | O => b
  | S fuel' =>
      if (i <? count) && (column <? MATRIX_COLUMNS)
      then draw_text_loop fuel' text count style (i + 1)
             (column + FONT_PITCH)
             (matrix_draw_chr column (char_at text i) (negb (style =? 0)) b)
      else b
  end.

(** [matrix_draw_text]: formatted text in normal/inverse style with the
    alignment options. *)
Definition matrix_draw_text (text : list Z) (count format style : Z)
                            (b : buffer) : buffer :=
  let '(column, start_index) := matrix_draw_text_layout count format in
  draw_text_loop (Z.to_nat (count - start_index)) text count style
                 start_index column b.

(** [matrix_shiftin_chr]: shifts the buffer and adds one column of a
    character at the entering edge. *)
Definition matrix_shiftin_chr (c bit_index shift_dir : Z) (b : buffer)
  : buffer :=
  if (bit_index <? 0) || (bit_index >? 7) then b
  else
    let g := glyph_of c in
    let b := matrix_shift_buffer shift_dir b in
    let column := if shift_dir =? DIRECTION_LEFT then 119 else 0 in
    for_up MATRIX_ROWS (fun row b =>
      matrix_draw_pixel column row
        (bitRead (Font8x5 font g bit_index) row) b) b.

End Glyphs.

(** ** Animation context and the completion flag *)

Record msg_context_t : Type := Build_msg_context {
  routine : Z;             (* unsigned int *)
  animation_speed : Z;     (* unsigned long *)
  anim_prev_millis : Z;    (* unsigned long *)
  state : Z;               (* int *)
  tmp_1 : Z;               (* int *)
  tmp_2 : Z;               (* int *)
  msg_ptr : list Z;        (* const char* *)
  msg_length : Z;          (* unsigned int *)
  interval : Z;            (* unsigned long *)
  delay_prev_millis : Z    (* unsigned long *)
}.

(** The globals the engine works on. *)
Record engine : Type := Build_engine {
  display_buffer : buffer;
  msg_context : msg_context_t;
  fetch_next_msg : bool
}.

Definition set_routine (v : Z) (c : msg_context_t) : msg_context_t :=
  Build_msg_context v (animation_speed c) (anim_prev_millis c) (state c)
    (tmp_1 c) (tmp_2 c) (msg_ptr c) (msg_length c) (interval c)
    (delay_prev_millis c).

Definition set_animation_speed (v : Z) (c : msg_context_t) : msg_context_t :=
  Build_msg_context (routine c) v (anim_prev_millis c) (state c)
    (tmp_1 c) (tmp_2 c) (msg_ptr c) (msg_length c) (interval c)
    (delay_prev_millis c).

Definition set_anim_prev_millis (v : Z) (c : msg_context_t) : msg_context_t :=
  Build_msg_context (routine c) (animation_speed c) v (state c)
    (tmp_1 c) (tmp_2 c) (msg_ptr c) (msg_length c) (interval c)
    (delay_prev_millis c).

Definition set_state (v : Z) (c : msg_context_t) : msg_context_t :=
  Build_msg_context (routine c) (animation_speed c) (anim_prev_millis c) v
    (tmp_1 c) (tmp_2 c) (msg_ptr c) (msg_length c) (interval c)
    (delay_prev_millis c).

Definition set_tmp_1 (v : Z) (c : msg_context_t) : msg_context_t :=
  Build_msg_context (routine c) (animation_speed c) (anim_prev_millis c)
    (state c) v (tmp_2 c) (msg_ptr c) (msg_length c) (interval c)
    (delay_prev_millis c).

Definition set_tmp_2 (v : Z) (c : msg_context_t) : msg_context_t :=
  Build_msg_context (routine c) (animation_speed c) (anim_prev_millis c)
    (state c) (tmp_1 c) v (msg_ptr c) (msg_length c) (interval c)
    (delay_prev_millis c).

Definition set_msg (p : list Z) (len : Z) (c : msg_context_t)
  : msg_context_t :=
  Build_msg_context (routine c) (animation_speed c) (anim_prev_millis c)
    (state c) (tmp_1 c) (tmp_2 c) p len (interval c) (delay_prev_millis c).

Definition set_interval (v : Z) (c : msg_context_t) : msg_context_t :=
  Build_msg_context (routine c) (animation_speed c) (anim_prev_millis c)
    (state c) (tmp_1 c) (tmp_2 c) (msg_ptr c) (msg_length c) v
    (delay_prev_millis c).

Definition set_delay_prev_millis (v : Z) (c : msg_context_t)
  : msg_context_t :=
  Build_msg_context (routine c) (animation_speed c) (anim_prev_millis c)
    (state c) (tmp_1 c) (tmp_2 c) (msg_ptr c) (msg_length c) (interval c) v.

(** A statement on [msg_context], on [display_buffer], on the flag. *)
Definition ctx (f : msg_context_t -> msg_context_t) (e : engine) : engine :=
  Build_engine (display_buffer e) (f (msg_context e)) (fetch_next_msg e).

Definition buf (f : buffer -> buffer) (e : engine) : engine :=
  Build_engine (f (display_buffer e)) (msg_context e) (fetch_next_msg e).

Definition set_fetch_next_msg (v : bool) (e : engine) : engine :=
  Build_engine (display_buffer e) (msg_context e) v.

(** [start_animation]: must be called before [do_animation].  [now] is what
    [millis()] returns inside the call. *)
Definition start_animation (routine_ animation_speed_ pause_interval : Z)
                           (msg_start_ptr : list Z) (now : Z) (e : engine)
  : engine :=
  let e := ctx (set_routine (to_uint routine_)) e in
  let e := ctx (set_animation_speed (to_uint animation_speed_)) e in
  let e := ctx (set_interval (to_uint (1000 * pause_interval))) e in
  let e := ctx (set_msg msg_start_ptr (to_uint (strlen msg_start_ptr))) e in
  if msg_length (msg_context e) =? 0 then e
  else
    let e := ctx (set_state 0) e in
    let e := ctx (set_anim_prev_millis 0) e in
    let e := ctx (set_delay_prev_millis (to_ulong now)) e in
    set_fetch_next_msg false e.

(** ** The per-tick advance function *)

(** What one call of [do_animation] reads from outside: the clock at entry,
    the clock at the pause check, and the raw draws behind [random()]. *)
Record tick : Type := Build_tick {
  now : Z;
  now_tail : Z;
  rand_a : Z;
  rand_b : Z
}.

(** Arduino's [random(howbig)] over a raw non-negative draw. *)
Definition random_below (raw howbig : Z) : Z :=
  if howbig =? 0 then 0 else Z.rem raw howbig.

(** How a [case] of the [switch] ends: [return], or [break] into the pause
    check after the [switch]. *)
Inductive outcome : Type :=
| Return (e : engine)
| Break (e : engine).

(** [l_millis - msg_context.anim_prev_millis > threshold] on [unsigned long]. *)
Definition elapsed_gt (l_millis prev threshold : Z) : bool :=
  to_ulong (l_millis - prev) >? to_ulong threshold.

(** [a <= b] and [a >= b] after the conversion of both sides to
    [unsigned int]. *)
Definition uint_le (a b : Z) : bool := to_uint a <=? to_uint b.
Definition uint_ge (a b : Z) : bool := to_uint a >=? to_uint b.

Section Animation.

Variable font : font8x5_h.

Notation "e '.state'" := (state (msg_context e)) (at level 1, only parsing).
Notation "e '.tmp1'" := (tmp_1 (msg_context e)) (at level 1, only parsing).
Notation "e '.tmp2'" := (tmp_2 (msg_context e)) (at level 1, only parsing).
Notation "e '.len'" := (msg_length (msg_context e)) (at level 1, only parsing).
Notation "e '.prev'" :=
  (anim_prev_millis (msg_context e)) (at level 1, only parsing).
Notation "e '.speed'" :=
  (animation_speed (msg_context e)) (at level 1, only parsing).
Notation "e '.msg'" := (msg_ptr (msg_context e)) (at level 1, only parsing).
Notation "e '.rtn'" := (routine (msg_context e)) (at level 1, only parsing).

(** [case 1]: smooth scrolling; [case 0] falls into it. *)
Definition anim_smooth_scroll (l_millis : Z) (e : engine) : outcome :=
  if e.prev =? 0 then
    let e := ctx (set_tmp_1 0) e in
    Return (ctx (set_anim_prev_millis l_millis) e)
  else if elapsed_gt l_millis e.prev (e.speed * 10 + 15) then
    let e :=
      if uint_le e.state (e.len - 1) then
        let e := buf (matrix_shiftin_chr font (char_at e.msg e.state)
                                         e.tmp1 DIRECTION_LEFT) e in
        let e := ctx (set_tmp_1 (to_int (e.tmp1 + 1))) e in
        if e.tmp1 =? FONT_PITCH then
          let e := ctx (set_state (to_int (e.state + 1))) e in
          ctx (set_tmp_1 0) e
        else e
      else
        let e := buf (matrix_shift_buffer DIRECTION_LEFT) e in
        let old := e.state in
        let e := ctx (set_state (to_int (old + 1))) e in
        if uint_ge old (e.len + MATRIX_COLUMNS)
        then set_fetch_next_msg true e else e
    in
    Return (ctx (set_anim_prev_millis l_millis) e)
  else Return e.

(** [case 0]: smooth scrolling with clear screen. *)
Definition anim_smooth_scroll_clear (l_millis : Z) (e : engine) : outcome :=
  let e := if e.prev =? 0 then buf (matrix_fill_buffer 0x00) e else e in
  anim_smooth_scroll l_millis e.

(** [case 2..4]: static text. *)
Definition anim_static_text (l_millis : Z) (e : engine) : outcome :=
  if e.prev =? 0 then
    let e := if e.len <? MATRIX_MAX_CHRS
             then buf (matrix_fill_buffer 0x00) e else e in
    let e := buf (matrix_draw_text font e.msg (to_int e.len)
                    (to_int (to_uint (e.rtn - 2))) DT_STYLE_NORMAL) e in
    Break (ctx (set_anim_prev_millis (to_ulong (e.prev + 1))) e)
  else Break e.

(** [case 5..7]: blinking text. *)
Definition anim_blink (l_millis : Z) (e : engine) : outcome :=
  if e.prev =? 0 then
    let e := if e.state =? 0
             then buf (matrix_fill_buffer 0x00) e
             else buf (matrix_draw_text font e.msg (to_int e.len)
                         (to_int (to_uint (e.rtn - 5))) DT_STYLE_NORMAL) e in
    Break (ctx (set_anim_prev_millis l_millis) e)
  else if elapsed_gt l_millis e.prev (200 + e.speed * 100) then
    let e := ctx (set_anim_prev_millis 0) e in
    Break (ctx (set_state (lnot_int e.state)) e)
  else Break e.

(** [case 8..10]: inverting text. *)
Definition anim_invert (l_millis : Z) (e : engine) : outcome :=
  if e.prev =? 0 then
    let e := if e.len <? MATRIX_MAX_CHRS
             then buf (matrix_fill_buffer
                         (if e.state =? 0 then 0x00 else 0xFF)) e
             else e in
    let e := buf (matrix_draw_text font e.msg (to_int e.len)
                    (to_int (to_uint (e.rtn - 8)))
                    (if e.state =? 0 then DT_STYLE_NORMAL
                     else DT_STYLE_INVERSE)) e in
    Break (ctx (set_anim_prev_millis l_millis) e)
  else if elapsed_gt l_millis e.prev (400 + e.speed * 100) then
    let e := ctx (set_anim_prev_millis 0) e in
    Break (ctx (set_state (lnot_int e.state)) e)
  else Break e.

(** [case 11, 12]: scroll the message up or down, then hold. *)
Definition anim_scroll_rows (l_millis : Z) (e : engine) : outcome :=
  if e.prev =? 0 then
    let e := ctx (set_tmp_1 0) e in
    Break (ctx (set_anim_prev_millis l_millis) e)
  else if (e.state =? 0)
          && elapsed_gt l_millis e.prev (400 + e.speed * 100) then
    let e :=
      if e.tmp1 <? 8 then
        let e := buf (matrix_shift_buffer
                        (if e.rtn =? 11 then DIRECTION_UP
                         else DIRECTION_DOWN)) e in
        ctx (set_tmp_1 (to_int (e.tmp1 + 1))) e
      else
        let e := buf (matrix_draw_text font e.msg (to_int e.len)
                        DT_ALIGN_CENTER DT_STYLE_NORMAL) e in
        ctx (set_state (to_int (e.state + 1))) e
    in
    Return (ctx (set_anim_prev_millis l_millis) e)
  else Break e.

(** [case 13]: coarse (block) scrolling. *)
Definition anim_block_scroll (l_millis : Z) (e : engine) : outcome :=
  if e.prev =? 0 then
    let e := buf (matrix_fill_buffer 0x00) e in
    Break (ctx (set_anim_prev_millis l_millis) e)
  else if elapsed_gt l_millis e.prev (90 + e.speed * 100) then
    let e :=
      if uint_le e.state (e.len - 1) && (e.state <? MATRIX_MAX_CHRS) then
        let e := for_up FONT_PITCH (fun i e =>
                   buf (matrix_shiftin_chr font (char_at e.msg e.state)
                                           i DIRECTION_LEFT) e) e in
        ctx (set_state (to_int (e.state + 1))) e
      else e
    in
    Break (ctx (set_anim_prev_millis l_millis) e)
  else Break e.

(** [case 14]: fast zap in, pause, zap out. *)
Definition anim_zap (l_millis : Z) (e : engine) : outcome :=
  if e.prev =? 0 then
    let e := buf (matrix_fill_buffer 0x00) e in
    let e := ctx (set_tmp_1 0) e in
    let e := ctx (set_tmp_2 0) e in
    Return (ctx (set_anim_prev_millis l_millis) e)
  else if (e.state =? 0) && elapsed_gt l_millis e.prev 1 then
    let e :=
      if uint_le e.tmp1 (e.len - 1) && (e.tmp1 <=? MATRIX_MAX_CHRS - 1) then
        let e := buf (matrix_shiftin_chr font (char_at e.msg e.tmp1)
                                         e.tmp2 DIRECTION_LEFT) e in
        let e := ctx (set_tmp_2 (to_int (e.tmp2 + 1))) e in
        if e.tmp2 =? FONT_PITCH then
          let e := ctx (set_tmp_1 (to_int (e.tmp1 + 1))) e in
          ctx (set_tmp_2 0) e
        else e
      else if e.tmp1 <? MATRIX_MAX_CHRS then
        let e := buf (matrix_shift_buffer DIRECTION_LEFT) e in
        let e := ctx (set_tmp_2 (to_int (e.tmp2 + 1))) e in
        if e.tmp2 =? FONT_PITCH then
          let e := ctx (set_tmp_1 (to_int (e.tmp1 + 1))) e in
          ctx (set_tmp_2 0) e
        else e
      else ctx (set_state (to_int (e.state + 1))) e
    in
    Return (ctx (set_anim_prev_millis l_millis) e)
  else if (e.state =? 1)
          && elapsed_gt l_millis (delay_prev_millis (msg_context e))
                        (interval (msg_context e)) then
    let e := ctx (set_state (to_int (e.state + 1))) e in
    let e := ctx (set_tmp_1 0) e in
    Return (ctx (set_anim_prev_millis l_millis) e)
  else if (e.state =? 2) && elapsed_gt l_millis e.prev 1 then
    let e := buf (matrix_shift_buffer DIRECTION_LEFT) e in
    let e := ctx (set_tmp_1 (to_int (e.tmp1 + 1))) e in
    let e := if e.tmp1 >? MATRIX_COLUMNS
             then ctx (set_state (to_int (e.state + 1))) e else e in
    Return (ctx (set_anim_prev_millis l_millis) e)
  else if e.state =? 3 then
    Return (set_fetch_next_msg true e)
  else Return e.

(** [case 15]: dissolve screen. *)
Definition anim_dissolve (t : tick) (e : engine) : outcome :=
  if e.state <? 6000 then
    let e := buf (matrix_draw_pixel (random_below (rand_a t) MATRIX_COLUMNS)
                                    (random_below (rand_b t) MATRIX_ROWS)
                                    0) e in
    Return (ctx (set_state (to_int (e.state + 1))) e)
  else if e.state =? 6000 then
    let e := buf (matrix_fill_buffer 0x00) e in
    let e := buf (matrix_draw_text font e.msg (to_int e.len)
                    DT_ALIGN_LEFT DT_STYLE_NORMAL) e in
    Break (ctx (set_state (to_int (e.state + 1))) e)
  else Break e.

(** [case 16]: sliding characters. *)
Definition anim_slide (l_millis : Z) (e : engine) : outcome :=
  if e.prev =? 0 then
    let e := buf (matrix_fill_buffer 0x00) e in
    let e := ctx (set_tmp_1
                    (to_int (to_uint ((if e.len >=? MATRIX_MAX_CHRS
                                       then MATRIX_MAX_CHRS else e.len)
                                      - 1)))) e in
    let e := ctx (set_tmp_2 (MATRIX_COLUMNS - FONT_PITCH)) e in
    Return (ctx (set_anim_prev_millis l_millis) e)
  else if (e.state <=? e.tmp1)
          && elapsed_gt l_millis e.prev (20 + e.speed * 10) then
    let e := buf (matrix_draw_chr font e.tmp2 (char_at e.msg e.state)
                                  false) e in
    let e := for_up FONT_PITCH (fun col e =>
               for_up MATRIX_ROWS (fun row e =>
                 buf (matrix_draw_pixel
                        (to_int (to_int (col + e.tmp2) + FONT_PITCH))
                        row 0) e) e) e in
    let e :=
      if e.tmp2 >? to_int (e.state * FONT_PITCH)
      then ctx (set_tmp_2 (to_int (e.tmp2 - FONT_PITCH))) e
      else
        let e := ctx (set_tmp_2 (MATRIX_COLUMNS - FONT_PITCH)) e in
        ctx (set_state (to_int (e.state + 1))) e
    in
    Return (ctx (set_anim_prev_millis l_millis) e)
  else Break e.

(** [case 17, 18]: rolling text, left or right rotation. *)
Definition anim_roll (l_millis : Z) (e : engine) : outcome :=
  let e :=
    if e.prev =? 0 then
      let e := if e.len <? MATRIX_MAX_CHRS
               then buf (matrix_fill_buffer 0x00) e else e in
      let e := buf (matrix_draw_text font e.msg (to_int e.len)
                      DT_ALIGN_CENTER DT_STYLE_NORMAL) e in
      let e := ctx (set_tmp_1 0) e in
      ctx (set_anim_prev_millis l_millis) e
    else if (e.state =? 0) && elapsed_gt l_millis e.prev 2000 then
      let e := ctx (set_state (to_int (e.state + 1))) e in
      ctx (set_anim_prev_millis l_millis) e
    else if (e.state =? 1) && elapsed_gt l_millis e.prev 90 then
      let e := buf (matrix_rotate_buffer
                      (if e.rtn =? 17 then DIRECTION_LEFT
                       else DIRECTION_RIGHT)) e in
      let e := ctx (set_tmp_1 (to_int (e.tmp1 + 1))) e in
      let e := if e.tmp1 =? MATRIX_COLUMNS
               then ctx (set_state (to_int (e.state + 1))) e else e in
      ctx (set_anim_prev_millis l_millis) e
    else e
  in
  if e.state <? 2 then Return e else Break e.

(** [pgm_read_byte(&pacman[frame][col])] *)
Definition pacman_at (frame col : Z) : Z :=
  nth (Z.to_nat col) (nth (Z.to_nat frame) pacman []) 0.

(** [case 19]: pac-man. *)
Definition anim_pacman (l_millis : Z) (e : engine) : outcome :=
  if e.prev =? 0 then
    let e := ctx (set_tmp_1 (MATRIX_COLUMNS - 8)) e in
    let e := ctx (set_tmp_2 1) e in
    Return (ctx (set_anim_prev_millis l_millis) e)
  else if (e.state <? 2) && elapsed_gt l_millis e.prev 100 then
    let e := for_up 8 (fun col e =>
               for_up MATRIX_ROWS (fun row e =>
                 buf (matrix_draw_pixel (to_int (col + e.tmp1)) row
                        (bitRead (pacman_at e.tmp2 col) row)) e) e) e in
    let e := for_up 8 (fun col e =>
               for_up MATRIX_ROWS (fun row e =>
                 buf (matrix_draw_pixel (to_int (to_int (col + e.tmp1) + 8))
                        row 0) e) e) e in
    let e :=
      if e.tmp2 =? 0 then ctx (set_tmp_2 1) e
      else
        let e := ctx (set_tmp_2 0) e in
        ctx (set_state (to_int (e.state + 1))) e
    in
    Return (ctx (set_anim_prev_millis l_millis) e)
  else if (e.state =? 2) && (e.tmp1 >? -8) then
    let e := ctx (set_tmp_1 (to_int (e.tmp1 - 8))) e in
    let e := ctx (set_state 0) e in
    Return (ctx (set_anim_prev_millis l_millis) e)
  else if e.tmp1 <=? -8 then
    let e := buf (matrix_fill_buffer 0x00) e in
    Return (ctx (set_routine 0) e)
  else Return e.

(** [case 20]: random. *)
Definition anim_random (t : tick) (e : engine) : outcome :=
  if e.len <=? MATRIX_MAX_CHRS
  then Break (ctx (set_routine
                     (to_uint (random_below (rand_a t) (20 - 0) + 0))) e)
  else Break (ctx (set_routine 0) e).

(** [do_animation]: one tick of the engine. *)
Definition do_animation (t : tick) (e : engine) : engine :=
  let l_millis := to_ulong (now t) in
  let r := e.rtn in
  let out :=
    if r =? 0 then anim_smooth_scroll_clear l_millis e
    else if r =? 1 then anim_smooth_scroll l_millis e
    else if (2 <=? r) && (r <=? 4) then anim_static_text l_millis e
    else if (5 <=? r) && (r <=? 7) then anim_blink l_millis e
    else if (8 <=? r) && (r <=? 10) then anim_invert l_millis e
    else if (11 <=? r) && (r <=? 12) then anim_scroll_rows l_millis e
    else if r =? 13 then anim_block_scroll l_millis e
    else if r =? 14 then anim_zap l_millis e
    else if r =? 15 then anim_dissolve t e
    else if r =? 16 then anim_slide l_millis e
    else if (17 <=? r) && (r <=? 18) then anim_roll l_millis e
    else if r =? 19 then anim_pacman l_millis e
    else if r =? 20 then anim_random t e
    else Return (set_fetch_next_msg true e)
  in
  match out with
  | Return e => e
  | Break e =>
      if elapsed_gt (to_ulong (now_tail t))
                    (delay_prev_millis (msg_context e))
                    (interval (msg_context e))
      then set_fetch_next_msg true e else e
  end.

(** The host loop's repeated calls, one per clock reading. *)
Definition run (ticks : list tick) (e : engine) : engine :=
  fold_left (fun e t => do_animation t e) ticks e.

End Animation.

(** ** Fixtures: concrete inputs the properties are evaluated on *)

(** A stand-in table: printable range 0x20..0x7F, column patterns derived
    from the glyph and column numbers. *)
Definition test_font : font8x5_h :=
  {| FONT_FIRST_CHR := 0x20;
     FONT_LAST_CHR := 0x7F;
     Font8x5 := fun glyph col => (glyph * 37 + col * 11 + 5) mod 256 |}.

(** "HI" and "A" as [char] strings. *)
Definition msg_HI : list Z := [72; 73; 0].
Definition msg_A : list Z := [65; 0].
Definition msg_empty : list Z := [0].

(** A buffer with every row different and no row periodic. *)
Definition test_buffer : buffer :=
  map (fun row =>
         map (fun zone => (Z.of_nat row * 29 + Z.of_nat zone * 53 + 7) mod 256)
             (seq 0 15))
      (seq 0 8).

(** The engine as a previous message left it: scratch fields in use, flag
    raised. *)
Definition used_engine : engine :=
  {| display_buffer := test_buffer;
     msg_context :=
       {| routine := 14; animation_speed := 3; anim_prev_millis := 51234;
          state := 3; tmp_1 := 121; tmp_2 := 4;
          msg_ptr := msg_A; msg_length := 1;
          interval := 20000; delay_prev_millis := 30000 |};
     fetch_next_msg := true |}.

(** Clock readings [start], [start + step], ... for [n] ticks. *)
Definition clock_ticks (start step : Z) (n : nat) : list tick :=
  map (fun i => Build_tick (start + Z.of_nat i * step)
                           (start + Z.of_nat i * step) 0 0)
      (seq 0 n).

(** ** Row-level view of the rotation, used to state and prove its laws *)

(** What one pass of the left rotation leaves in a cell: the cell shifted
    down by one, its top bit taken from bit 0 of the next zone. *)
Definition rotl_cell (a nxt : Z) : Z :=
  to_byte (bitWrite (to_byte (Z.shiftr a 1)) 7 (bitRead nxt 0)).

(** What one pass of the right rotation leaves in a cell. *)
Definition rotr_cell (a prv : Z) : Z :=
  to_byte (bitWrite (to_byte (Z.shiftl a 1)) 0 (bitRead prv 7)).

Fixpoint map2 {A B C : Type} (f : A -> B -> C) (l : list A) (m : list B)
  : list C :=
  match l, m with
  | a :: l', b :: m' => f a b :: map2 f l' m'
  | _, _ => []
  end.

(** A row after one left rotation: every zone next to its right-hand
    neighbour, the last zone next to the first. *)
Definition rotl_row (r : list Z) : list Z :=
  map2 rotl_cell r (tl r ++ [hd 0 r]).

(** A row after one right rotation. *)
Definition rotr_row (r : list Z) : list Z :=
  map2 rotr_cell r (last r 0 :: removelast r).

(** All byte values, and the two values [bitRead] can give. *)
Definition bytes : list Z := map Z.of_nat (seq 0 256).
Definition two_bits : list Z := [0; 1].

(** The LED at column [c] of a row, with the addressing of
    [matrix_draw_pixel]: zone [c / 8], bit [c % 8]. *)
Definition row_bit (r : list Z) (c : nat) : bool :=
  Z.testbit (nth (c / 8) r 0) (Z.of_nat (c mod 8)).

(** ** Step counting for the smooth scroll, used to state its completion *)

(** Does this call perform a scroll step?  The test of the timed branch of
    [case 1], as the code evaluates it. *)
Definition scroll_due (t : tick) (e : engine) : bool :=
  negb (anim_prev_millis (msg_context e) =? 0)
  && elapsed_gt (to_ulong (now t)) (anim_prev_millis (msg_context e))
                (animation_speed (msg_context e) * 10 + 15).

(** Is the step a character-column shift-in (and not a trailing shift)? *)
Definition scroll_shiftin_due (t : tick) (e : engine) : bool :=
  scroll_due t e
  && uint_le (state (msg_context e)) (msg_length (msg_context e) - 1).

(** Scroll steps, and shift-in steps, performed along a run. *)
Fixpoint scroll_steps (font : font8x5_h) (ticks : list tick) (e : engine) : Z :=
  match ticks with
  | [] => 0
  | t :: ticks' =>
      (if scroll_due t e then 1 else 0)
      + scroll_steps font ticks' (do_animation font t e)
  end.

Fixpoint scroll_shiftins (font : font8x5_h) (ticks : list tick) (e : engine) : Z :=
  match ticks with
  | [] => 0
  | t :: ticks' =>
      (if scroll_shiftin_due t e then 1 else 0)
      + scroll_shiftins font ticks' (do_animation font t e)
  end.

(** Where the smooth scroll of a message of length [L] stands after [k]
    steps, [m] of them shift-ins. *)
Inductive scroll_phase (L : Z) (e : engine) : Z -> Z -> Prop :=
| phase_fresh :
    anim_prev_millis (msg_context e) = 0 ->
    state (msg_context e) = 0 ->
    fetch_next_msg e = false ->
    scroll_phase L e 0 0
| phase_entry (s j : Z) :
    anim_prev_millis (msg_context e) <> 0 ->
    state (msg_context e) = s ->
    tmp_1 (msg_context e) = j ->
    0 <= s < L -> 0 <= j < FONT_PITCH ->
    fetch_next_msg e = false ->
    scroll_phase L e (s * FONT_PITCH + j) (s * FONT_PITCH + j)
| phase_trail (j : Z) :
    anim_prev_millis (msg_context e) <> 0 ->
    state (msg_context e) = L + j ->
    0 <= j <= MATRIX_COLUMNS ->
    fetch_next_msg e = false ->
    scroll_phase L e (L * FONT_PITCH + j) (L * FONT_PITCH)
| phase_done (k m : Z) :
    L * FONT_PITCH + MATRIX_COLUMNS + 1 <= k ->
    fetch_next_msg e = true ->
    (k = L * FONT_PITCH + MATRIX_COLUMNS + 1 -> m = L * FONT_PITCH) ->
    scroll_phase L e k m.

Definition scroll_inv (L : Z) (e : engine) (k m : Z) : Prop :=
  routine (msg_context e) = 0
  /\ msg_length (msg_context e) = L
  /\ scroll_phase L e k m.

(** [millis()] read 0 at no call: 0 in [anim_prev_millis] means "not yet
    initialised" to every routine. *)
Definition clock_never_zero (ticks : list tick) : bool :=
  forallb (fun t => negb (to_ulong (now t) =? 0)) ticks.

(** The LED at ([column], [row]) as the buffer holds it: bit [column % 8] of
    zone [column / 8], the addressing of [matrix_draw_pixel]. *)
Definition get_pixel (b : buffer) (column row : Z) : bool :=
  Z.testbit (buf_read b row (column / 8)) (column mod 8).

(** A row after one left shift: as the left rotation, but the last zone
    keeps a zero in its top bit. *)
Definition shl_row (r : list Z) : list Z :=
  match r with
  | [] => []
  | _ => map2 rotl_cell (removelast r) (tl r)
         ++ [to_byte (Z.shiftr (last r 0) 1)]
  end.

(** A row after one right shift. *)
Definition shr_row (r : list Z) : list Z :=
  match r with
  | [] => []
  | a :: r' => to_byte (Z.shiftl a 1) :: map2 rotr_cell r' (removelast r)
  end.

Definition blank_row : list Z := repeat 0 (Z.to_nat MATRIX_NUM_ZONES).

(** The engine an outcome carries. *)
Definition outcome_engine (o : outcome) : engine :=
  match o with Return e => e | Break e => e end.

(** What no routine may do to the engine it was started on: the message,
    its length, the speed, the pause interval and the pause timestamp stay,
    and a raised completion flag stays raised. *)
Definition keeps_message (e e' : engine) : Prop :=
  msg_ptr (msg_context e') = msg_ptr (msg_context e)
  /\ msg_length (msg_context e') = msg_length (msg_context e)
  /\ animation_speed (msg_context e') = animation_speed (msg_context e)
  /\ interval (msg_context e') = interval (msg_context e)
  /\ delay_prev_millis (msg_context e') = delay_prev_millis (msg_context e)
  /\ (fetch_next_msg e = true -> fetch_next_msg e' = true).

(** The pause check after the [switch]: once the pause interval has passed
    since the message was started, the completion flag is raised. *)
Definition pause_check (t : tick) (e : engine) : engine :=
  if elapsed_gt (to_ulong (now_tail t)) (delay_prev_millis (msg_context e))
                (interval (msg_context e))
  then set_fetch_next_msg true e else e.

(** Every LED from column [c0] on is dark. *)
Definition dark_from (c0 : Z) (b : buffer) : Prop :=
  forall x y, 0 <= x < MATRIX_COLUMNS -> 0 <= y < MATRIX_ROWS ->
              c0 <= x -> get_pixel b x y = false.

(** Does this call of a rolling routine rotate the buffer?  The test of the
    third branch of [case 17, 18], as the code evaluates it. *)
Definition roll_due (t : tick) (e : engine) : bool :=
  negb (anim_prev_millis (msg_context e) =? 0)
  && (state (msg_context e) =? 1)
  && elapsed_gt (to_ulong (now t)) (anim_prev_millis (msg_context e)) 90.

(** Rotations performed along a run. *)
Fixpoint roll_steps (font : font8x5_h) (ticks : list tick) (e : engine) : Z :=
  match ticks with
  | [] => 0
  | t :: ticks' =>
      (if roll_due t e then 1 else 0)
      + roll_steps font ticks' (do_animation font t e)
  end.

(** The direction a rolling routine rotates in. *)
Definition roll_dir (r : Z) : Z :=
  if r =? 17 then DIRECTION_LEFT else DIRECTION_RIGHT.

(** A rolling routine that has made [k] rotations of the buffer [b0]. *)
Definition roll_inv (r : Z) (b0 : buffer) (e : engine) (k : Z) : Prop :=
  routine (msg_context e) = r
  /\ anim_prev_millis (msg_context e) <> 0
  /\ 0 <= k <= MATRIX_COLUMNS
  /\ display_buffer e
     = Nat.iter (Z.to_nat k) (matrix_rotate_buffer (roll_dir r)) b0
  /\ (k < MATRIX_COLUMNS ->
      state (msg_context e) = 1 /\ tmp_1 (msg_context e) = k)
  /\ (k = MATRIX_COLUMNS -> state (msg_context e) = 2).

(** A rolling routine about to make its first rotation. *)
Definition rolling_engine : engine :=
  ctx (set_tmp_1 0) (ctx (set_state 1) (ctx (set_routine 17) used_engine)).

(** ** Strings in place: [remove_spaces] and [UTF8.h] *)

(** A [char] array holds a string up to its first zero. *)
Definition c_string (s : list Z) : list Z := firstn (Z.to_nat (strlen s)) s.

(** [s[i] = v] *)
Definition poke (i : nat) (v : Z) (s : list Z) : list Z :=
  upd i (fun _ => v) s.

(** The loop of [remove_spaces]: [i] is the write pointer, [j] the read
    pointer, both as offsets into the array.  [j] grows on every turn. *)
Fixpoint remove_spaces_loop (fuel i j : nat) (s : list Z) : list Z :=
  match fuel with
  | O => s
  | S fuel' =>
      if nth j s 0 =? 0 then poke i 0 s
      else
        let s := poke i (nth j s 0) s in
        if nth i s 0 =? 32
        then remove_spaces_loop fuel' i (S j) s
        else remove_spaces_loop fuel' (S i) (S j) s
  end.

(** [remove_spaces]: removes all space characters, in place. *)
Definition remove_spaces (src : list Z) : list Z :=
  remove_spaces_loop (S (length src)) 0 0 src.

(** [utf8ascii] on a byte: one byte of UTF-8 in, one byte of extended ASCII or 0
    ("ignore") out; [c1] is the static last-character buffer. *)
Definition utf8ascii_byte (c1 ascii : Z) : Z * Z :=
  if ascii <? 128 then (0, ascii)
  else
    let last := c1 in
    let c1 := ascii in
    if last =? 0xC2 then (c1, ascii)
    else if last =? 0xC3 then (c1, to_byte (Z.lor ascii 0xC0))
    else if (last =? 0x82) && (ascii =? 0xAC) then (c1, 0x80)
    else (c1, 0).

(** The loop of [utf8ascii] on a string; [strlen(s)] is taken anew on every
    turn, [i] grows on every turn. *)
Fixpoint utf8ascii_loop (fuel : nat) (c1 : Z) (k i : nat) (s : list Z)
  : Z * list Z :=
  match fuel with
  | O => (c1, s)
  | S fuel' =>
      if Z.of_nat i <? strlen s then
        let '(c1, r) := utf8ascii_byte c1 (to_byte (nth i s 0)) in
        let c := to_char r in
        if c =? 0
        then utf8ascii_loop fuel' c1 k (S i) s
        else utf8ascii_loop fuel' c1 (S k) (S i) (poke k c s)
      else (c1, poke k 0 s)
  end.

(** [utf8ascii] on a string: in-place conversion of a UTF-8 string to extended
    ASCII; returns the static [c1] as the call leaves it. *)
Definition utf8ascii (c1 : Z) (s : list Z) : Z * list Z :=
  utf8ascii_loop (S (length s)) c1 0 0 s.

(** The conversion as a stream: what the bytes of a string give one after
    the other, the ignored ones left out. *)
Fixpoint utf8_stream (c1 : Z) (str : list Z) : Z * list Z :=
  match str with
  | [] => (c1, [])
  | x :: str' =>
      let '(c1, r) := utf8ascii_byte c1 (to_byte x) in
      let '(c1', out) := utf8_stream c1 str' in
      if to_char r =? 0 then (c1', out) else (c1', to_char r :: out)
  end.

Definition is_char (c : Z) : bool := (-128 <=? c) && (c <=? 127).
Definition nonzero (c : Z) : bool := negb (c =? 0).
Definition not_space (c : Z) : bool := negb (c =? 32).

Definition is_ascii (c : Z) : bool := (0 <? c) && (c <? 128).

(** ** EEPROM message memory *)

Definition EEPROM_MAGIC_ADDR : Z := 0.
Definition EEPROM_MSG_MEMORY : Z := 6.
Definition EEPROM_MSG_LENGTH : Z := 170.

(** Start addresses of the six message slots. *)
Definition eeprom_msg_start_addr : list Z :=
  [0x01; 0xAB; 0x155; 0x1FF; 0x2A9; 0x353].

Definition slot_addr (i : Z) : Z := nth (Z.to_nat i) eeprom_msg_start_addr 0.

(** The EEPROM: a byte at every address. *)
Definition eeprom : Type := Z -> Z.

(** avr-libc's [eeprom_write_byte]. *)
Definition eeprom_write_byte (addr v : Z) (ee : eeprom) : eeprom :=
  fun a => if a =? addr then to_byte v else ee a.

(** avr-libc's [eeprom_update_block(src, dst, n)]: [n] bytes of the array
    [src] go to the addresses from [dst] on. *)
Fixpoint eeprom_update_block (src : list Z) (dst : Z) (n : nat) (ee : eeprom)
  : eeprom :=
  match n with
  | O => ee
  | S n' =>
      eeprom_update_block (tl src) (dst + 1) n'
        (eeprom_write_byte dst (hd 0 src) ee)
  end.

(** [write_eeprom_message]: stores the datastore's message for a slot, or
    marks the slot vacant.  [get key] is [msg_buffer] as
    [msg_buffer[0] = 0; Bridge.get(key, msg_buffer, sizeof(msg_buffer))]
    leaves it. *)
Definition write_eeprom_message (get : list Z -> list Z) (msg_index : Z)
                                (ee : eeprom) : eeprom :=
  if (msg_index <? 0) || (msg_index >=? EEPROM_MSG_MEMORY) then ee
  else
    let msg_buffer := get [to_char (msg_index + 97)] in
    if negb (nth 0 msg_buffer 0 =? 0) then
      let slen := to_int (strlen msg_buffer + 1) in
      let slen := if slen >=? EEPROM_MSG_LENGTH then EEPROM_MSG_LENGTH
                  else slen in
      eeprom_update_block msg_buffer (slot_addr msg_index)
        (Z.to_nat (to_uint slen)) ee
    else eeprom_write_byte (slot_addr msg_index) 0x00 ee.

(** The copy loop of [read_eeprom_messages]:
    [while (c && p < EEPROM_MSG_LENGTH)]; the characters copied so far are
    [acc], [p] of them. *)
Fixpoint eeprom_copy_loop (fuel : nat) (ee : eeprom) (address c p : Z)
                          (acc : list Z) : list Z :=
  match fuel with
  | O => acc
  | S fuel' =>
      if negb (c =? 0) && (p <? EEPROM_MSG_LENGTH)
      then eeprom_copy_loop fuel' ee (address + 1)
             (to_char (ee (address + 1))) (p + 1) (acc ++ [c])
      else acc
  end.

(** The message [read_eeprom_messages] finds in a slot; empty for a vacant
    slot. *)
Definition eeprom_message (ee : eeprom) (i : Z) : list Z :=
  let address := slot_addr i in
  let c := to_char (ee address) in
  if negb (c =? 0)
  then eeprom_copy_loop (S (Z.to_nat EEPROM_MSG_LENGTH)) ee address c 0 []
  else [].

(** [read_eeprom_messages]: the [Bridge.put] calls it makes, in order, as
    key and value. *)
Definition read_eeprom_messages (ee : eeprom) : list (list Z * list Z) :=
  for_up EEPROM_MSG_MEMORY (fun i puts =>
    if negb (to_char (ee (slot_addr i)) =? 0) then
      puts ++ [([to_char (i + 97)], eeprom_message ee i);
               ([to_char (i + 65)], eeprom_message ee i)]
    else puts) [].

Definition KEY_UPDATE_EEPROM : list Z := [49].

(** [update_eeprom_messages]: reads the request and executes it; gives the
    EEPROM and the [Bridge.put] calls made. *)
Definition update_eeprom_messages (get : list Z -> list Z) (ee : eeprom)
  : eeprom * list (list Z * list Z) :=
  let request := nth 0 (get KEY_UPDATE_EEPROM) 0 in
  if request =? 65 then
    (for_up EEPROM_MSG_MEMORY (fun i ee => write_eeprom_message get i ee) ee,
     [(KEY_UPDATE_EEPROM, [])])
  else if (97 <=? request) && (request <=? 102) then
    (write_eeprom_message get (to_int (request - 97)) ee,
     [(KEY_UPDATE_EEPROM, [])])
  else if request =? 88 then
    (for_up EEPROM_MSG_MEMORY (fun i ee =>
       eeprom_write_byte (slot_addr i) 0x00 ee) ee,
     [(KEY_UPDATE_EEPROM, [])])
  else (ee, []).

(** A character of a stored message: a [char] other than the terminator. *)
Definition message_char (c : Z) : bool := is_char c && nonzero c.

(** An EEPROM as erased: every byte 0xFF. *)
Definition fresh_eeprom : eeprom := fun _ => 0xFF.

(** A datastore: the update request under "1", "HI" under "a", "A" under
    "b", nothing under the other keys. *)
Definition test_store (request : Z) (key : list Z) : list Z :=
  match key with
  | [49] => [request; 0]
  | [97] => msg_HI
  | [98] => msg_A
  | _ => msg_empty
  end.

(** ** Steps of the smooth scroll as the clock gives them *)

(** Scroll steps counted from the clock alone.  [prev] is the reading of the
    last call that initialised or stepped (0: no call yet).  The first call
    only initialises; a later call is a step when it comes more than [gap]
    ms after [prev]. *)
Fixpoint clock_steps (gap prev : Z) (ticks : list tick) : Z :=
  match ticks with
  | [] => 0
  | t :: ticks' =>
      let l_millis := to_ulong (now t) in
      if prev =? 0 then clock_steps gap l_millis ticks'
      else if elapsed_gt l_millis prev gap
           then 1 + clock_steps gap l_millis ticks'
           else clock_steps gap prev ticks'
  end.

(** A clock on which every call comes more than [gap] ms after the call
    before it and never reads 0. *)
Fixpoint paced_after (gap prev : Z) (ticks : list tick) : bool :=
  match ticks with
  | [] => true
  | t :: ticks' =>
      negb (to_ulong (now t) =? 0)
      && elapsed_gt (to_ulong (now t)) prev gap
      && paced_after gap (to_ulong (now t)) ticks'
  end.

Definition paced (gap : Z) (ticks : list tick) : bool :=
  match ticks with
  | [] => true
  | t :: ticks' =>
      negb (to_ulong (now t) =? 0) && paced_after gap (to_ulong (now t)) ticks'
  end.

(** The picture after [k] scroll steps over the buffer [b]: step number
    [j < L * FONT_PITCH] shifts in column [j mod FONT_PITCH] of character
    [j / FONT_PITCH], every later step shifts the whole buffer left. *)
Fixpoint scroll_picture (font : font8x5_h) (msg : list Z) (k : nat)
                        (b : buffer) : buffer :=
  match k with
  | O => b
  | S k' =>
      let j := Z.of_nat k' in
      if j <? strlen msg * FONT_PITCH
      then matrix_shiftin_chr font (char_at msg (j / FONT_PITCH))
             (j mod FONT_PITCH) DIRECTION_LEFT (scroll_picture font msg k' b)
      else matrix_shift_buffer DIRECTION_LEFT (scroll_picture font msg k' b)
  end.

(** ** Pac-man: the hand-over test and the script of a paced run *)

(** The test of the last branch of [case 19] as the chain of [else if]s
    reaches it: initialised, no frame due, no move due, [tmp_1 <= -8]. *)
Definition pacman_handover (t : tick) (e : engine) : bool :=
  negb (anim_prev_millis (msg_context e) =? 0)
  && negb ((state (msg_context e) <? 2)
           && elapsed_gt (to_ulong (now t))
                         (anim_prev_millis (msg_context e)) 100)
  && negb ((state (msg_context e) =? 2) && (tmp_1 (msg_context e) >? -8))
  && (tmp_1 (msg_context e) <=? -8).

(** [routine], [state], [tmp_1] and [tmp_2]. *)
Definition pacman_fields (e : engine) : Z * Z * Z * Z :=
  (routine (msg_context e), state (msg_context e), tmp_1 (msg_context e),
   tmp_2 (msg_context e)).

(** What a call of routine 19 makes of these fields once it is initialised
    and the frame delay has passed. *)
Definition pacman_next (c : Z * Z * Z * Z) : Z * Z * Z * Z :=
  let '(rt, st, t1, t2) := c in
  if st <? 2 then
    if t2 =? 0 then (rt, st, t1, 1) else (rt, to_int (st + 1), t1, 0)
  else if (st =? 2) && (t1 >? -8) then (rt, 0, to_int (t1 - 8), t2)
  else if t1 <=? -8 then (0, st, t1, t2)
  else c.

(** Does the call draw a frame or move the sprite (and so take the clock
    reading)? *)
Definition pacman_moving (c : Z * Z * Z * Z) : bool :=
  let '(rt, st, t1, t2) := c in
  (st <? 2) || ((st =? 2) && (t1 >? -8)).

Fixpoint pacman_script (n : nat) (c : Z * Z * Z * Z) : Z * Z * Z * Z :=
  match n with
  | O => c
  | S n' => pacman_script n' (pacman_next c)
  end.

(** The fields as the initialising call leaves them. *)
Definition pacman_first : Z * Z * Z * Z := (19, 0, MATRIX_COLUMNS - 8, 1).

(** Calls of a paced run up to the hand-over: one initialising call, four
    for the first column, five for each of the 14 columns after it, four
    with the sprite past the left edge. *)
Definition PACMAN_CALLS : nat := 79.

(** * Properties *)

(** ** Machine-integer facts *)

Lemma to_uint_small (v : Z) : 0 <= v < 65536 -> to_uint v = v.
Proof. intros H. unfold to_uint. apply Z.mod_small. exact H. Qed.

Lemma to_int_small (v : Z) : -32768 <= v <= 32767 -> to_int v = v.
Proof.
  intros H. unfold to_int. rewrite Z.mod_small by lia. lia.
Qed.

Lemma strlen_nonneg (s : list Z) : 0 <= strlen s.
Proof.
  induction s as [|c s IH]; cbn [strlen]; [lia|].
  destruct (c =? 0); lia.
Qed.

(** ** start_animation *)

Section StartAnimation.

Variables (r s p now_ : Z) (msg : list Z) (e : engine).

Let e' := start_animation r s p msg now_ e.

Lemma start_animation_records :
  routine (msg_context e') = to_uint r
  /\ animation_speed (msg_context e') = to_uint s
  /\ interval (msg_context e') = to_uint (1000 * p)
  /\ msg_ptr (msg_context e') = msg
  /\ msg_length (msg_context e') = to_uint (strlen msg).
Proof.
  unfold e', start_animation; cbn.
  destruct (to_uint (strlen msg) =? 0); cbn; auto.
Qed.

Lemma start_animation_buffer : display_buffer e' = display_buffer e.
Proof.
  unfold e', start_animation; cbn.
  destruct (to_uint (strlen msg) =? 0); reflexivity.
Qed.

Lemma start_animation_scratch :
  tmp_1 (msg_context e') = tmp_1 (msg_context e)
  /\ tmp_2 (msg_context e') = tmp_2 (msg_context e).
Proof.
  unfold e', start_animation; cbn.
  destruct (to_uint (strlen msg) =? 0); cbn; auto.
Qed.

Lemma start_animation_armed :
  0 < strlen msg < 65536 ->
  state (msg_context e') = 0
  /\ anim_prev_millis (msg_context e') = 0
  /\ delay_prev_millis (msg_context e') = to_ulong now_
  /\ fetch_next_msg e' = false.
Proof.
  intros H. unfold e', start_animation; cbn.
  rewrite to_uint_small by lia.
  destruct (Z.eqb_spec (strlen msg) 0) as [E|E]; [lia|]. cbn. auto.
Qed.

Lemma start_animation_idle :
  strlen msg = 0 ->
  state (msg_context e') = state (msg_context e)
  /\ anim_prev_millis (msg_context e') = anim_prev_millis (msg_context e)
  /\ delay_prev_millis (msg_context e')
     = delay_prev_millis (msg_context e)
  /\ fetch_next_msg e' = fetch_next_msg e.
Proof.
  intros H. unfold e', start_animation; cbn.
  rewrite H. cbn. auto.
Qed.

End StartAnimation.

(** C2 (as amended).  [start_animation] with a non-empty message sets the
    sub-state counter [state] to 0, resets the animation timestamp
    [anim_prev_millis] to 0 and sets the pause timestamp
    [delay_prev_millis] to the current millisecond clock; the two scratch
    integers [tmp_1] and [tmp_2] are not written: they keep the values the
    previous message left in them. *)
Theorem start_animation_resets_substate
  (r s p now_ : Z) (msg : list Z) (e : engine) :
  0 < strlen msg < 65536 ->
  state (msg_context (start_animation r s p msg now_ e)) = 0
  /\ anim_prev_millis (msg_context (start_animation r s p msg now_ e)) = 0
  /\ delay_prev_millis (msg_context (start_animation r s p msg now_ e))
     = to_ulong now_
  /\ tmp_1 (msg_context (start_animation r s p msg now_ e))
     = tmp_1 (msg_context e)
  /\ tmp_2 (msg_context (start_animation r s p msg now_ e))
     = tmp_2 (msg_context e).
Proof.
  intros H.
  destruct (start_animation_armed r s p now_ msg e H) as (Hs & Ha & Hd & _).
  destruct (start_animation_scratch r s p now_ msg e) as (H1 & H2).
  repeat split; assumption.
Qed.

Lemma start_animation_resets_substate_witness :
  state (msg_context (start_animation 0 5 20 msg_HI 1000 used_engine)) = 0
  /\ anim_prev_millis
       (msg_context (start_animation 0 5 20 msg_HI 1000 used_engine)) = 0
  /\ delay_prev_millis
       (msg_context (start_animation 0 5 20 msg_HI 1000 used_engine)) = 1000
  /\ tmp_1 (msg_context (start_animation 0 5 20 msg_HI 1000 used_engine))
     = 121
  /\ tmp_2 (msg_context (start_animation 0 5 20 msg_HI 1000 used_engine))
     = 4.
Proof.
  apply (start_animation_resets_substate 0 5 20 1000 msg_HI used_engine).
  vm_compute. split; reflexivity.
Defined.

(** C2 as stated fails: after a message that used the scratch integers,
    a new non-empty message starts with [tmp_1 = 121] and [tmp_2 = 4]
    still in place, so they have not been reset. *)
Lemma start_animation_scratch_carryover :
  0 < strlen msg_HI
  /\ tmp_1 (msg_context (start_animation 0 5 20 msg_HI 1000 used_engine))
     = 121
  /\ tmp_2 (msg_context (start_animation 0 5 20 msg_HI 1000 used_engine))
     = 4
  /\ ~ (tmp_1 (msg_context (start_animation 0 5 20 msg_HI 1000 used_engine))
        = 0
        /\ tmp_2
             (msg_context (start_animation 0 5 20 msg_HI 1000 used_engine))
           = 0).
Proof.
  vm_compute. repeat split; try reflexivity.
  intros [H _]. discriminate H.
Qed.

(** C3.  [start_animation] with an empty string leaves [msg_length = 0],
    leaves every byte of [display_buffer] as it was and arms no timer:
    [anim_prev_millis] and [delay_prev_millis] keep their values (and so do
    [state] and the completion flag).  The routine, speed, interval and
    message pointer are recorded before the length is looked at. *)
Theorem start_animation_empty_idle
  (r s p now_ : Z) (msg : list Z) (e : engine) :
  strlen msg = 0 ->
  msg_length (msg_context (start_animation r s p msg now_ e)) = 0
  /\ display_buffer (start_animation r s p msg now_ e) = display_buffer e
  /\ anim_prev_millis (msg_context (start_animation r s p msg now_ e))
     = anim_prev_millis (msg_context e)
  /\ delay_prev_millis (msg_context (start_animation r s p msg now_ e))
     = delay_prev_millis (msg_context e)
  /\ state (msg_context (start_animation r s p msg now_ e))
     = state (msg_context e)
  /\ fetch_next_msg (start_animation r s p msg now_ e) = fetch_next_msg e.
Proof.
  intros H.
  destruct (start_animation_idle r s p now_ msg e H) as (Hs & Ha & Hd & Hf).
  destruct (start_animation_records r s p now_ msg e) as (_ & _ & _ & _ & Hl).
  rewrite H in Hl.
  pose proof (start_animation_buffer r s p now_ msg e) as Hb.
  repeat split; assumption.
Qed.

Lemma start_animation_empty_idle_witness :
  msg_length (msg_context (start_animation 7 2 9 msg_empty 777 used_engine))
  = 0
  /\ display_buffer (start_animation 7 2 9 msg_empty 777 used_engine)
     = test_buffer
  /\ anim_prev_millis
       (msg_context (start_animation 7 2 9 msg_empty 777 used_engine))
     = 51234
  /\ delay_prev_millis
       (msg_context (start_animation 7 2 9 msg_empty 777 used_engine))
     = 30000
  /\ state (msg_context (start_animation 7 2 9 msg_empty 777 used_engine))
     = 3
  /\ fetch_next_msg (start_animation 7 2 9 msg_empty 777 used_engine) = true.
Proof.
  apply (start_animation_empty_idle 7 2 9 777 msg_empty used_engine).
  reflexivity.
Defined.

(** C8.  [start_animation] itself clears the shared completion flag
    [fetch_next_msg] when the message is non-empty, and leaves the flag
    untouched when the message is empty. *)
Theorem start_animation_flag
  (r s p now_ : Z) (msg : list Z) (e : engine) :
  strlen msg < 65536 ->
  fetch_next_msg (start_animation r s p msg now_ e)
  = if strlen msg =? 0 then fetch_next_msg e else false.
Proof.
  intros H. pose proof (strlen_nonneg msg) as H0.
  destruct (Z.eqb_spec (strlen msg) 0) as [E|E].
  - apply (start_animation_idle r s p now_ msg e E).
  - apply (start_animation_armed r s p now_ msg e). lia.
Qed.

Lemma start_animation_flag_witness :
  fetch_next_msg (start_animation 0 5 20 msg_HI 1000 used_engine) = false
  /\ fetch_next_msg (start_animation 0 5 20 msg_empty 1000 used_engine)
     = true.
Proof.
  split.
  - apply (start_animation_flag 0 5 20 1000 msg_HI used_engine).
    vm_compute. reflexivity.
  - apply (start_animation_flag 0 5 20 1000 msg_empty used_engine).
    vm_compute. reflexivity.
Defined.

(** ** Frame-buffer guards *)

(** C9.  [matrix_shiftin_chr] with [bit_index < 0] or [bit_index > 7]
    returns at the sanity check and leaves every byte of [display_buffer]
    as it was: the buffer is not shifted before the check. *)
Theorem matrix_shiftin_chr_bad_index
  (font : font8x5_h) (c bit_index shift_dir : Z) (b : buffer) :
  bit_index < 0 \/ bit_index > 7 ->
  matrix_shiftin_chr font c bit_index shift_dir b = b.
Proof.
  intros H. unfold matrix_shiftin_chr.
  destruct (Z.ltb_spec bit_index 0) as [Hlt|Hge]; [reflexivity|].
  destruct (Z.gtb_spec bit_index 7) as [Hgt|Hle]; [reflexivity|].
  lia.
Qed.

Lemma matrix_shiftin_chr_bad_index_witness :
  matrix_shiftin_chr test_font 65 8 DIRECTION_LEFT test_buffer = test_buffer
  /\ matrix_shiftin_chr test_font 65 (-1) DIRECTION_RIGHT test_buffer
     = test_buffer.
Proof.
  split.
  - apply (matrix_shiftin_chr_bad_index test_font 65 8 DIRECTION_LEFT
             test_buffer).
    right. lia.
  - apply (matrix_shiftin_chr_bad_index test_font 65 (-1) DIRECTION_RIGHT
             test_buffer).
    left. lia.
Defined.

(** The check matters: with an index in range the same call does change
    the buffer. *)
Example matrix_shiftin_chr_good_index :
  matrix_shiftin_chr test_font 65 0 DIRECTION_LEFT test_buffer
  <> test_buffer.
Proof. vm_compute. discriminate. Qed.

(** C10.  [matrix_rotate_buffer] with a direction other than
    [DIRECTION_LEFT] and [DIRECTION_RIGHT] (so also with [DIRECTION_UP] and
    [DIRECTION_DOWN]) leaves every byte of [display_buffer] as it was. *)
Theorem matrix_rotate_buffer_other_direction (roll_dir : Z) (b : buffer) :
  roll_dir <> DIRECTION_LEFT ->
  roll_dir <> DIRECTION_RIGHT ->
  matrix_rotate_buffer roll_dir b = b.
Proof.
  intros Hl Hr. unfold matrix_rotate_buffer.
  destruct (Z.eqb_spec roll_dir DIRECTION_LEFT) as [E|_]; [contradiction|].
  destruct (Z.eqb_spec roll_dir DIRECTION_RIGHT) as [E|_]; [contradiction|].
  reflexivity.
Qed.

Lemma matrix_rotate_buffer_other_direction_witness :
  matrix_rotate_buffer DIRECTION_UP test_buffer = test_buffer
  /\ matrix_rotate_buffer DIRECTION_DOWN test_buffer = test_buffer.
Proof.
  split.
  - apply (matrix_rotate_buffer_other_direction DIRECTION_UP test_buffer);
      discriminate.
  - apply (matrix_rotate_buffer_other_direction DIRECTION_DOWN test_buffer);
      discriminate.
Defined.

(** ** Text layout *)

(** C7.  CENTER alignment: a count that fits ([count <= MATRIX_MAX_CHRS],
    24) starts at column [COLUMNS/2 - (count*FONT_PITCH)/2] and index 0; a
    longer one starts at column 0 and index [(count - MATRIX_MAX_CHRS)/2];
    both divisions round down, for even and odd counts alike.  [count] is
    a character count held in an [int]. *)
Theorem matrix_draw_text_center (count : Z) :
  0 <= count <= INT_MAX ->
  matrix_draw_text_layout count DT_ALIGN_CENTER
  = if count <=? MATRIX_MAX_CHRS
    then (MATRIX_COLUMNS / 2 - (count * FONT_PITCH) / 2, 0)
    else (0, (count - MATRIX_MAX_CHRS) / 2).
Proof.
  intros H. unfold INT_MAX in H. unfold matrix_draw_text_layout.
  change (DT_ALIGN_CENTER =? DT_ALIGN_CENTER) with true. cbv iota.
  change MATRIX_MAX_CHRS with 24. change FONT_PITCH with 5.
  change MATRIX_COLUMNS with 120.
  destruct (Z.leb_spec count 24) as [Hle|Hgt].
  - rewrite (to_int_small (count * 5)) by lia.
    rewrite !Z.quot_div_nonneg by lia.
    rewrite to_int_small; [reflexivity|].
    assert (0 <= count * 5 / 2 <= 60)
      by (split; [apply Z.div_pos; lia | apply Z.div_le_upper_bound; lia]).
    change (120 / 2) with 60. lia.
  - rewrite (to_int_small (count - 24)) by lia.
    rewrite Z.quot_div_nonneg by lia. reflexivity.
Qed.

Lemma matrix_draw_text_center_witness :
  matrix_draw_text_layout 5 DT_ALIGN_CENTER = (48, 0)
  /\ matrix_draw_text_layout 6 DT_ALIGN_CENTER = (45, 0)
  /\ matrix_draw_text_layout 29 DT_ALIGN_CENTER = (0, 2).
Proof.
  split; [|split].
  - apply (matrix_draw_text_center 5). vm_compute. split; discriminate.
  - apply (matrix_draw_text_center 6). vm_compute. split; discriminate.
  - apply (matrix_draw_text_center 29). vm_compute. split; discriminate.
Defined.

(** ** Rotation of the frame buffer *)

Lemma is_byte_range v : is_byte v = true <-> 0 <= v < 256.
Proof. unfold is_byte. rewrite andb_true_iff, Z.leb_le, Z.ltb_lt. tauto. Qed.

Lemma in_bytes v : is_byte v = true -> In v bytes.
Proof.
  intros H. apply is_byte_range in H. unfold bytes.
  apply in_map_iff. exists (Z.to_nat v). split; [lia|].
  apply in_seq. lia.
Qed.

Lemma to_byte_is_byte v : is_byte (to_byte v) = true.
Proof. apply is_byte_range. unfold to_byte. apply Z.mod_pos_bound. lia. Qed.

Lemma bitRead_01 x n : bitRead x n = 0 \/ bitRead x n = 1.
Proof.
  unfold bitRead. change 1 with (Z.ones 1) at 1 2.
  rewrite Z.land_ones by lia. change (2 ^ 1) with 2.
  pose proof (Z.mod_pos_bound (Z.shiftr x n) 2). lia.
Qed.

Lemma wf_row_inv r :
  wf_row r = true -> length r = 15%nat /\ Forall (fun a => is_byte a = true) r.
Proof.
  unfold wf_row. rewrite andb_true_iff, Nat.eqb_eq, forallb_forall.
  intros [Hl Hb]. split; [exact Hl|]. apply Forall_forall, Hb.
Qed.

Lemma wf_buffer_inv b :
  wf_buffer b = true -> length b = 8%nat /\ Forall (fun r => wf_row r = true) b.
Proof.
  unfold wf_buffer. rewrite andb_true_iff, Nat.eqb_eq, forallb_forall.
  intros [Hl Hb]. split; [exact Hl|]. apply Forall_forall, Hb.
Qed.

(** Name the eight rows and the fifteen cells of each row of a well-formed
    buffer, so that the loops of the sketch run on it symbolically. *)
Ltac name_all_cells b H :=
  let Hl := fresh "Hl" in
  let Hr := fresh "Hr" in
  apply wf_buffer_inv in H; destruct H as [Hl Hr];
  do 8 (destruct b as [|? b]; [discriminate Hl|]);
  destruct b; [clear Hl | discriminate Hl];
  repeat match goal with
         | F : Forall _ (_ :: _) |- _ => inversion F; clear F; subst
         | F : Forall _ [] |- _ => clear F
         | W : wf_row _ = true |- _ =>
             apply wf_row_inv in W; destruct W as [W _]
         end;
  repeat match goal with
         | W : length ?l = 15%nat |- _ =>
             do 15 (destruct l as [|? l]; [discriminate W|]);
             destruct l; [clear W | discriminate W]
         end.

(** The loops of [matrix_rotate_buffer], run on a well-formed buffer, leave
    in every row what [rotl_row] (resp. [rotr_row]) describes. *)
Lemma rotl_row_as_cells b :
  wf_buffer b = true ->
  matrix_rotate_buffer DIRECTION_LEFT b = map rotl_row b.
Proof.
  intros H. name_all_cells b H.
  cbv -[to_byte bitWrite bitRead Z.shiftr Z.shiftl]. reflexivity.
Qed.

Lemma rotr_row_as_cells b :
  wf_buffer b = true ->
  matrix_rotate_buffer DIRECTION_RIGHT b = map rotr_row b.
Proof.
  intros H. name_all_cells b H.
  cbv -[to_byte bitWrite bitRead Z.shiftr Z.shiftl]. reflexivity.
Qed.

(** [matrix_fill_buffer(0x00)] blanks a well-formed buffer. *)
Lemma matrix_fill_buffer_clears b :
  wf_buffer b = true -> matrix_fill_buffer 0 b = blank_buffer.
Proof.
  intros H. name_all_cells b H. vm_compute. reflexivity.
Qed.

(** Cell facts, checked on all 256 bytes. *)

Lemma in_two_bits x n : In (bitRead x n) two_bits.
Proof. destruct (bitRead_01 x n) as [E|E]; rewrite E; simpl; auto. Qed.

Lemma cell_roundtrip_check :
  forallb (fun a => forallb (fun x => forallb (fun v =>
     rotr_cell (to_byte (bitWrite (to_byte (Z.shiftr a 1)) 7 v))
               (to_byte (bitWrite x 7 (bitRead a 0))) =? a)
     two_bits) bytes) bytes = true.
Proof. vm_compute. reflexivity. Qed.

Lemma cell_roundtrip a nxt prv :
  is_byte a = true -> rotr_cell (rotl_cell a nxt) (rotl_cell prv a) = a.
Proof.
  intros Ha. pose proof cell_roundtrip_check as H.
  rewrite forallb_forall in H. specialize (H a (in_bytes a Ha)).
  rewrite forallb_forall in H.
  specialize (H (to_byte (Z.shiftr prv 1)) (in_bytes _ (to_byte_is_byte _))).
  rewrite forallb_forall in H.
  specialize (H (bitRead nxt 0) (in_two_bits nxt 0)).
  apply Z.eqb_eq in H. exact H.
Qed.

Lemma rotl_cell_byte a nxt : is_byte (rotl_cell a nxt) = true.
Proof. apply to_byte_is_byte. Qed.

(** Name the fifteen cells of a well-formed row. *)
Ltac name_cells r H :=
  let Hl := fresh "Hl" in
  let Hb := fresh "Hb" in
  apply wf_row_inv in H; destruct H as [Hl Hb];
  do 15 (destruct r as [|? r]; [discriminate Hl|]);
  destruct r; [clear Hl | discriminate Hl];
  repeat match goal with
         | F : Forall _ (_ :: _) |- _ => inversion F; clear F; subst
         | F : Forall _ [] |- _ => clear F
         end.

Lemma rotl_row_wf r : wf_row r = true -> wf_row (rotl_row r) = true.
Proof.
  intros H. name_cells r H.
  cbv [rotl_row map2 tl hd app wf_row length forallb].
  rewrite !rotl_cell_byte. reflexivity.
Qed.

Lemma rotr_rotl_row r : wf_row r = true -> rotr_row (rotl_row r) = r.
Proof.
  intros H. name_cells r H.
  cbv [rotl_row rotr_row map2 tl hd app last removelast].
  rewrite !cell_roundtrip by assumption. reflexivity.
Qed.

Lemma wf_buffer_intro b :
  length b = 8%nat -> Forall (fun r => wf_row r = true) b -> wf_buffer b = true.
Proof.
  intros Hl Hr. unfold wf_buffer. rewrite andb_true_iff, Nat.eqb_eq, forallb_forall.
  split; [exact Hl|]. apply Forall_forall, Hr.
Qed.

Lemma rotate_left_wf b :
  wf_buffer b = true -> wf_buffer (matrix_rotate_buffer DIRECTION_LEFT b) = true.
Proof.
  intros H. rewrite rotl_row_as_cells by exact H.
  apply wf_buffer_inv in H. destruct H as [Hl Hr].
  apply wf_buffer_intro; [rewrite length_map; exact Hl|].
  apply Forall_map. eapply Forall_impl; [|exact Hr].
  intros r. apply rotl_row_wf.
Qed.

Lemma rotate_left_iter_wf n b :
  wf_buffer b = true ->
  wf_buffer (Nat.iter n (matrix_rotate_buffer DIRECTION_LEFT) b) = true.
Proof.
  intros H. induction n as [|n IH]; [exact H|].
  rewrite Nat.iter_succ. apply rotate_left_wf, IH.
Qed.

Lemma rotate_right_left b :
  wf_buffer b = true ->
  matrix_rotate_buffer DIRECTION_RIGHT (matrix_rotate_buffer DIRECTION_LEFT b) = b.
Proof.
  intros H. rewrite rotr_row_as_cells by (apply rotate_left_wf, H).
  rewrite rotl_row_as_cells by exact H.
  apply wf_buffer_inv in H. destruct H as [_ Hr].
  rewrite map_map. rewrite <- (map_id b) at 2.
  apply map_ext_in. intros r Hin.
  apply rotr_rotl_row. rewrite Forall_forall in Hr. apply Hr, Hin.
Qed.

Lemma rotate_roundtrip_any n b :
  wf_buffer b = true ->
  Nat.iter n (matrix_rotate_buffer DIRECTION_RIGHT)
    (Nat.iter n (matrix_rotate_buffer DIRECTION_LEFT) b) = b.
Proof.
  intros H. induction n as [|n IH]; [reflexivity|].
  rewrite Nat.iter_succ_r.
  rewrite (Nat.iter_succ n _ (matrix_rotate_buffer DIRECTION_LEFT)).
  rewrite rotate_right_left by (apply rotate_left_iter_wf, H).
  exact IH.
Qed.

(** *** The rotation seen LED by LED *)

Lemma bitRead_testbit x : bitRead x 0 = if Z.testbit x 0 then 1 else 0.
Proof.
  unfold bitRead. rewrite Z.shiftr_0_r.
  change 1 with (Z.ones 1) at 1. rewrite Z.land_ones by lia.
  change (2 ^ 1) with 2. rewrite <- Z.bit0_mod.
  destruct (Z.testbit x 0); reflexivity.
Qed.

Lemma rotl_cell_bits_check :
  forallb (fun a => forallb (fun v => forallb (fun i =>
     Bool.eqb (Z.testbit (to_byte (bitWrite (to_byte (Z.shiftr a 1)) 7 v)) i)
              (if i =? 7 then negb (v =? 0) else Z.testbit a (i + 1)))
     [0;1;2;3;4;5;6;7]) two_bits) bytes = true.
Proof. vm_compute. reflexivity. Qed.

Lemma rotl_cell_bit a nxt i :
  is_byte a = true -> In i [0;1;2;3;4;5;6;7] ->
  Z.testbit (rotl_cell a nxt) i
  = if i =? 7 then Z.testbit nxt 0 else Z.testbit a (i + 1).
Proof.
  intros Ha Hi. pose proof rotl_cell_bits_check as H.
  rewrite forallb_forall in H. specialize (H a (in_bytes a Ha)).
  rewrite forallb_forall in H. specialize (H (bitRead nxt 0) (in_two_bits nxt 0)).
  rewrite forallb_forall in H. specialize (H i Hi).
  apply Bool.eqb_prop in H. unfold rotl_cell. rewrite H.
  destruct (i =? 7); [|reflexivity].
  rewrite bitRead_testbit. destruct (Z.testbit nxt 0); reflexivity.
Qed.

Lemma rotl_row_bit r c :
  wf_row r = true -> (c < 120)%nat ->
  row_bit (rotl_row r) c = row_bit r ((c + 1) mod 120).
Proof.
  intros H Hc. name_cells r H.
  do 120 (destruct c as [|c];
          [ cbv [row_bit rotl_row map2 tl hd app nth Nat.div Nat.modulo
                 Nat.divmod fst snd Nat.sub Nat.add Z.of_nat
                 Pos.of_succ_nat Pos.succ];
            rewrite rotl_cell_bit by (assumption || (simpl; tauto));
            reflexivity
          | ]).
  lia.
Qed.

Lemma rotl_row_iter_wf n r :
  wf_row r = true -> wf_row (Nat.iter n rotl_row r) = true.
Proof.
  intros H. induction n as [|n IH]; [exact H|].
  rewrite Nat.iter_succ. apply rotl_row_wf, IH.
Qed.

Lemma rotl_row_iter_bit n r c :
  wf_row r = true -> (c < 120)%nat ->
  row_bit (Nat.iter n rotl_row r) c = row_bit r ((c + n) mod 120).
Proof.
  revert r c. induction n as [|n IH]; intros r c H Hc.
  - cbn [Nat.iter nat_rect]. rewrite Nat.add_0_r, Nat.mod_small by exact Hc.
    reflexivity.
  - rewrite Nat.iter_succ_r.
    rewrite IH by (try apply rotl_row_wf; assumption).
    rewrite rotl_row_bit by (try apply Nat.mod_upper_bound; (assumption || discriminate)).
    rewrite Nat.Div0.add_mod_idemp_l.
    f_equal. f_equal. lia.
Qed.

Lemma byte_ext a b :
  is_byte a = true -> is_byte b = true ->
  (forall i, (i < 8)%nat -> Z.testbit a (Z.of_nat i) = Z.testbit b (Z.of_nat i)) ->
  a = b.
Proof.
  intros Ha Hb H. apply is_byte_range in Ha. apply is_byte_range in Hb.
  apply Z.bits_inj'. intros n Hn.
  destruct (Z.lt_ge_cases n 8) as [Hlt|Hge].
  - specialize (H (Z.to_nat n)). rewrite Z2Nat.id in H by exact Hn.
    apply H. lia.
  - rewrite <- (Z.mod_small a (2 ^ 8)), <- (Z.mod_small b (2 ^ 8))
      by (change (2 ^ 8) with 256; lia).
    rewrite !Z.mod_pow2_bits_high by lia. reflexivity.
Qed.

Lemma row_bit_at r z i :
  (i < 8)%nat ->
  row_bit r (i + z * 8) = Z.testbit (nth z r 0) (Z.of_nat i).
Proof.
  intros Hi. unfold row_bit.
  rewrite Nat.div_add by discriminate.
  rewrite Nat.div_small by exact Hi.
  rewrite Nat.Div0.mod_add, Nat.mod_small by exact Hi.
  reflexivity.
Qed.

Lemma row_bit_cell r1 r2 z i :
  (forall c, (c < 120)%nat -> row_bit r1 c = row_bit r2 c) ->
  (z < 15)%nat -> (i < 8)%nat ->
  Z.testbit (nth z r1 0) (Z.of_nat i) = Z.testbit (nth z r2 0) (Z.of_nat i).
Proof.
  intros H Hz Hi. rewrite <- !row_bit_at by exact Hi. apply H. lia.
Qed.

Lemma row_ext r1 r2 :
  wf_row r1 = true -> wf_row r2 = true ->
  (forall c, (c < 120)%nat -> row_bit r1 c = row_bit r2 c) -> r1 = r2.
Proof.
  intros H1 H2 H.
  apply wf_row_inv in H1. destruct H1 as [Hl1 Hb1].
  apply wf_row_inv in H2. destruct H2 as [Hl2 Hb2].
  apply (nth_ext r1 r2 0 0); [congruence|].
  intros z Hz. rewrite Hl1 in Hz.
  rewrite Forall_forall in Hb1, Hb2.
  apply byte_ext.
  - apply Hb1, nth_In. lia.
  - apply Hb2, nth_In. lia.
  - intros i Hi. apply row_bit_cell; assumption.
Qed.

Lemma rotl_row_period r :
  wf_row r = true -> Nat.iter 120 rotl_row r = r.
Proof.
  intros H. apply row_ext; [apply rotl_row_iter_wf, H | exact H |].
  intros c Hc. rewrite rotl_row_iter_bit by assumption.
  f_equal. rewrite <- (Nat.mul_1_l 120) at 1.
  rewrite Nat.Div0.mod_add. apply Nat.mod_small, Hc.
Qed.

Lemma rotate_left_iter_rows n b :
  wf_buffer b = true ->
  Nat.iter n (matrix_rotate_buffer DIRECTION_LEFT) b
  = map (Nat.iter n rotl_row) b.
Proof.
  intros H. induction n as [|n IH].
  - cbn [Nat.iter nat_rect]. symmetry. apply map_id.
  - rewrite Nat.iter_succ, rotl_row_as_cells by (apply rotate_left_iter_wf, H).
    rewrite IH, map_map. apply map_ext. intros r.
    rewrite Nat.iter_succ. reflexivity.
Qed.

Lemma rotate_left_period b :
  wf_buffer b = true ->
  Nat.iter 120 (matrix_rotate_buffer DIRECTION_LEFT) b = b.
Proof.
  intros H. rewrite rotate_left_iter_rows by exact H.
  apply wf_buffer_inv in H. destruct H as [_ Hr].
  rewrite <- (map_id b) at 2. apply map_ext_in. intros r Hin.
  apply rotl_row_period. rewrite Forall_forall in Hr. apply Hr, Hin.
Qed.

(** C4.  Round trip: on any frame buffer, [n] rotations to the left
    followed by [n] rotations to the right, for [1 <= n <= COLUMNS], give
    back the exact bit pattern of every row. *)
Theorem rotate_left_right_roundtrip (b : buffer) (n : nat) :
  wf_buffer b = true ->
  (1 <= n <= Z.to_nat MATRIX_COLUMNS)%nat ->
  Nat.iter n (matrix_rotate_buffer DIRECTION_RIGHT)
    (Nat.iter n (matrix_rotate_buffer DIRECTION_LEFT) b) = b.
Proof.
  intros H _. apply rotate_roundtrip_any, H.
Qed.

Lemma rotate_left_right_roundtrip_witness :
  Nat.iter 3 (matrix_rotate_buffer DIRECTION_RIGHT)
    (Nat.iter 3 (matrix_rotate_buffer DIRECTION_LEFT) test_buffer)
  = test_buffer.
Proof.
  apply (rotate_left_right_roundtrip test_buffer 3).
  - reflexivity.
  - change (Z.to_nat MATRIX_COLUMNS) with 120%nat. lia.
Defined.

(** The rotation does move the pattern: one step to the left alone changes
    the fixture buffer. *)
Example rotate_left_moves :
  matrix_rotate_buffer DIRECTION_LEFT test_buffer <> test_buffer.
Proof. vm_compute. discriminate. Qed.

(** C5.  Full period: on any frame buffer, [COLUMNS] (120) rotations to the
    left give back the buffer exactly. *)
Theorem rotate_left_full_period (b : buffer) :
  wf_buffer b = true ->
  Nat.iter (Z.to_nat MATRIX_COLUMNS) (matrix_rotate_buffer DIRECTION_LEFT) b
  = b.
Proof.
  intros H. change (Z.to_nat MATRIX_COLUMNS) with 120%nat.
  apply rotate_left_period, H.
Qed.

Lemma rotate_left_full_period_witness :
  Nat.iter (Z.to_nat MATRIX_COLUMNS) (matrix_rotate_buffer DIRECTION_LEFT)
    test_buffer
  = test_buffer.
Proof.
  apply (rotate_left_full_period test_buffer). reflexivity.
Defined.

(** ** Smooth scroll and pac-man *)

(** Name the fields of an engine. *)
Ltac open_engine e :=
  let b := fresh "b" in let c := fresh "c" in let f := fresh "f" in
  destruct e as [b c f];
  destruct c as [rt sp pv st t1 t2 mp ml iv dp];
  cbn [msg_context fetch_next_msg display_buffer routine animation_speed
       anim_prev_millis state tmp_1 tmp_2 msg_ptr msg_length interval
       delay_prev_millis] in *.

(** The [switch] of [do_animation] at routine 0. *)
Lemma do_animation_routine_0 (font : font8x5_h) (t : tick) (e : engine) :
  routine (msg_context e) = 0 ->
  do_animation font t e
  = match anim_smooth_scroll_clear font (to_ulong (now t)) e with
    | Return e' => e'
    | Break e' =>
        if elapsed_gt (to_ulong (now_tail t))
                      (delay_prev_millis (msg_context e'))
                      (interval (msg_context e'))
        then set_fetch_next_msg true e' else e'
    end.
Proof. intros H. unfold do_animation. rewrite H. reflexivity. Qed.

(** Enter [case 0] and read the fields, leaving the buffer operations
    folded. *)
Ltac run_scroll :=
  rewrite !do_animation_routine_0 by reflexivity;
  unfold anim_smooth_scroll_clear, anim_smooth_scroll, scroll_shiftin_due;
  unfold scroll_due;
  cbn [msg_context fetch_next_msg display_buffer routine animation_speed
       anim_prev_millis state tmp_1 tmp_2 msg_ptr msg_length interval
       delay_prev_millis ctx buf set_fetch_next_msg set_tmp_1 set_state
       set_anim_prev_millis].

(** Read fields through the setters. *)
Ltac fields :=
  cbn [msg_context fetch_next_msg display_buffer routine animation_speed
       anim_prev_millis state tmp_1 tmp_2 msg_ptr msg_length interval
       delay_prev_millis ctx buf set_fetch_next_msg set_tmp_1 set_tmp_2
       set_state set_routine set_anim_prev_millis andb negb] in *.

Section Scroll.
Variable font : font8x5_h.

(** The phases, with the step counts given by equations. *)
Lemma phase_entry_at L e s j k m :
  anim_prev_millis (msg_context e) <> 0 ->
  state (msg_context e) = s -> tmp_1 (msg_context e) = j ->
  0 <= s < L -> 0 <= j < FONT_PITCH -> fetch_next_msg e = false ->
  k = s * FONT_PITCH + j -> m = s * FONT_PITCH + j ->
  scroll_phase L e k m.
Proof. intros; subst k m; eapply phase_entry; eassumption. Qed.

Lemma phase_trail_at L e j k m :
  anim_prev_millis (msg_context e) <> 0 ->
  state (msg_context e) = L + j -> 0 <= j <= MATRIX_COLUMNS ->
  fetch_next_msg e = false ->
  k = L * FONT_PITCH + j -> m = L * FONT_PITCH ->
  scroll_phase L e k m.
Proof. intros; subst k m; eapply phase_trail; eassumption. Qed.

(** Routine 0 stays routine 0, keeps the message length and never lowers
    the flag. *)
Lemma scroll_keeps (t : tick) (e : engine) :
  routine (msg_context e) = 0 ->
  routine (msg_context (do_animation font t e)) = 0
  /\ msg_length (msg_context (do_animation font t e))
     = msg_length (msg_context e)
  /\ (fetch_next_msg e = true -> fetch_next_msg (do_animation font t e) = true).
Proof.
  intros Hr. open_engine e. subst rt. run_scroll.
  repeat match goal with
         | |- context [if ?c then _ else _] => destruct c; fields
         end; auto.
Qed.

(** One call takes the scroll from its phase to the next one, counting a
    step when the timed branch fires. *)
Lemma scroll_step (L : Z) (t : tick) (e : engine) (k m : Z) :
  1 <= L -> L + MATRIX_COLUMNS + 1 <= INT_MAX ->
  to_ulong (now t) <> 0 ->
  scroll_inv L e k m ->
  scroll_inv L (do_animation font t e)
             (k + (if scroll_due t e then 1 else 0))
             (m + (if scroll_shiftin_due t e then 1 else 0)).
Proof.
  intros HL HLmax Hnow (Hr & Hlen & Hph).
  destruct (scroll_keeps t e Hr) as (Kr & Kl & Kf).
  split; [exact Kr|]. split; [congruence|]. clear Kr Kl.
  unfold INT_MAX, MATRIX_COLUMNS in HLmax.
  open_engine e. subst rt ml.
  inversion Hph as [Hp Hs Hf | s j Hp Hs Ht Hsr Hjr Hf | j Hp Hs Hjr Hf
                   | k' m' Hk Hf Hm]; clear Hph; fields; subst.
  - (* first tick: initialisation, no step *)
    run_scroll. cbn [Z.eqb negb andb]. fields.
    apply (phase_entry_at _ _ 0 0); fields; unfold FONT_PITCH; try lia; auto.
  - (* entry phase *)
    run_scroll. unfold FONT_PITCH in *.
    assert (Hpv : (pv =? 0) = false) by (apply Z.eqb_neq, Hp).
    repeat (rewrite Hpv; cbn [negb andb]; fields).
    destruct (elapsed_gt _ _ _); fields.
    + assert (Hle : uint_le s (L - 1) = true)
        by (unfold uint_le; rewrite !to_uint_small by lia; apply Z.leb_le; lia).
      rewrite Hle. fields. rewrite to_int_small by lia.
      destruct (Z.eqb_spec (j + 1) 5) as [E5|E5]; fields.
      * rewrite to_int_small by lia.
        destruct (Z.eq_dec (s + 1) L) as [EL|EL].
        -- apply (phase_trail_at _ _ 0); fields;
             unfold FONT_PITCH, MATRIX_COLUMNS; try lia; auto.
        -- apply (phase_entry_at _ _ (s + 1) 0); fields;
             unfold FONT_PITCH; try lia; auto.
      * apply (phase_entry_at _ _ s (j + 1)); fields;
          unfold FONT_PITCH; try lia; auto.
    + apply (phase_entry_at _ _ s j); fields; unfold FONT_PITCH; try lia; auto.
  - (* trailing phase *)
    run_scroll. unfold FONT_PITCH, MATRIX_COLUMNS in *.
    assert (Hpv : (pv =? 0) = false) by (apply Z.eqb_neq, Hp).
    repeat (rewrite Hpv; cbn [negb andb]; fields).
    destruct (elapsed_gt _ _ _); fields.
    + assert (Hle : uint_le (L + j) (L - 1) = false)
        by (unfold uint_le; rewrite !to_uint_small by lia; apply Z.leb_gt; lia).
      rewrite Hle. fields. rewrite to_int_small by lia.
      unfold uint_ge. rewrite !to_uint_small by lia.
      destruct (Z.geb_spec (L + j) (L + 120)) as [Hge|Hlt]; fields.
      * apply phase_done; fields; unfold FONT_PITCH, MATRIX_COLUMNS; try lia; auto.
      * apply (phase_trail_at _ _ (j + 1)); fields;
          unfold FONT_PITCH, MATRIX_COLUMNS; try lia; auto.
    + apply (phase_trail_at _ _ j); fields;
        unfold FONT_PITCH, MATRIX_COLUMNS; try lia; auto.
  - (* completed *)
    apply phase_done.
    + destruct (scroll_due t _); lia.
    + apply Kf. reflexivity.
    + unfold scroll_shiftin_due. destruct (scroll_due t _); cbn [andb]; lia.
Qed.

(** The same along a run. *)
Lemma scroll_run (L : Z) (ticks : list tick) (e : engine) (k m : Z) :
  1 <= L -> L + MATRIX_COLUMNS + 1 <= INT_MAX ->
  Forall (fun t => to_ulong (now t) <> 0) ticks ->
  scroll_inv L e k m ->
  scroll_inv L (run font ticks e)
             (k + scroll_steps font ticks e)
             (m + scroll_shiftins font ticks e).
Proof.
  intros HL HLmax Hticks. revert e k m.
  induction Hticks as [|t ticks Ht _ IH]; intros e k m Hinv.
  - cbn [run fold_left scroll_steps scroll_shiftins].
    rewrite !Z.add_0_r. exact Hinv.
  - cbn [scroll_steps scroll_shiftins]. rewrite !Z.add_assoc.
    apply (IH (do_animation font t e)). apply scroll_step; assumption.
Qed.

End Scroll.

Lemma clock_never_zero_Forall ticks :
  clock_never_zero ticks = true ->
  Forall (fun t => to_ulong (now t) <> 0) ticks.
Proof.
  unfold clock_never_zero. rewrite forallb_forall. intros H.
  apply Forall_forall. intros t Hin. specialize (H t Hin).
  apply negb_true_iff, Z.eqb_neq in H. exact H.
Qed.

(** What a phase says about the flag and about the shift-ins. *)
Lemma scroll_phase_reading (L : Z) (e : engine) (k m : Z) :
  1 <= L ->
  scroll_phase L e k m ->
  fetch_next_msg e = (L * FONT_PITCH + MATRIX_COLUMNS + 1 <=? k)
  /\ (k <= L * FONT_PITCH + MATRIX_COLUMNS + 1 ->
      m = Z.min k (L * FONT_PITCH)).
Proof.
  intros HL Hph. unfold FONT_PITCH, MATRIX_COLUMNS in *.
  inversion Hph as [Hp Hs Hf | s j Hp Hs Ht Hsr Hjr Hf | j Hp Hs Hjr Hf
                   | k' m' Hk Hf Hm]; subst; rewrite Hf;
    unfold FONT_PITCH, MATRIX_COLUMNS in *; split;
    try (symmetry; apply Z.leb_gt; lia);
    try (symmetry; apply Z.leb_le; lia); lia.
Qed.

(** [start_animation] leaves the scroll in its fresh phase. *)
Lemma start_animation_scroll_inv (speed pause now0 : Z) (msg : list Z)
                                (e0 : engine) :
  1 <= strlen msg -> strlen msg + MATRIX_COLUMNS + 1 <= INT_MAX ->
  scroll_inv (strlen msg) (start_animation 0 speed pause msg now0 e0) 0 0.
Proof.
  intros HL Hmax. unfold MATRIX_COLUMNS, INT_MAX in Hmax.
  destruct (start_animation_records 0 speed pause now0 msg e0)
    as (Hr & _ & _ & _ & Hlen).
  destruct (start_animation_armed 0 speed pause now0 msg e0)
    as (Hs & Hp & _ & Hf); [lia|].
  rewrite to_uint_small in Hlen by lia.
  split; [exact Hr|]. split; [exact Hlen|].
  apply phase_fresh; assumption.
Qed.

(** C1 as stated fails: for the one-character message "A" (L = 1), after
    [L*FONT_PITCH + COLUMNS = 125] steps (one initialising call, then 125
    calls 100 ms apart at speed 5) the flag is still down; the step after
    that, number 126, raises it. *)
Lemma smooth_scroll_not_done_at_claimed_count :
  scroll_steps test_font (clock_ticks 2000 100 126)
    (start_animation 0 5 20 msg_A 1000 used_engine)
  = strlen msg_A * FONT_PITCH + MATRIX_COLUMNS
  /\ fetch_next_msg
       (run test_font (clock_ticks 2000 100 126)
          (start_animation 0 5 20 msg_A 1000 used_engine)) = false
  /\ scroll_steps test_font (clock_ticks 2000 100 127)
       (start_animation 0 5 20 msg_A 1000 used_engine)
     = strlen msg_A * FONT_PITCH + MATRIX_COLUMNS + 1
  /\ fetch_next_msg
       (run test_font (clock_ticks 2000 100 127)
          (start_animation 0 5 20 msg_A 1000 used_engine)) = true.
Proof. vm_compute. repeat split. Qed.

(** *** Pac-man *)

(** A property kept by the body of a counted loop is kept by the loop. *)
Lemma for_up_invariant {S : Type} (P : S -> Prop) (n : Z)
      (body : Z -> S -> S) (s : S) :
  (forall i x, P x -> P (body i x)) -> P s -> P (for_up n body s).
Proof.
  intros Hbody. unfold for_up. revert s.
  induction (seq 0 (Z.to_nat n)) as [|i l IH]; intros s Hs; cbn [fold_left].
  - exact Hs.
  - apply IH, Hbody, Hs.
Qed.

(** Two nested pixel loops on the engine touch the buffer only. *)
Lemma pixel_loops_frame (n m : Z) (g : Z -> Z -> engine -> buffer -> buffer)
      (e : engine) :
  msg_context
    (for_up n (fun col e => for_up m (fun row e => buf (g col row e) e) e) e)
  = msg_context e
  /\ fetch_next_msg
       (for_up n (fun col e => for_up m (fun row e => buf (g col row e) e) e) e)
     = fetch_next_msg e.
Proof.
  apply (for_up_invariant
           (fun x => msg_context x = msg_context e
                     /\ fetch_next_msg x = fetch_next_msg e));
    [|split; reflexivity].
  intros col x Hx.
  apply (for_up_invariant
           (fun y => msg_context y = msg_context e
                     /\ fetch_next_msg y = fetch_next_msg e));
    [|exact Hx].
  intros row y Hy. exact Hy.
Qed.

(** The [switch] of [do_animation] at routine 19. *)
Lemma do_animation_routine_19 (font : font8x5_h) (t : tick) (e : engine) :
  routine (msg_context e) = 19 ->
  do_animation font t e
  = match anim_pacman (to_ulong (now t)) e with
    | Return e' => e'
    | Break e' =>
        if elapsed_gt (to_ulong (now_tail t))
                      (delay_prev_millis (msg_context e'))
                      (interval (msg_context e'))
        then set_fetch_next_msg true e' else e'
    end.
Proof. intros H. unfold do_animation. rewrite H. reflexivity. Qed.

(** One call in routine 19 leaves the flag alone and the routine at 19
    or 0. *)
Lemma pacman_step (font : font8x5_h) (t : tick) (e : engine) :
  routine (msg_context e) = 19 ->
  fetch_next_msg (do_animation font t e) = fetch_next_msg e
  /\ (routine (msg_context (do_animation font t e)) = 19
      \/ routine (msg_context (do_animation font t e)) = 0).
Proof.
  intros Hr. rewrite do_animation_routine_19 by exact Hr.
  unfold anim_pacman.
  destruct (anim_prev_millis (msg_context e) =? 0).
  { fields. auto. }
  destruct ((state (msg_context e) <? 2) && elapsed_gt _ _ _).
  { match goal with
    | |- context [for_up 8 ?f (for_up 8 ?g e)] =>
        set (e1 := for_up 8 g e); set (e2 := for_up 8 f e1)
    end.
    assert (H1 : msg_context e1 = msg_context e
                 /\ fetch_next_msg e1 = fetch_next_msg e)
      by (apply (pixel_loops_frame 8 MATRIX_ROWS
                   (fun col row e =>
                      matrix_draw_pixel
                        (to_int (col + tmp_1 (msg_context e))) row
                        (bitRead (pacman_at (tmp_2 (msg_context e)) col) row)))).
    assert (H2 : msg_context e2 = msg_context e1
                 /\ fetch_next_msg e2 = fetch_next_msg e1)
      by (apply (pixel_loops_frame 8 MATRIX_ROWS
                   (fun col row e =>
                      matrix_draw_pixel
                        (to_int (to_int (col + tmp_1 (msg_context e)) + 8))
                        row 0))).
    destruct H1 as [C1 F1], H2 as [C2 F2].
    destruct (tmp_2 (msg_context e2) =? 0); fields; rewrite ?C2, ?C1, ?F2, ?F1; auto. }
  destruct ((state (msg_context e) =? 2) && (tmp_1 (msg_context e) >? -8)).
  { fields. auto. }
  destruct (tmp_1 (msg_context e) <=? -8); fields; auto.
Qed.

Lemma run_snoc (font : font8x5_h) (pre : list tick) (t : tick) (e : engine) :
  run font (pre ++ [t]) e = do_animation font t (run font pre e).
Proof. unfold run. rewrite fold_left_app. reflexivity. Qed.

(** Along a run started in routine 19 the routine is 19, then 0 for good;
    while it is 19 the flag is as it was at the start. *)
Lemma pacman_run (font : font8x5_h) (pre : list tick) (e : engine) :
  routine (msg_context e) = 19 ->
  (routine (msg_context (run font pre e)) = 19
   \/ routine (msg_context (run font pre e)) = 0)
  /\ (routine (msg_context (run font pre e)) = 19 ->
      fetch_next_msg (run font pre e) = fetch_next_msg e).
Proof.
  intros Hr. induction pre as [|t pre IH] using rev_ind.
  - cbn [run fold_left]. auto.
  - rewrite run_snoc. destruct IH as [[H19|H0] Hf].
    + destruct (pacman_step font t _ H19) as [Hf' Hr'].
      split; [exact Hr'|]. intros _. rewrite Hf'. apply Hf, H19.
    + destruct (scroll_keeps font t _ H0) as (K & _ & _).
      split; [right; exact K|]. intros H. rewrite K in H. discriminate H.
Qed.

(** End to end with "HI": the routine is still 19 after 79 calls 150 ms
    apart, the sprite then being at the left edge with both frames drawn;
    call 80 hands over to routine 0 on a blank buffer, the flag still down.
    The hand-over keeps [state], [tmp_1] and [anim_prev_millis] as pac-man
    left them. *)
Example pacman_hi_run :
  routine (msg_context
             (run test_font (clock_ticks 2000 150 79)
                (start_animation 19 5 20 msg_HI 1000 used_engine))) = 19
  /\ fetch_next_msg
       (run test_font (clock_ticks 2000 150 79)
          (start_animation 19 5 20 msg_HI 1000 used_engine)) = false
  /\ routine (msg_context
                (run test_font (clock_ticks 2000 150 80)
                   (start_animation 19 5 20 msg_HI 1000 used_engine))) = 0
  /\ fetch_next_msg
       (run test_font (clock_ticks 2000 150 80)
          (start_animation 19 5 20 msg_HI 1000 used_engine)) = false
  /\ display_buffer
       (run test_font (clock_ticks 2000 150 80)
          (start_animation 19 5 20 msg_HI 1000 used_engine)) = blank_buffer
  /\ state (msg_context
              (run test_font (clock_ticks 2000 150 80)
                 (start_animation 19 5 20 msg_HI 1000 used_engine))) = 2
  /\ tmp_1 (msg_context
              (run test_font (clock_ticks 2000 150 80)
                 (start_animation 19 5 20 msg_HI 1000 used_engine))) = -8.
Proof. vm_compute. repeat split. Qed.

(** ** Pixels of the frame-buffer operations *)

(** ** Cells of the buffer *)

Lemma upd_length {A} i (f : A -> A) l : length (upd i f l) = length l.
Proof.
  revert i. induction l as [|x l IH]; intros [|i]; cbn [upd length]; auto.
Qed.

Lemma nth_upd_same {A} i (f : A -> A) l d :
  (i < length l)%nat -> nth i (upd i f l) d = f (nth i l d).
Proof.
  revert i. induction l as [|x l IH]; intros [|i] H; cbn [upd nth length] in *;
    try lia; auto. apply IH. lia.
Qed.

Lemma nth_upd_other {A} i j (f : A -> A) l d :
  i <> j -> nth j (upd i f l) d = nth j l d.
Proof.
  revert i j. induction l as [|x l IH]; intros [|i] [|j] H; cbn [upd nth];
    try reflexivity; try congruence. apply IH. congruence.
Qed.

Lemma wf_buffer_row b r :
  wf_buffer b = true -> (r < 8)%nat -> wf_row (nth r b []) = true.
Proof.
  intros H Hr. apply wf_buffer_inv in H. destruct H as [Hl Hf].
  rewrite Forall_forall in Hf. apply Hf, nth_In. lia.
Qed.

Lemma wf_row_cell r z :
  wf_row r = true -> (z < 15)%nat -> is_byte (nth z r 0) = true.
Proof.
  intros H Hz. apply wf_row_inv in H. destruct H as [Hl Hf].
  rewrite Forall_forall in Hf. apply Hf, nth_In. lia.
Qed.

Lemma buf_read_write b row zone v row' zone' :
  wf_buffer b = true ->
  0 <= row < 8 -> 0 <= zone < 15 -> 0 <= row' -> 0 <= zone' ->
  buf_read (buf_write b row zone v) row' zone'
  = if (row' =? row) && (zone' =? zone) then to_byte v
    else buf_read b row' zone'.
Proof.
  intros H Hr Hz Hr' Hz'. unfold buf_read, buf_write.
  pose proof (wf_buffer_inv b H) as [Hl _].
  destruct (Z.eqb_spec row' row) as [->|Nr]; cbn [andb].
  - rewrite nth_upd_same by lia.
    pose proof (wf_buffer_row b (Z.to_nat row) H ltac:(lia)) as Hrow.
    apply wf_row_inv in Hrow. destruct Hrow as [Hlr _].
    destruct (Z.eqb_spec zone' zone) as [->|Nz].
    + rewrite nth_upd_same by lia. reflexivity.
    + rewrite nth_upd_other by lia. reflexivity.
  - rewrite nth_upd_other by lia. reflexivity.
Qed.

Lemma Forall_upd {A} (P : A -> Prop) i (f : A -> A) l :
  (forall x, P x -> P (f x)) -> Forall P l -> Forall P (upd i f l).
Proof.
  intros Hf H. revert i. induction H as [|x l Hx H IH]; intros [|i]; cbn [upd];
    constructor; auto.
Qed.

Lemma wf_row_intro r :
  length r = 15%nat -> Forall (fun a => is_byte a = true) r -> wf_row r = true.
Proof.
  intros Hl Hb. unfold wf_row. rewrite andb_true_iff, Nat.eqb_eq, forallb_forall.
  split; [exact Hl|]. apply Forall_forall, Hb.
Qed.

Lemma buf_write_wf b row zone v :
  wf_buffer b = true -> wf_buffer (buf_write b row zone v) = true.
Proof.
  intros H. pose proof (wf_buffer_inv b H) as [Hl Hf].
  unfold buf_write. apply wf_buffer_intro; [rewrite upd_length; exact Hl|].
  apply Forall_upd; [|exact Hf].
  intros r Hr. apply wf_row_inv in Hr. destruct Hr as [Hlr Hb].
  apply wf_row_intro; [rewrite upd_length; exact Hlr|].
  clear Hlr. generalize (Z.to_nat zone) as i.
  induction Hb as [|a l Ha Hb IH]; intros [|i]; cbn [upd]; constructor; auto.
  apply to_byte_is_byte.
Qed.

(** ** Pixels *)

Lemma byte_bit_low v i :
  0 <= i < 8 -> Z.testbit (to_byte v) i = Z.testbit v i.
Proof.
  intros Hi. unfold to_byte. change 256 with (2 ^ 8).
  apply Z.mod_pow2_bits_low. lia.
Qed.

Lemma one_shifted_bit i j :
  0 <= i -> 0 <= j -> Z.testbit (Z.shiftl 1 i) j = (j =? i).
Proof.
  intros Hi Hj. rewrite Z.shiftl_spec by exact Hj.
  destruct (Z.eqb_spec j i) as [->|N].
  - rewrite Z.sub_diag. reflexivity.
  - destruct (Z.lt_ge_cases j i).
    + apply Z.testbit_neg_r. lia.
    + change 1 with (2 ^ 0). apply Z.pow2_bits_false. lia.
Qed.

Lemma draw_pixel_get (b : buffer) (column row value c r : Z) :
  wf_buffer b = true ->
  0 <= c < MATRIX_COLUMNS -> 0 <= r < MATRIX_ROWS ->
  get_pixel (matrix_draw_pixel column row value b) c r
  = if (c =? column) && (r =? row) then negb (value =? 0)
    else get_pixel b c r.
Proof.
  intros H Hc Hr. unfold MATRIX_COLUMNS, MATRIX_ROWS in *.
  unfold matrix_draw_pixel, MATRIX_COLUMNS, MATRIX_ROWS.
  destruct (Z.ltb_spec column 0) as [C0|C0]; cbn [orb].
  { destruct (Z.eqb_spec c column); [lia|reflexivity]. }
  destruct (Z.gtb_spec column (120 - 1)) as [C1|C1]; cbn [orb].
  { destruct (Z.eqb_spec c column); [lia|reflexivity]. }
  destruct (Z.ltb_spec row 0) as [R0|R0]; cbn [orb].
  { destruct (Z.eqb_spec r row); [lia|]. rewrite andb_false_r. reflexivity. }
  destruct (Z.gtb_spec row (8 - 1)) as [R1|R1]; cbn [orb].
  { destruct (Z.eqb_spec r row); [lia|]. rewrite andb_false_r. reflexivity. }
  rewrite Z.quot_div_nonneg, Z.rem_mod_nonneg by lia.
  assert (Hz : 0 <= column / 8 < 15) by (split; [apply Z.div_pos; lia | apply Z.div_lt_upper_bound; lia]).
  assert (Hz' : 0 <= c / 8) by (apply Z.div_pos; lia).
  assert (Hm : 0 <= column mod 8 < 8) by (apply Z.mod_pos_bound; lia).
  assert (Hm' : 0 <= c mod 8 < 8) by (apply Z.mod_pos_bound; lia).
  assert (Hsame : c / 8 = column / 8 -> c mod 8 = column mod 8 -> c = column).
  { intros E1 E2. rewrite (Z.div_mod c 8), (Z.div_mod column 8) by lia.
    congruence. }
  unfold get_pixel.
  destruct (Z.eqb_spec value 0) as [V|V]; cbn [negb];
    rewrite buf_read_write by (assumption || lia).
  - destruct (Z.eqb_spec r row) as [->|Nr];
      [|rewrite andb_false_r; reflexivity].
    destruct (Z.eqb_spec (c / 8) (column / 8)) as [Ez|Nz]; cbn [andb].
    + rewrite byte_bit_low by lia.
      rewrite Z.land_spec, Z.lnot_spec, one_shifted_bit by lia.
      rewrite Ez.
      destruct (Z.eqb_spec c column) as [->|Nc].
      * rewrite Z.eqb_refl. cbn [negb]. apply andb_false_r.
      * destruct (Z.eqb_spec (c mod 8) (column mod 8)) as [Em|Nm];
          [exfalso; auto|]. cbn [negb]. apply andb_true_r.
    + destruct (Z.eqb_spec c column) as [->|_]; [congruence|reflexivity].
  - destruct (Z.eqb_spec r row) as [->|Nr];
      [|rewrite andb_false_r; reflexivity].
    destruct (Z.eqb_spec (c / 8) (column / 8)) as [Ez|Nz]; cbn [andb].
    + rewrite byte_bit_low by lia.
      rewrite Z.lor_spec, one_shifted_bit by lia.
      rewrite Ez.
      destruct (Z.eqb_spec c column) as [->|Nc].
      * rewrite Z.eqb_refl. apply orb_true_r.
      * destruct (Z.eqb_spec (c mod 8) (column mod 8)) as [Em|Nm];
          [exfalso; auto|]. apply orb_false_r.
    + destruct (Z.eqb_spec c column) as [->|_]; [congruence|reflexivity].
Qed.

Lemma matrix_draw_pixel_wf column row value b :
  wf_buffer b = true -> wf_buffer (matrix_draw_pixel column row value b) = true.
Proof.
  intros H. unfold matrix_draw_pixel.
  destruct (_ || _); [exact H|].
  destruct (negb _); apply buf_write_wf, H.
Qed.

(** X1. [matrix_draw_pixel] changes exactly the addressed LED: afterwards
    the LED at ([column], [row]) is lit if and only if [value] is not 0,
    every other LED of the display is as before (so a position off the
    display changes nothing), and the buffer keeps its 8 x 15 byte shape. *)
Theorem matrix_draw_pixel_spec (b : buffer) (column row value c r : Z) :
  wf_buffer b = true ->
  0 <= c < MATRIX_COLUMNS -> 0 <= r < MATRIX_ROWS ->
  get_pixel (matrix_draw_pixel column row value b) c r
  = (if (c =? column) && (r =? row) then negb (value =? 0)
     else get_pixel b c r)
  /\ wf_buffer (matrix_draw_pixel column row value b) = true.
Proof.
  intros H Hc Hr. split.
  - apply draw_pixel_get; assumption.
  - apply matrix_draw_pixel_wf, H.
Qed.

Lemma matrix_draw_pixel_spec_witness :
  get_pixel (matrix_draw_pixel 10 3 1 test_buffer) 10 3 = true
  /\ wf_buffer (matrix_draw_pixel 10 3 1 test_buffer) = true.
Proof.
  apply (matrix_draw_pixel_spec test_buffer 10 3 1 10 3).
  - reflexivity.
  - unfold MATRIX_COLUMNS. lia.
  - unfold MATRIX_ROWS. lia.
Defined.

(** ** Bits of the cell operations *)

Lemma bitRead_bit x n : 0 <= n -> bitRead x n = Z.b2z (Z.testbit x n).
Proof.
  intros Hn. unfold bitRead. change 1 with (Z.ones 1) at 1.
  rewrite Z.land_ones by lia. change (2 ^ 1) with 2.
  rewrite <- Z.bit0_mod, Z.shiftr_spec by lia. reflexivity.
Qed.

Lemma bitWrite_bit x n v i :
  0 <= n -> 0 <= i ->
  Z.testbit (bitWrite x n v) i
  = if i =? n then negb (v =? 0) else Z.testbit x i.
Proof.
  intros Hn Hi. unfold bitWrite, bitClear, bitSet.
  destruct (Z.eqb_spec v 0) as [V|V]; cbn [negb].
  - rewrite Z.land_spec, Z.lnot_spec, one_shifted_bit by lia.
    destruct (i =? n); cbn [negb]; [apply andb_false_r | apply andb_true_r].
  - rewrite Z.lor_spec, one_shifted_bit by lia.
    destruct (i =? n); [apply orb_true_r | apply orb_false_r].
Qed.

Lemma b2z_eqb_0 (x : bool) : negb (Z.b2z x =? 0) = x.
Proof. destruct x; reflexivity. Qed.

Lemma byte_bit_high a i : is_byte a = true -> 8 <= i -> Z.testbit a i = false.
Proof.
  intros Ha Hi. apply is_byte_range in Ha.
  rewrite <- (Z.mod_small a (2 ^ 8)) by (change (2 ^ 8) with 256; lia).
  apply Z.mod_pow2_bits_high. lia.
Qed.

Lemma shr_cell_bit a i :
  is_byte a = true -> 0 <= i < 8 ->
  Z.testbit (to_byte (Z.shiftr a 1)) i
  = if i =? 7 then false else Z.testbit a (i + 1).
Proof.
  intros Ha Hi. rewrite byte_bit_low, Z.shiftr_spec by lia.
  destruct (Z.eqb_spec i 7) as [->|N]; [|reflexivity].
  apply byte_bit_high; [exact Ha|lia].
Qed.

Lemma shl_cell_bit a i :
  0 <= i < 8 ->
  Z.testbit (to_byte (Z.shiftl a 1)) i
  = if i =? 0 then false else Z.testbit a (i - 1).
Proof.
  intros Hi. rewrite byte_bit_low, Z.shiftl_spec by lia.
  destruct (Z.eqb_spec i 0) as [->|N]; [|reflexivity].
  apply Z.testbit_neg_r. lia.
Qed.

Lemma rotr_cell_bit a prv i :
  0 <= i < 8 ->
  Z.testbit (rotr_cell a prv) i
  = if i =? 0 then Z.testbit prv 7 else Z.testbit a (i - 1).
Proof.
  intros Hi. unfold rotr_cell.
  rewrite byte_bit_low, bitWrite_bit, bitRead_bit, b2z_eqb_0 by lia.
  destruct (Z.eqb_spec i 0) as [->|N]; [reflexivity|].
  rewrite shl_cell_bit by lia.
  destruct (Z.eqb_spec i 0); [contradiction|reflexivity].
Qed.

(** ** Shifts and rotations, row by row *)

Lemma shift_left_as_rows b :
  wf_buffer b = true -> matrix_shift_buffer DIRECTION_LEFT b = map shl_row b.
Proof.
  intros H. name_all_cells b H.
  cbv -[to_byte bitWrite bitRead Z.shiftr Z.shiftl]. reflexivity.
Qed.

Lemma shift_right_as_rows b :
  wf_buffer b = true -> matrix_shift_buffer DIRECTION_RIGHT b = map shr_row b.
Proof.
  intros H. name_all_cells b H.
  cbv -[to_byte bitWrite bitRead Z.shiftr Z.shiftl]. reflexivity.
Qed.

Ltac row_cases c tac :=
  do 120 (destruct c as [|c];
          [ cbv [row_bit rotl_row rotr_row shl_row shr_row map2 tl hd app
                 last removelast nth Nat.div Nat.modulo Nat.divmod fst snd
                 Nat.sub Nat.add Nat.eqb Z.of_nat Pos.of_succ_nat Pos.succ];
            tac
          | ]);
  try lia.

Lemma shl_row_bit r c :
  wf_row r = true -> (c < 120)%nat ->
  row_bit (shl_row r) c
  = if (c =? 119)%nat then false else row_bit r (c + 1).
Proof.
  intros H Hc. name_cells r H.
  row_cases c ltac:(first [ rewrite rotl_cell_bit by (assumption || (simpl; tauto))
                          | rewrite shr_cell_bit by (assumption || lia) ];
                    reflexivity).
Qed.

Lemma shr_row_bit r c :
  wf_row r = true -> (c < 120)%nat ->
  row_bit (shr_row r) c
  = if (c =? 0)%nat then false else row_bit r (c - 1).
Proof.
  intros H Hc. name_cells r H.
  row_cases c ltac:(first [ rewrite rotr_cell_bit by lia
                          | rewrite shl_cell_bit by lia ];
                    reflexivity).
Qed.

Lemma rotr_row_bit r c :
  wf_row r = true -> (c < 120)%nat ->
  row_bit (rotr_row r) c = row_bit r ((c + 119) mod 120).
Proof.
  intros H Hc. name_cells r H.
  row_cases c ltac:(rewrite rotr_cell_bit by lia; reflexivity).
Qed.

Lemma shl_row_wf r : wf_row r = true -> wf_row (shl_row r) = true.
Proof.
  intros H. name_cells r H.
  cbv [shl_row rotl_cell map2 tl hd app last removelast wf_row length forallb].
  rewrite !to_byte_is_byte. reflexivity.
Qed.

Lemma shr_row_wf r : wf_row r = true -> wf_row (shr_row r) = true.
Proof.
  intros H. name_cells r H.
  cbv [shr_row rotr_cell map2 tl hd app last removelast wf_row length forallb].
  rewrite !to_byte_is_byte. reflexivity.
Qed.

Lemma rotr_row_wf r : wf_row r = true -> wf_row (rotr_row r) = true.
Proof.
  intros H. name_cells r H.
  cbv [rotr_row rotr_cell map2 tl hd app last removelast wf_row length forallb].
  rewrite !to_byte_is_byte. reflexivity.
Qed.

Lemma map_rows_wf (f : list Z -> list Z) b :
  (forall r, wf_row r = true -> wf_row (f r) = true) ->
  wf_buffer b = true -> wf_buffer (map f b) = true.
Proof.
  intros Hf H. apply wf_buffer_inv in H. destruct H as [Hl Hr].
  apply wf_buffer_intro; [rewrite length_map; exact Hl|].
  apply Forall_map. eapply Forall_impl; [|exact Hr]. exact Hf.
Qed.

Lemma iter_rows_wf (f : list Z -> list Z) n r :
  (forall r, wf_row r = true -> wf_row (f r) = true) ->
  wf_row r = true -> wf_row (Nat.iter n f r) = true.
Proof.
  intros Hf H. induction n as [|n IH]; [exact H|].
  rewrite Nat.iter_succ. apply Hf, IH.
Qed.

(** The LED of a buffer and the bit of its row. *)
Lemma get_pixel_row_bit b c r :
  get_pixel b (Z.of_nat c) (Z.of_nat r) = row_bit (nth r b []) c.
Proof.
  unfold get_pixel, buf_read, row_bit.
  rewrite Nat2Z.id.
  change 8 with (Z.of_nat 8).
  rewrite <- Nat2Z.inj_div, <- Nat2Z.inj_mod, Nat2Z.id. reflexivity.
Qed.

Lemma nth_map_rows (f : list Z -> list Z) b r :
  (r < length b)%nat -> nth r (map f b) [] = f (nth r b []).
Proof.
  intros H. rewrite (nth_indep _ [] (f [])) by (rewrite length_map; exact H).
  apply map_nth.
Qed.

Lemma get_pixel_map_rows (f : list Z -> list Z) b c r :
  wf_buffer b = true -> (r < 8)%nat ->
  get_pixel (map f b) (Z.of_nat c) (Z.of_nat r) = row_bit (f (nth r b [])) c.
Proof.
  intros H Hr. rewrite get_pixel_row_bit, nth_map_rows; [reflexivity|].
  apply wf_buffer_inv in H. destruct H as [Hl _]. lia.
Qed.

Lemma shift_horizontal_pixels (b : buffer) (c r : Z) :
  wf_buffer b = true ->
  0 <= c < MATRIX_COLUMNS -> 0 <= r < MATRIX_ROWS ->
  get_pixel (matrix_shift_buffer DIRECTION_LEFT b) c r
  = (if c =? MATRIX_COLUMNS - 1 then false else get_pixel b (c + 1) r)
  /\ get_pixel (matrix_shift_buffer DIRECTION_RIGHT b) c r
     = (if c =? 0 then false else get_pixel b (c - 1) r).
Proof.
  intros H Hc Hr. unfold MATRIX_COLUMNS, MATRIX_ROWS in *.
  rewrite shift_left_as_rows, shift_right_as_rows by exact H.
  rewrite <- (Z2Nat.id c), <- (Z2Nat.id r) by lia.
  rewrite !get_pixel_map_rows by (assumption || lia).
  pose proof (wf_buffer_row b (Z.to_nat r) H ltac:(lia)) as Hrow.
  rewrite shl_row_bit, shr_row_bit by (assumption || lia).
  split.
  - destruct (Nat.eqb_spec (Z.to_nat c) 119) as [E|N];
      destruct (Z.eqb_spec (Z.of_nat (Z.to_nat c)) (120 - 1)) as [E'|N'];
      try lia; try reflexivity.
    replace (Z.of_nat (Z.to_nat c) + 1) with (Z.of_nat (Z.to_nat c + 1)) by lia.
    rewrite get_pixel_row_bit. reflexivity.
  - destruct (Nat.eqb_spec (Z.to_nat c) 0) as [E|N];
      destruct (Z.eqb_spec (Z.of_nat (Z.to_nat c)) 0) as [E'|N'];
      try lia; try reflexivity.
    replace (Z.of_nat (Z.to_nat c) - 1) with (Z.of_nat (Z.to_nat c - 1)) by lia.
    rewrite get_pixel_row_bit. reflexivity.
Qed.

Lemma to_byte_byte a : is_byte a = true -> to_byte a = a.
Proof. intros H. apply is_byte_range in H. unfold to_byte. apply Z.mod_small, H. Qed.

(** Name rows and cells of a well-formed buffer, keeping the fact that every
    cell is a byte. *)
Ltac name_all_bytes b H :=
  let Hl := fresh "Hl" in
  let Hr := fresh "Hr" in
  apply wf_buffer_inv in H; destruct H as [Hl Hr];
  do 8 (destruct b as [|? b]; [discriminate Hl|]);
  destruct b; [clear Hl | discriminate Hl];
  repeat match goal with
         | F : Forall _ (_ :: _) |- _ => inversion F; clear F; subst
         | F : Forall _ [] |- _ => clear F
         end;
  repeat match goal with
         | W : wf_row ?l = true |- _ => name_cells l W
         end.

Lemma shift_up_as_rows b :
  wf_buffer b = true ->
  matrix_shift_buffer DIRECTION_UP b = tl b ++ [blank_row].
Proof.
  intros H. name_all_bytes b H.
  cbv -[to_byte]. rewrite !to_byte_byte by (assumption || reflexivity).
  reflexivity.
Qed.

Lemma shift_down_as_rows b :
  wf_buffer b = true ->
  matrix_shift_buffer DIRECTION_DOWN b = blank_row :: removelast b.
Proof.
  intros H. name_all_bytes b H.
  cbv -[to_byte]. rewrite !to_byte_byte by (assumption || reflexivity).
  reflexivity.
Qed.

Lemma fill_as_rows v b :
  wf_buffer b = true ->
  matrix_fill_buffer v b
  = repeat (repeat (to_byte v) (Z.to_nat MATRIX_NUM_ZONES))
           (Z.to_nat MATRIX_ROWS).
Proof.
  intros H. name_all_cells b H. cbv -[to_byte]. reflexivity.
Qed.

Lemma nth_blank_row z : nth z blank_row 0 = 0.
Proof.
  unfold blank_row. generalize (Z.to_nat MATRIX_NUM_ZONES) as n.
  revert z. induction z as [|z IH]; intros [|n]; cbn [repeat nth]; auto.
Qed.

Lemma row_bit_blank c : row_bit blank_row c = false.
Proof. unfold row_bit. rewrite nth_blank_row. apply Z.bits_0. Qed.

Lemma blank_row_wf : wf_row blank_row = true.
Proof. reflexivity. Qed.

(** X4. The vertical shifts in LEDs: after [DIRECTION_UP] each LED shows
    what the LED below it showed and the bottom row is dark; after
    [DIRECTION_DOWN] each LED shows what the LED above it showed and the
    top row is dark. *)
Theorem matrix_shift_buffer_vertical (b : buffer) (c r : Z) :
  wf_buffer b = true ->
  0 <= c < MATRIX_COLUMNS -> 0 <= r < MATRIX_ROWS ->
  get_pixel (matrix_shift_buffer DIRECTION_UP b) c r
  = (if r =? MATRIX_ROWS - 1 then false else get_pixel b c (r + 1))
  /\ get_pixel (matrix_shift_buffer DIRECTION_DOWN b) c r
     = (if r =? 0 then false else get_pixel b c (r - 1)).
Proof.
  intros H Hc Hr. unfold MATRIX_COLUMNS, MATRIX_ROWS in *.
  rewrite shift_up_as_rows, shift_down_as_rows by exact H.
  apply wf_buffer_inv in H. destruct H as [Hl _].
  do 8 (destruct b as [|? b]; [discriminate Hl|]).
  destruct b; [clear Hl | discriminate Hl].
  cbn [tl app removelast].
  assert (Hb : forall z i, Z.testbit (nth z blank_row 0) i = false)
    by (intros; rewrite nth_blank_row; apply Z.bits_0).
  assert (E : r = 0 \/ r = 1 \/ r = 2 \/ r = 3 \/ r = 4 \/ r = 5 \/ r = 6
              \/ r = 7) by lia.
  unfold get_pixel, buf_read.
  repeat (destruct E as [->|E]; [split; cbn; auto|]).
  subst r. split; cbn; auto.
Qed.

Lemma matrix_shift_buffer_vertical_witness :
  get_pixel (matrix_shift_buffer DIRECTION_UP test_buffer) 5 7 = false
  /\ get_pixel (matrix_shift_buffer DIRECTION_DOWN test_buffer) 5 7
     = get_pixel test_buffer 5 6.
Proof.
  apply (matrix_shift_buffer_vertical test_buffer 5 7).
  - reflexivity.
  - unfold MATRIX_COLUMNS. lia.
  - unfold MATRIX_ROWS. lia.
Defined.

Lemma shl_row_iter_bit n r c :
  wf_row r = true -> (c < 120)%nat ->
  row_bit (Nat.iter n shl_row r) c
  = if (120 <=? c + n)%nat then false else row_bit r (c + n).
Proof.
  revert r c. induction n as [|n IH]; intros r c H Hc.
  - cbn [Nat.iter nat_rect]. rewrite Nat.add_0_r.
    destruct (Nat.leb_spec 120 c); [lia|reflexivity].
  - rewrite Nat.iter_succ_r, IH by (try apply shl_row_wf; assumption).
    destruct (Nat.leb_spec 120 (c + n)) as [L|L];
      destruct (Nat.leb_spec 120 (c + S n)) as [L'|L']; try lia;
      try reflexivity.
    + rewrite shl_row_bit by (assumption || lia).
      destruct (Nat.eqb_spec (c + n) 119); [reflexivity|lia].
    + rewrite shl_row_bit by (assumption || lia).
      destruct (Nat.eqb_spec (c + n) 119); [lia|].
      f_equal. lia.
Qed.

Lemma shr_row_iter_bit n r c :
  wf_row r = true -> (c < 120)%nat ->
  row_bit (Nat.iter n shr_row r) c
  = if (c <? n)%nat then false else row_bit r (c - n).
Proof.
  revert r c. induction n as [|n IH]; intros r c H Hc.
  - cbn [Nat.iter nat_rect]. rewrite Nat.sub_0_r. reflexivity.
  - rewrite Nat.iter_succ_r, IH by (try apply shr_row_wf; assumption).
    destruct (Nat.ltb_spec c n) as [L|L];
      destruct (Nat.ltb_spec c (S n)) as [L'|L']; try lia;
      try reflexivity.
    + rewrite shr_row_bit by (assumption || lia).
      destruct (Nat.eqb_spec (c - n) 0); [reflexivity|lia].
    + rewrite shr_row_bit by (assumption || lia).
      destruct (Nat.eqb_spec (c - n) 0); [lia|].
      f_equal. lia.
Qed.

Lemma iter_map_rows (f : list Z -> list Z) (g : buffer -> buffer) n b :
  (forall r, wf_row r = true -> wf_row (f r) = true) ->
  (forall b, wf_buffer b = true -> g b = map f b) ->
  wf_buffer b = true ->
  Nat.iter n g b = map (Nat.iter n f) b /\ wf_buffer (Nat.iter n g b) = true.
Proof.
  intros Hf Hg H. induction n as [|n [IH IHw]].
  - cbn [Nat.iter nat_rect]. split; [symmetry; apply map_id | exact H].
  - rewrite Nat.iter_succ, Hg by exact IHw. split.
    + rewrite IH, map_map. apply map_ext. intros r.
      rewrite Nat.iter_succ. reflexivity.
    + apply map_rows_wf; assumption.
Qed.

Lemma rows_all_blank (f : list Z -> list Z) b :
  wf_buffer b = true ->
  (forall r, wf_row r = true -> f r = blank_row) ->
  map f b = blank_buffer.
Proof.
  intros H Hf. apply wf_buffer_inv in H. destruct H as [Hl Hr].
  do 8 (destruct b as [|? b]; [discriminate Hl|]).
  destruct b; [clear Hl | discriminate Hl].
  repeat match goal with
         | F : Forall _ (_ :: _) |- _ => inversion F; clear F; subst
         end.
  cbn [map]. rewrite !Hf by assumption. reflexivity.
Qed.

(** X5. Shifting as often as the display is wide (120 times left or right)
    or high (8 times up or down) leaves every byte of the buffer 0. *)
Theorem matrix_shift_buffer_out (b : buffer) :
  wf_buffer b = true ->
  Nat.iter (Z.to_nat MATRIX_COLUMNS) (matrix_shift_buffer DIRECTION_LEFT) b
  = blank_buffer
  /\ Nat.iter (Z.to_nat MATRIX_COLUMNS) (matrix_shift_buffer DIRECTION_RIGHT) b
     = blank_buffer
  /\ Nat.iter (Z.to_nat MATRIX_ROWS) (matrix_shift_buffer DIRECTION_UP) b
     = blank_buffer
  /\ Nat.iter (Z.to_nat MATRIX_ROWS) (matrix_shift_buffer DIRECTION_DOWN) b
     = blank_buffer.
Proof.
  intros H. change (Z.to_nat MATRIX_COLUMNS) with 120%nat.
  change (Z.to_nat MATRIX_ROWS) with 8%nat.
  split; [|split; [|split]].
  - destruct (iter_map_rows shl_row (matrix_shift_buffer DIRECTION_LEFT) 120 b
                shl_row_wf shift_left_as_rows H) as [E _].
    rewrite E. apply rows_all_blank; [exact H|]. intros r Hr.
    apply row_ext; [apply iter_rows_wf; [apply shl_row_wf|exact Hr]
                   | apply blank_row_wf |].
    intros c Hc. rewrite shl_row_iter_bit, row_bit_blank by assumption.
    destruct (Nat.leb_spec 120 (c + 120)); [reflexivity|lia].
  - destruct (iter_map_rows shr_row (matrix_shift_buffer DIRECTION_RIGHT) 120 b
                shr_row_wf shift_right_as_rows H) as [E _].
    rewrite E. apply rows_all_blank; [exact H|]. intros r Hr.
    apply row_ext; [apply iter_rows_wf; [apply shr_row_wf|exact Hr]
                   | apply blank_row_wf |].
    intros c Hc. rewrite shr_row_iter_bit, row_bit_blank by assumption.
    destruct (Nat.ltb_spec c 120); [reflexivity|lia].
  - name_all_cells b H. vm_compute. reflexivity.
  - name_all_cells b H. vm_compute. reflexivity.
Qed.

Lemma matrix_shift_buffer_out_witness :
  Nat.iter (Z.to_nat MATRIX_COLUMNS) (matrix_shift_buffer DIRECTION_LEFT)
    test_buffer = blank_buffer
  /\ Nat.iter (Z.to_nat MATRIX_COLUMNS) (matrix_shift_buffer DIRECTION_RIGHT)
       test_buffer = blank_buffer
  /\ Nat.iter (Z.to_nat MATRIX_ROWS) (matrix_shift_buffer DIRECTION_UP)
       test_buffer = blank_buffer
  /\ Nat.iter (Z.to_nat MATRIX_ROWS) (matrix_shift_buffer DIRECTION_DOWN)
       test_buffer = blank_buffer.
Proof. apply (matrix_shift_buffer_out test_buffer). reflexivity. Defined.

(** X6. A shift is not undone by the opposite shift: after left then right
    column 0 is dark, after right then left column 119 is dark, and every
    other LED is back where it was. *)
Theorem matrix_shift_buffer_back (b : buffer) (c r : Z) :
  wf_buffer b = true ->
  0 <= c < MATRIX_COLUMNS -> 0 <= r < MATRIX_ROWS ->
  get_pixel (matrix_shift_buffer DIRECTION_RIGHT
               (matrix_shift_buffer DIRECTION_LEFT b)) c r
  = (if c =? 0 then false else get_pixel b c r)
  /\ get_pixel (matrix_shift_buffer DIRECTION_LEFT
                  (matrix_shift_buffer DIRECTION_RIGHT b)) c r
     = (if c =? MATRIX_COLUMNS - 1 then false else get_pixel b c r).
Proof.
  intros H Hc Hr. unfold MATRIX_COLUMNS, MATRIX_ROWS in *.
  assert (WL : wf_buffer (map shl_row b) = true)
    by (apply map_rows_wf; [apply shl_row_wf | exact H]).
  assert (WR : wf_buffer (map shr_row b) = true)
    by (apply map_rows_wf; [apply shr_row_wf | exact H]).
  rewrite (shift_left_as_rows b), (shift_right_as_rows b) by exact H.
  rewrite shift_right_as_rows, shift_left_as_rows by assumption.
  rewrite !map_map.
  rewrite <- (Z2Nat.id c), <- (Z2Nat.id r) by lia.
  rewrite !get_pixel_map_rows by (assumption || lia).
  rewrite get_pixel_row_bit.
  pose proof (wf_buffer_row b (Z.to_nat r) H ltac:(lia)) as Hrow.
  set (row := nth (Z.to_nat r) b []) in *.
  set (n := Z.to_nat c). assert (Hn : (n < 120)%nat) by lia.
  split.
  - rewrite shr_row_bit by (try apply shl_row_wf; assumption).
    destruct (Nat.eqb_spec n 0) as [E|N];
      destruct (Z.eqb_spec (Z.of_nat n) 0) as [E'|N']; try lia;
      try reflexivity.
    rewrite shl_row_bit by (assumption || lia).
    destruct (Nat.eqb_spec (n - 1) 119); [lia|]. f_equal. lia.
  - rewrite shl_row_bit by (try apply shr_row_wf; assumption).
    destruct (Nat.eqb_spec n 119) as [E|N];
      destruct (Z.eqb_spec (Z.of_nat n) (120 - 1)) as [E'|N']; try lia;
      try reflexivity.
    rewrite shr_row_bit by (assumption || lia).
    destruct (Nat.eqb_spec (n + 1) 0); [lia|]. f_equal. lia.
Qed.

Lemma matrix_shift_buffer_back_witness :
  get_pixel (matrix_shift_buffer DIRECTION_RIGHT
               (matrix_shift_buffer DIRECTION_LEFT test_buffer)) 0 3 = false
  /\ get_pixel (matrix_shift_buffer DIRECTION_LEFT
                  (matrix_shift_buffer DIRECTION_RIGHT test_buffer)) 0 3
     = get_pixel test_buffer 0 3.
Proof.
  apply (matrix_shift_buffer_back test_buffer 0 3).
  - reflexivity.
  - unfold MATRIX_COLUMNS. lia.
  - unfold MATRIX_ROWS. lia.
Defined.

(** X7. The rotations in LEDs: after a left rotation the LED in column [c]
    shows what column [(c + 1) mod 120] showed, after a right rotation what
    column [(c - 1) mod 120] showed; no LED is lost. *)
Theorem matrix_rotate_buffer_pixels (b : buffer) (c r : Z) :
  wf_buffer b = true ->
  0 <= c < MATRIX_COLUMNS -> 0 <= r < MATRIX_ROWS ->
  get_pixel (matrix_rotate_buffer DIRECTION_LEFT b) c r
  = get_pixel b ((c + 1) mod MATRIX_COLUMNS) r
  /\ get_pixel (matrix_rotate_buffer DIRECTION_RIGHT b) c r
     = get_pixel b ((c - 1) mod MATRIX_COLUMNS) r.
Proof.
  intros H Hc Hr. unfold MATRIX_COLUMNS, MATRIX_ROWS in *.
  rewrite rotl_row_as_cells, rotr_row_as_cells by exact H.
  pose proof (wf_buffer_row b (Z.to_nat r) H ltac:(lia)) as Hrow.
  replace ((c + 1) mod 120)
    with (Z.of_nat ((Z.to_nat c + 1) mod 120))
    by (rewrite Nat2Z.inj_mod, Nat2Z.inj_add, Z2Nat.id by lia; reflexivity).
  replace ((c - 1) mod 120)
    with (Z.of_nat ((Z.to_nat c + 119) mod 120)).
  2:{ rewrite Nat2Z.inj_mod, Nat2Z.inj_add, Z2Nat.id by lia.
      change (Z.of_nat 119) with 119. change (Z.of_nat 120) with 120.
      Z.div_mod_to_equations. lia. }
  rewrite <- (Z2Nat.id c) at 1 3 by lia. rewrite <- (Z2Nat.id r) by lia.
  rewrite !get_pixel_map_rows, !get_pixel_row_bit by (assumption || lia).
  rewrite rotl_row_bit, rotr_row_bit by (assumption || lia).
  split; reflexivity.
Qed.

Lemma matrix_rotate_buffer_pixels_witness :
  get_pixel (matrix_rotate_buffer DIRECTION_LEFT test_buffer) 119 1
  = get_pixel test_buffer 0 1
  /\ get_pixel (matrix_rotate_buffer DIRECTION_RIGHT test_buffer) 119 1
     = get_pixel test_buffer 118 1.
Proof.
  apply (matrix_rotate_buffer_pixels test_buffer 119 1).
  - reflexivity.
  - unfold MATRIX_COLUMNS. lia.
  - unfold MATRIX_ROWS. lia.
Defined.

Lemma rotr_row_iter_bit n r c :
  wf_row r = true -> (c < 120)%nat ->
  row_bit (Nat.iter n rotr_row r) c = row_bit r ((c + n * 119) mod 120).
Proof.
  revert r c. induction n as [|n IH]; intros r c H Hc.
  - cbn [Nat.iter nat_rect]. rewrite Nat.mul_0_l, Nat.add_0_r, Nat.mod_small
      by exact Hc. reflexivity.
  - rewrite Nat.iter_succ_r.
    rewrite IH by (try apply rotr_row_wf; assumption).
    rewrite rotr_row_bit
      by (try apply Nat.mod_upper_bound; (assumption || discriminate)).
    rewrite Nat.Div0.add_mod_idemp_l.
    f_equal. f_equal. lia.
Qed.

Lemma rotl_rotr_row r : wf_row r = true -> rotl_row (rotr_row r) = r.
Proof.
  intros H. apply row_ext;
    [apply rotl_row_wf, rotr_row_wf, H | exact H |].
  intros c Hc.
  rewrite rotl_row_bit by (try apply rotr_row_wf; assumption).
  rewrite rotr_row_bit
    by (try apply Nat.mod_upper_bound; (assumption || discriminate)).
  rewrite Nat.Div0.add_mod_idemp_l.
  replace (c + 1 + 119)%nat with (c + 1 * 120)%nat by lia.
  rewrite Nat.Div0.mod_add, Nat.mod_small by exact Hc. reflexivity.
Qed.

Lemma rotr_row_period r : wf_row r = true -> Nat.iter 120 rotr_row r = r.
Proof.
  intros H. apply row_ext;
    [apply iter_rows_wf; [apply rotr_row_wf | exact H] | exact H |].
  intros c Hc. rewrite rotr_row_iter_bit by assumption.
  f_equal. replace (120 * 119)%nat with (119 * 120)%nat by reflexivity.
  rewrite Nat.Div0.mod_add. apply Nat.mod_small, Hc.
Qed.

Lemma map_rows_id (f : list Z -> list Z) b :
  wf_buffer b = true ->
  (forall r, wf_row r = true -> f r = r) -> map f b = b.
Proof.
  intros H Hf. apply wf_buffer_inv in H. destruct H as [_ Hr].
  rewrite <- (map_id b) at 2. apply map_ext_in. intros r Hin.
  apply Hf. rewrite Forall_forall in Hr. apply Hr, Hin.
Qed.

(** X8. A right rotation followed by a left rotation restores the buffer,
    and 120 right rotations restore it as well. *)
Theorem matrix_rotate_buffer_right (b : buffer) :
  wf_buffer b = true ->
  matrix_rotate_buffer DIRECTION_LEFT (matrix_rotate_buffer DIRECTION_RIGHT b)
  = b
  /\ Nat.iter (Z.to_nat MATRIX_COLUMNS)
       (matrix_rotate_buffer DIRECTION_RIGHT) b = b.
Proof.
  intros H. change (Z.to_nat MATRIX_COLUMNS) with 120%nat. split.
  - rewrite (rotr_row_as_cells b) by exact H.
    rewrite rotl_row_as_cells
      by (apply map_rows_wf; [apply rotr_row_wf | exact H]).
    rewrite map_map. apply map_rows_id; [exact H|].
    intros r Hr. apply rotl_rotr_row, Hr.
  - destruct (iter_map_rows rotr_row (matrix_rotate_buffer DIRECTION_RIGHT)
                120 b rotr_row_wf rotr_row_as_cells H) as [E _].
    rewrite E. apply map_rows_id; [exact H|].
    intros r Hr. apply rotr_row_period, Hr.
Qed.

Lemma matrix_rotate_buffer_right_witness :
  matrix_rotate_buffer DIRECTION_LEFT
    (matrix_rotate_buffer DIRECTION_RIGHT test_buffer) = test_buffer
  /\ Nat.iter (Z.to_nat MATRIX_COLUMNS)
       (matrix_rotate_buffer DIRECTION_RIGHT) test_buffer = test_buffer.
Proof. apply (matrix_rotate_buffer_right test_buffer). reflexivity. Defined.

Lemma matrix_fill_buffer_wf v b :
  wf_buffer b = true -> wf_buffer (matrix_fill_buffer v b) = true.
Proof.
  intros H. rewrite fill_as_rows by exact H.
  change (Z.to_nat MATRIX_NUM_ZONES) with 15%nat.
  change (Z.to_nat MATRIX_ROWS) with 8%nat.
  apply wf_buffer_intro; [reflexivity|].
  apply Forall_forall. intros row Hin. apply repeat_spec in Hin. subst row.
  apply wf_row_intro; [reflexivity|].
  apply Forall_forall. intros a Hin. apply repeat_spec in Hin. subst a.
  apply to_byte_is_byte.
Qed.

(** X2. [matrix_fill_buffer] writes the byte [value] into every zone: the
    LED in column [c] of any row then shows bit [c mod 8] of [value], and
    the buffer keeps its 8 x 15 byte shape. *)
Theorem matrix_fill_buffer_pixels (b : buffer) (value c r : Z) :
  wf_buffer b = true ->
  0 <= c < MATRIX_COLUMNS -> 0 <= r < MATRIX_ROWS ->
  get_pixel (matrix_fill_buffer value b) c r = Z.testbit value (c mod 8)
  /\ wf_buffer (matrix_fill_buffer value b) = true.
Proof.
  intros H Hc Hr. split; [|apply matrix_fill_buffer_wf, H].
  unfold MATRIX_COLUMNS, MATRIX_ROWS in *.
  rewrite fill_as_rows by exact H.
  change (Z.to_nat MATRIX_NUM_ZONES) with 15%nat.
  change (Z.to_nat MATRIX_ROWS) with 8%nat.
  unfold get_pixel, buf_read.
  rewrite (nth_repeat_lt (repeat (to_byte value) 15)) by lia.
  rewrite nth_repeat_lt.
  - apply byte_bit_low. apply Z.mod_pos_bound. lia.
  - assert (0 <= c / 8 < 15)
      by (split; [apply Z.div_pos; lia | apply Z.div_lt_upper_bound; lia]).
    lia.
Qed.

Lemma matrix_fill_buffer_pixels_witness :
  get_pixel (matrix_fill_buffer 0xAA test_buffer) 9 2 = true
  /\ wf_buffer (matrix_fill_buffer 0xAA test_buffer) = true.
Proof.
  apply (matrix_fill_buffer_pixels test_buffer 0xAA 9 2).
  - reflexivity.
  - unfold MATRIX_COLUMNS. lia.
  - unfold MATRIX_ROWS. lia.
Defined.

(** ** Loops that paint pixels *)

Lemma for_up_succ {S : Type} (k : nat) (body : Z -> S -> S) (s : S) :
  for_up (Z.of_nat (Datatypes.S k)) body s
  = body (Z.of_nat k) (for_up (Z.of_nat k) body s).
Proof.
  unfold for_up. rewrite !Nat2Z.id, seq_S, fold_left_app. reflexivity.
Qed.

Lemma for_up_zero {S : Type} (body : Z -> S -> S) (s : S) :
  for_up 0 body s = s.
Proof. reflexivity. Qed.

(** One column painted top to bottom. *)
Lemma column_loop_pixels (h : nat) (X : Z) (v : Z -> Z) b x y :
  wf_buffer b = true ->
  0 <= x < MATRIX_COLUMNS -> 0 <= y < MATRIX_ROWS ->
  get_pixel (for_up (Z.of_nat h)
               (fun row b => matrix_draw_pixel X row (v row) b) b) x y
  = (if (x =? X) && (y <? Z.of_nat h) then negb (v y =? 0)
     else get_pixel b x y)
  /\ wf_buffer (for_up (Z.of_nat h)
                  (fun row b => matrix_draw_pixel X row (v row) b) b) = true.
Proof.
  intros H Hx Hy. induction h as [|h [IH IHw]].
  - change (Z.of_nat 0) with 0. rewrite for_up_zero. split; [|exact H].
    destruct (Z.ltb_spec y 0); [lia|]. rewrite andb_false_r. reflexivity.
  - rewrite for_up_succ. split; [|apply matrix_draw_pixel_wf, IHw].
    rewrite draw_pixel_get by assumption. rewrite IH.
    destruct (Z.eqb_spec x X) as [->|Nx]; cbn [andb]; [|reflexivity].
    destruct (Z.eqb_spec y (Z.of_nat h)) as [->|Ny].
    + destruct (Z.ltb_spec (Z.of_nat h) (Z.of_nat (S h))); [reflexivity|lia].
    + destruct (Z.ltb_spec y (Z.of_nat h));
        destruct (Z.ltb_spec y (Z.of_nat (S h))); try lia; reflexivity.
Qed.

(** A band of columns painted left to right, each top to bottom. *)
Lemma band_loop_pixels (w h : nat) (X0 : Z) (v : Z -> Z -> Z) b x y :
  wf_buffer b = true ->
  0 <= x < MATRIX_COLUMNS -> 0 <= y < MATRIX_ROWS ->
  get_pixel (for_up (Z.of_nat w) (fun col b =>
               for_up (Z.of_nat h) (fun row b =>
                 matrix_draw_pixel (col + X0) row (v col row) b) b) b) x y
  = (if (X0 <=? x) && (x <? X0 + Z.of_nat w) && (y <? Z.of_nat h)
     then negb (v (x - X0) y =? 0)
     else get_pixel b x y)
  /\ wf_buffer (for_up (Z.of_nat w) (fun col b =>
                  for_up (Z.of_nat h) (fun row b =>
                    matrix_draw_pixel (col + X0) row (v col row) b) b) b)
     = true.
Proof.
  intros H Hx Hy. induction w as [|w [IH IHw]].
  - change (Z.of_nat 0) with 0. rewrite for_up_zero. split; [|exact H].
    destruct (Z.leb_spec X0 x); destruct (Z.ltb_spec x (X0 + 0));
      try lia; reflexivity.
  - rewrite for_up_succ.
    destruct (column_loop_pixels h (Z.of_nat w + X0) (v (Z.of_nat w)) _ x y
                IHw Hx Hy) as [E W].
    split; [|exact W]. rewrite E, IH. clear E W IH.
    destruct (Z.eqb_spec x (Z.of_nat w + X0)) as [Ex|Nx]; cbn [andb].
    + replace (x - X0) with (Z.of_nat w) by lia.
      destruct (Z.leb_spec X0 x); [|lia].
      destruct (Z.ltb_spec x (X0 + Z.of_nat (S w))); [|lia].
      destruct (Z.ltb_spec x (X0 + Z.of_nat w)); [lia|]. cbn [andb].
      destruct (y <? Z.of_nat h); reflexivity.
    + destruct (Z.leb_spec X0 x); cbn [andb]; [|reflexivity].
      destruct (Z.ltb_spec x (X0 + Z.of_nat w));
        destruct (Z.ltb_spec x (X0 + Z.of_nat (S w))); try lia; reflexivity.
Qed.

Lemma glyph_bit_value (inv : bool) (bits row : Z) :
  0 <= row ->
  negb ((if inv then lnot_int (bitRead bits row) else bitRead bits row) =? 0)
  = xorb inv (Z.testbit bits row).
Proof.
  intros Hr. rewrite bitRead_bit by exact Hr.
  destruct inv, (Z.testbit bits row); reflexivity.
Qed.

Lemma draw_chr_get
  (font : font8x5_h) (column c : Z) (inv : bool) (b : buffer) (x y : Z) :
  wf_buffer b = true ->
  0 <= x < MATRIX_COLUMNS -> 0 <= y < MATRIX_ROWS ->
  get_pixel (matrix_draw_chr font column c inv b) x y
  = if (column <=? x) && (x <? column + FONT_PITCH)
    then xorb inv (Z.testbit (Font8x5 font (glyph_of font c) (x - column)) y)
    else get_pixel b x y.
Proof.
  intros H Hx Hy. unfold matrix_draw_chr.
  change FONT_PITCH with (Z.of_nat 5). change MATRIX_ROWS with (Z.of_nat 8) at 1.
  destruct (band_loop_pixels 5 8 column
              (fun col row =>
                 if inv
                 then lnot_int (bitRead (Font8x5 font (glyph_of font c) col) row)
                 else bitRead (Font8x5 font (glyph_of font c) col) row)
              b x y H Hx Hy) as [E _].
  cbv zeta. rewrite E. unfold MATRIX_ROWS in Hy.
  destruct (Z.ltb_spec y (Z.of_nat 8)) as [_|Hge]; [|cbn in Hge; lia].
  rewrite andb_true_r.
  destruct ((column <=? x) && (x <? column + Z.of_nat 5)); [|reflexivity].
  apply glyph_bit_value. lia.
Qed.

Lemma matrix_draw_chr_wf font column c inv b :
  wf_buffer b = true -> wf_buffer (matrix_draw_chr font column c inv b) = true.
Proof.
  intros H. unfold matrix_draw_chr.
  change FONT_PITCH with (Z.of_nat 5). change MATRIX_ROWS with (Z.of_nat 8).
  apply (band_loop_pixels 5 8 column
              (fun col row =>
                 if inv
                 then lnot_int (bitRead (Font8x5 font (glyph_of font c) col) row)
                 else bitRead (Font8x5 font (glyph_of font c) col) row)
              b 0 0 H); unfold MATRIX_COLUMNS, MATRIX_ROWS; lia.
Qed.

(** X9. [matrix_draw_chr] paints exactly the 5 x 8 cell of the glyph: an LED
    in columns [column .. column + 4] shows the glyph's bit for its column
    and row (inverted when [inv] is set), every other LED is as before, and
    the part of the cell off the display is dropped. *)
Theorem matrix_draw_chr_pixels
  (font : font8x5_h) (column c : Z) (inv : bool) (b : buffer) (x y : Z) :
  wf_buffer b = true ->
  0 <= x < MATRIX_COLUMNS -> 0 <= y < MATRIX_ROWS ->
  get_pixel (matrix_draw_chr font column c inv b) x y
  = (if (column <=? x) && (x <? column + FONT_PITCH)
     then xorb inv (Z.testbit (Font8x5 font (glyph_of font c) (x - column)) y)
     else get_pixel b x y)
  /\ wf_buffer (matrix_draw_chr font column c inv b) = true.
Proof.
  intros H Hx Hy. split.
  - apply draw_chr_get; assumption.
  - apply matrix_draw_chr_wf, H.
Qed.

Lemma matrix_draw_chr_pixels_witness :
  get_pixel (matrix_draw_chr test_font 10 65 false test_buffer) 12 3
  = Z.testbit (Font8x5 test_font (glyph_of test_font 65) 2) 3
  /\ wf_buffer (matrix_draw_chr test_font 10 65 false test_buffer) = true.
Proof.
  apply (matrix_draw_chr_pixels test_font 10 65 false test_buffer 12 3).
  - reflexivity.
  - unfold MATRIX_COLUMNS. lia.
  - unfold MATRIX_ROWS. lia.
Defined.

Lemma rows_8_wf (f : buffer -> buffer) b :
  wf_buffer b = true ->
  (forall r0 r1 r2 r3 r4 r5 r6 r7,
      b = [r0; r1; r2; r3; r4; r5; r6; r7] ->
      Forall (fun r => wf_row r = true) (f b) /\ length (f b) = 8%nat) ->
  wf_buffer (f b) = true.
Proof.
  intros H Hf. apply wf_buffer_inv in H. destruct H as [Hl Hr].
  do 8 (destruct b as [|? b]; [discriminate Hl|]).
  destruct b; [clear Hl | discriminate Hl].
  destruct (Hf _ _ _ _ _ _ _ _ eq_refl) as [F L].
  apply wf_buffer_intro; assumption.
Qed.

Lemma matrix_shift_buffer_wf dir b :
  wf_buffer b = true -> wf_buffer (matrix_shift_buffer dir b) = true.
Proof.
  intros H.
  destruct (Z.eqb_spec dir DIRECTION_LEFT) as [->|N1].
  { rewrite shift_left_as_rows by exact H.
    apply map_rows_wf; [apply shl_row_wf | exact H]. }
  destruct (Z.eqb_spec dir DIRECTION_RIGHT) as [->|N2].
  { rewrite shift_right_as_rows by exact H.
    apply map_rows_wf; [apply shr_row_wf | exact H]. }
  destruct (Z.eqb_spec dir DIRECTION_UP) as [->|N3].
  { rewrite shift_up_as_rows by exact H.
    pose proof (wf_buffer_inv b H) as [_ Hr].
    apply (rows_8_wf (fun b => tl b ++ [blank_row]) b H).
    intros ? ? ? ? ? ? ? ? ->. split; [|reflexivity].
    cbn [tl app].
    repeat match goal with
           | F : Forall _ (_ :: _) |- _ => inversion F; clear F; subst
           end.
    repeat constructor; assumption. }
  destruct (Z.eqb_spec dir DIRECTION_DOWN) as [->|N4].
  { rewrite shift_down_as_rows by exact H.
    pose proof (wf_buffer_inv b H) as [_ Hr].
    apply (rows_8_wf (fun b => blank_row :: removelast b) b H).
    intros ? ? ? ? ? ? ? ? ->. split; [|reflexivity].
    cbn [removelast].
    repeat match goal with
           | F : Forall _ (_ :: _) |- _ => inversion F; clear F; subst
           end.
    repeat constructor; assumption. }
  unfold matrix_shift_buffer.
  apply Z.eqb_neq in N1, N2, N3, N4. rewrite N1, N2, N3, N4. exact H.
Qed.

(** X3. The horizontal shifts in LEDs: after [DIRECTION_LEFT] each LED
    shows what its right neighbour showed and column 119 is dark; after
    [DIRECTION_RIGHT] each LED shows what its left neighbour showed and
    column 0 is dark.  Nothing wraps around, and the buffer keeps its
    8 x 15 byte shape. *)
Theorem matrix_shift_buffer_horizontal (b : buffer) (c r : Z) :
  wf_buffer b = true ->
  0 <= c < MATRIX_COLUMNS -> 0 <= r < MATRIX_ROWS ->
  get_pixel (matrix_shift_buffer DIRECTION_LEFT b) c r
  = (if c =? MATRIX_COLUMNS - 1 then false else get_pixel b (c + 1) r)
  /\ get_pixel (matrix_shift_buffer DIRECTION_RIGHT b) c r
     = (if c =? 0 then false else get_pixel b (c - 1) r)
  /\ wf_buffer (matrix_shift_buffer DIRECTION_LEFT b) = true
  /\ wf_buffer (matrix_shift_buffer DIRECTION_RIGHT b) = true.
Proof.
  intros H Hc Hr.
  destruct (shift_horizontal_pixels b c r H Hc Hr) as [L R].
  split; [exact L|]. split; [exact R|].
  split; apply matrix_shift_buffer_wf, H.
Qed.

Lemma matrix_shift_buffer_horizontal_witness :
  get_pixel (matrix_shift_buffer DIRECTION_LEFT test_buffer) 119 0 = false
  /\ get_pixel (matrix_shift_buffer DIRECTION_RIGHT test_buffer) 119 0
     = get_pixel test_buffer 118 0
  /\ wf_buffer (matrix_shift_buffer DIRECTION_LEFT test_buffer) = true
  /\ wf_buffer (matrix_shift_buffer DIRECTION_RIGHT test_buffer) = true.
Proof.
  apply (matrix_shift_buffer_horizontal test_buffer 119 0).
  - reflexivity.
  - unfold MATRIX_COLUMNS. lia.
  - unfold MATRIX_ROWS. lia.
Defined.

(** X10. With a column index from 0 to 7, [matrix_shiftin_chr] moves the
    picture by one column and enters column [bit_index] of the glyph at the
    edge: at column 119 for [DIRECTION_LEFT], at column 0 for
    [DIRECTION_RIGHT]. *)
Theorem matrix_shiftin_chr_pixels
  (font : font8x5_h) (c bit_index : Z) (b : buffer) (x y : Z) :
  wf_buffer b = true ->
  0 <= bit_index <= 7 ->
  0 <= x < MATRIX_COLUMNS -> 0 <= y < MATRIX_ROWS ->
  get_pixel (matrix_shiftin_chr font c bit_index DIRECTION_LEFT b) x y
  = (if x =? MATRIX_COLUMNS - 1
     then Z.testbit (Font8x5 font (glyph_of font c) bit_index) y
     else get_pixel b (x + 1) y)
  /\ get_pixel (matrix_shiftin_chr font c bit_index DIRECTION_RIGHT b) x y
     = (if x =? 0
        then Z.testbit (Font8x5 font (glyph_of font c) bit_index) y
        else get_pixel b (x - 1) y).
Proof.
  intros H Hb Hx Hy. unfold matrix_shiftin_chr.
  destruct (Z.ltb_spec bit_index 0); [lia|].
  destruct (Z.gtb_spec bit_index 7); [lia|]. cbn [orb]. cbv zeta.
  change (DIRECTION_LEFT =? DIRECTION_LEFT) with true.
  change (DIRECTION_RIGHT =? DIRECTION_LEFT) with false. cbv iota.
  change MATRIX_ROWS with (Z.of_nat 8) at 1 2.
  split.
  - destruct (column_loop_pixels 8 119
                (fun row => bitRead (Font8x5 font (glyph_of font c) bit_index) row)
                (matrix_shift_buffer DIRECTION_LEFT b) x y
                (matrix_shift_buffer_wf _ b H) Hx Hy) as [E _].
    rewrite E. unfold MATRIX_COLUMNS, MATRIX_ROWS in *.
    destruct (Z.ltb_spec y (Z.of_nat 8)) as [_|G]; [|cbn in G; lia].
    rewrite andb_true_r. change (120 - 1) with 119.
    destruct (Z.eqb_spec x 119) as [->|N].
    + rewrite bitRead_bit by lia. apply b2z_eqb_0.
    + destruct (shift_horizontal_pixels b x y H) as [S _];
        unfold MATRIX_COLUMNS, MATRIX_ROWS; try lia.
      rewrite S. unfold MATRIX_COLUMNS. change (120 - 1) with 119.
      destruct (Z.eqb_spec x 119); [contradiction|reflexivity].
  - destruct (column_loop_pixels 8 0
                (fun row => bitRead (Font8x5 font (glyph_of font c) bit_index) row)
                (matrix_shift_buffer DIRECTION_RIGHT b) x y
                (matrix_shift_buffer_wf _ b H) Hx Hy) as [E _].
    rewrite E. unfold MATRIX_COLUMNS, MATRIX_ROWS in *.
    destruct (Z.ltb_spec y (Z.of_nat 8)) as [_|G]; [|cbn in G; lia].
    rewrite andb_true_r.
    destruct (Z.eqb_spec x 0) as [->|N].
    + rewrite bitRead_bit by lia. apply b2z_eqb_0.
    + destruct (shift_horizontal_pixels b x y H) as [_ S];
        unfold MATRIX_COLUMNS, MATRIX_ROWS; try lia.
      rewrite S.
      destruct (Z.eqb_spec x 0); [contradiction|reflexivity].
Qed.

Lemma matrix_shiftin_chr_pixels_witness :
  get_pixel (matrix_shiftin_chr test_font 65 2 DIRECTION_LEFT test_buffer)
    119 3
  = Z.testbit (Font8x5 test_font (glyph_of test_font 65) 2) 3
  /\ get_pixel (matrix_shiftin_chr test_font 65 2 DIRECTION_RIGHT test_buffer)
       119 3
     = get_pixel test_buffer 118 3.
Proof.
  apply (matrix_shiftin_chr_pixels test_font 65 2 test_buffer 119 3).
  - reflexivity.
  - lia.
  - unfold MATRIX_COLUMNS. lia.
  - unfold MATRIX_ROWS. lia.
Defined.

(** ** Text layout and text drawing *)

Lemma text_layout_nonneg (count format : Z) :
  0 <= count <= INT_MAX ->
  0 <= fst (matrix_draw_text_layout count format)
  /\ 0 <= snd (matrix_draw_text_layout count format).
Proof.
  intros H. unfold INT_MAX in H.
  unfold matrix_draw_text_layout, MATRIX_MAX_CHRS, MATRIX_COLUMNS, FONT_PITCH,
    DT_ALIGN_CENTER, DT_ALIGN_RIGHT.
  change (120 / 5) with 24.
  destruct (Z.eqb_spec format 1) as [F1|F1];
    [|destruct (Z.eqb_spec format 2) as [F2|F2]];
    destruct (Z.leb_spec count 24) as [C|C]; cbn [fst snd];
    rewrite ?(to_int_small (count * 5)), ?(to_int_small (count - 24)) by lia;
    rewrite ?Z.quot_div_nonneg by lia;
    rewrite ?to_int_small by (Z.div_mod_to_equations; lia);
    split; Z.div_mod_to_equations; lia.
Qed.

(** X11. The text layout always fits: for a count from 0 to [INT_MAX] the
    start column and first index are not negative, the characters shown
    ([min count 24]) lie inside the text and inside the 120 columns; right
    alignment ends flush with the last column and the last character;
    centring leaves margins that differ by at most one, the larger one on
    the left; any other format starts at column 0 with the first
    character. *)
Theorem matrix_draw_text_layout_fits (count format : Z) :
  0 <= count <= INT_MAX ->
  let column := fst (matrix_draw_text_layout count format) in
  let start_index := snd (matrix_draw_text_layout count format) in
  let shown := Z.min count MATRIX_MAX_CHRS in
  0 <= column
  /\ 0 <= start_index
  /\ start_index + shown <= count
  /\ column + shown * FONT_PITCH <= MATRIX_COLUMNS
  /\ (format = DT_ALIGN_RIGHT ->
      column + shown * FONT_PITCH = MATRIX_COLUMNS
      /\ start_index + shown = count)
  /\ (format = DT_ALIGN_CENTER ->
      0 <= column - (MATRIX_COLUMNS - shown * FONT_PITCH - column) <= 1
      /\ 0 <= (count - shown - start_index) - start_index <= 1)
  /\ (format <> DT_ALIGN_CENTER -> format <> DT_ALIGN_RIGHT ->
      column = 0 /\ start_index = 0).
Proof.
  intros H. unfold INT_MAX in H. cbv zeta.
  unfold matrix_draw_text_layout, MATRIX_MAX_CHRS, MATRIX_COLUMNS, FONT_PITCH,
    DT_ALIGN_CENTER, DT_ALIGN_RIGHT.
  change (120 / 5) with 24.
  destruct (Z.eqb_spec format 1) as [F1|F1];
    [|destruct (Z.eqb_spec format 2) as [F2|F2]];
    destruct (Z.leb_spec count 24) as [C|C]; cbn [fst snd];
    rewrite ?(to_int_small (count * 5)), ?(to_int_small (count - 24)) by lia;
    rewrite ?Z.quot_div_nonneg by lia;
    rewrite ?to_int_small by (Z.div_mod_to_equations; lia);
    repeat split; try (intros; Z.div_mod_to_equations; lia).
Qed.

Lemma matrix_draw_text_layout_fits_witness :
  fst (matrix_draw_text_layout 29 DT_ALIGN_RIGHT)
  + Z.min 29 MATRIX_MAX_CHRS * FONT_PITCH = MATRIX_COLUMNS
  /\ snd (matrix_draw_text_layout 29 DT_ALIGN_RIGHT)
     + Z.min 29 MATRIX_MAX_CHRS = 29.
Proof.
  assert (H : 0 <= 29 <= INT_MAX) by (unfold INT_MAX; lia).
  destruct (matrix_draw_text_layout_fits 29 DT_ALIGN_RIGHT H)
    as (_ & _ & _ & _ & R & _).
  exact (R eq_refl).
Defined.

Lemma draw_text_loop_pixels (font : font8x5_h) (text : list Z)
      (count style : Z) (fuel : nat) (i column : Z) (b : buffer) (x y : Z) :
  wf_buffer b = true ->
  0 <= x < MATRIX_COLUMNS -> 0 <= y < MATRIX_ROWS ->
  get_pixel (draw_text_loop font fuel text count style i column b) x y
  = (if (column <=? x)
        && ((x - column) / FONT_PITCH <? Z.of_nat fuel)
        && (i + (x - column) / FONT_PITCH <? count)
     then xorb (negb (style =? 0))
            (Z.testbit
               (Font8x5 font
                  (glyph_of font
                     (char_at text (i + (x - column) / FONT_PITCH)))
                  ((x - column) mod FONT_PITCH)) y)
     else get_pixel b x y)
  /\ wf_buffer (draw_text_loop font fuel text count style i column b) = true.
Proof.
  intros H Hx Hy. revert i column b H.
  induction fuel as [|fuel IH]; intros i column b H.
  - cbn [draw_text_loop]. split; [|exact H].
    change (Z.of_nat 0) with 0. unfold FONT_PITCH.
    destruct (Z.leb_spec column x); cbn [andb]; [|reflexivity].
    destruct (Z.ltb_spec ((x - column) / 5) 0); [|reflexivity].
    exfalso. Z.div_mod_to_equations. lia.
  - cbn [draw_text_loop].
    destruct (Z.ltb_spec i count) as [Hi|Hi]; cbn [andb].
    2:{ split; [|exact H]. unfold FONT_PITCH.
        destruct (Z.leb_spec column x); cbn [andb]; [|reflexivity].
        destruct (Z.ltb_spec (i + (x - column) / 5) count);
          [exfalso; Z.div_mod_to_equations; lia|].
        rewrite andb_false_r. reflexivity. }
    destruct (Z.ltb_spec column MATRIX_COLUMNS) as [Hc|Hc].
    2:{ split; [|exact H]. unfold MATRIX_COLUMNS in *.
        destruct (Z.leb_spec column x); [lia|reflexivity]. }
    destruct (IH (i + 1) (column + FONT_PITCH)
                 (matrix_draw_chr font column (char_at text i)
                    (negb (style =? 0)) b)
                 (matrix_draw_chr_wf _ _ _ _ _ H)) as [E W].
    split; [|exact W]. rewrite E. clear E W IH.
    rewrite draw_chr_get by assumption.
    unfold FONT_PITCH, MATRIX_COLUMNS in *.
    destruct (Z.leb_spec (column + 5) x) as [A|A]; cbn [andb].
    + (* right of the first glyph *)
      destruct (Z.leb_spec column x); [|lia]. cbn [andb].
      replace ((x - (column + 5)) / 5) with ((x - column) / 5 - 1)
        by (Z.div_mod_to_equations; lia).
      replace ((x - (column + 5)) mod 5) with ((x - column) mod 5)
        by (Z.div_mod_to_equations; lia).
      replace (i + 1 + ((x - column) / 5 - 1)) with (i + (x - column) / 5)
        by lia.
      destruct (Z.ltb_spec ((x - column) / 5 - 1) (Z.of_nat fuel));
        destruct (Z.ltb_spec ((x - column) / 5) (Z.of_nat (S fuel)));
        try lia; cbn [andb].
      * destruct (i + (x - column) / 5 <? count); [reflexivity|].
        destruct (Z.ltb_spec x (column + 5)); [lia|reflexivity].
      * destruct (Z.ltb_spec x (column + 5)); [lia|reflexivity].
    + (* in the first glyph, or left of it *)
      destruct (Z.leb_spec column x) as [B|B]; cbn [andb]; [|reflexivity].
      destruct (Z.ltb_spec x (column + 5)); [|lia].
      assert (Q : (x - column) / 5 = 0) by (Z.div_mod_to_equations; lia).
      assert (M : (x - column) mod 5 = x - column)
        by (Z.div_mod_to_equations; lia).
      rewrite Q, M, Z.add_0_r.
      destruct (Z.ltb_spec 0 (Z.of_nat (S fuel))); [|lia].
      destruct (Z.ltb_spec i count); [|lia]. reflexivity.
Qed.

(** X12. What [matrix_draw_text] leaves on the display: with [column] and
    first index as the layout gives them, the LED at ([x], [y]) shows the
    glyph bit of the character with index
    [first + (x - column) / FONT_PITCH] when [x] is not left of [column]
    and that index is below [count] (inverted for a style other than
    normal); every other LED is as before. *)
Theorem matrix_draw_text_pixels
  (font : font8x5_h) (text : list Z) (count format style : Z)
  (b : buffer) (x y : Z) :
  wf_buffer b = true ->
  0 <= count <= INT_MAX ->
  0 <= x < MATRIX_COLUMNS -> 0 <= y < MATRIX_ROWS ->
  let column := fst (matrix_draw_text_layout count format) in
  let index := snd (matrix_draw_text_layout count format)
               + (x - column) / FONT_PITCH in
  get_pixel (matrix_draw_text font text count format style b) x y
  = if (column <=? x) && (index <? count)
    then xorb (negb (style =? 0))
           (Z.testbit
              (Font8x5 font (glyph_of font (char_at text index))
                 ((x - column) mod FONT_PITCH)) y)
    else get_pixel b x y.
Proof.
  intros H Hcount Hx Hy. cbv zeta. unfold matrix_draw_text.
  destruct (text_layout_nonneg count format Hcount) as (Hc & Hs).
  destruct (matrix_draw_text_layout count format) as [column start].
  cbn [fst snd] in *.
  destruct (draw_text_loop_pixels font text count style
              (Z.to_nat (count - start)) start column b x y H Hx Hy)
    as [E _].
  rewrite E. clear E. unfold FONT_PITCH.
  destruct (Z.leb_spec column x); cbn [andb]; [|reflexivity].
  destruct (Z.ltb_spec (start + (x - column) / 5) count) as [A|A].
  - destruct (Z.ltb_spec ((x - column) / 5) (Z.of_nat (Z.to_nat (count - start))));
      [reflexivity|lia].
  - rewrite andb_false_r. reflexivity.
Qed.

Lemma matrix_draw_text_pixels_witness :
  get_pixel (matrix_draw_text test_font msg_HI 2 DT_ALIGN_LEFT 0 test_buffer)
    7 3
  = Z.testbit (Font8x5 test_font (glyph_of test_font 73) 2) 3.
Proof.
  apply (matrix_draw_text_pixels test_font msg_HI 2 DT_ALIGN_LEFT 0
           test_buffer 7 3).
  - reflexivity.
  - unfold INT_MAX. lia.
  - unfold MATRIX_COLUMNS. lia.
  - unfold MATRIX_ROWS. lia.
Defined.

Lemma matrix_draw_text_wf font text count format style b :
  wf_buffer b = true ->
  wf_buffer (matrix_draw_text font text count format style b) = true.
Proof.
  intros H. unfold matrix_draw_text.
  destruct (matrix_draw_text_layout count format) as [column start].
  apply (draw_text_loop_pixels font text count style _ start column b 0 0 H);
    unfold MATRIX_COLUMNS, MATRIX_ROWS; lia.
Qed.

(** ** The engine: what every call keeps, and single routines *)

Lemma keeps_refl e : keeps_message e e.
Proof. unfold keeps_message. auto 10. Qed.

Lemma keeps_buf e f x : keeps_message e x -> keeps_message e (buf f x).
Proof. intros H. exact H. Qed.

Lemma keeps_set_fetch e x :
  keeps_message e x -> keeps_message e (set_fetch_next_msg true x).
Proof. unfold keeps_message. cbn. intuition. Qed.

Lemma keeps_set_state e v x :
  keeps_message e x -> keeps_message e (ctx (set_state v) x).
Proof. intros H. exact H. Qed.

Lemma keeps_set_tmp_1 e v x :
  keeps_message e x -> keeps_message e (ctx (set_tmp_1 v) x).
Proof. intros H. exact H. Qed.

Lemma keeps_set_tmp_2 e v x :
  keeps_message e x -> keeps_message e (ctx (set_tmp_2 v) x).
Proof. intros H. exact H. Qed.

Lemma keeps_set_prev e v x :
  keeps_message e x -> keeps_message e (ctx (set_anim_prev_millis v) x).
Proof. intros H. exact H. Qed.

Lemma keeps_set_routine e v x :
  keeps_message e x -> keeps_message e (ctx (set_routine v) x).
Proof. intros H. exact H. Qed.

Lemma keeps_for_up e n (body : Z -> engine -> engine) x :
  (forall i y, keeps_message e y -> keeps_message e (body i y)) ->
  keeps_message e x -> keeps_message e (for_up n body x).
Proof. intros Hb Hx. apply (for_up_invariant (keeps_message e)); assumption. Qed.

Ltac keeps :=
  repeat (cbv zeta; cbn [outcome_engine];
          match goal with
          | H : keeps_message ?e ?x |- keeps_message ?e ?x => exact H
          | |- keeps_message ?e ?e => apply keeps_refl
          | |- keeps_message _ (buf _ _) => apply keeps_buf
          | |- keeps_message _ (set_fetch_next_msg true _) =>
              apply keeps_set_fetch
          | |- keeps_message _ (ctx (set_state _) _) => apply keeps_set_state
          | |- keeps_message _ (ctx (set_tmp_1 _) _) => apply keeps_set_tmp_1
          | |- keeps_message _ (ctx (set_tmp_2 _) _) => apply keeps_set_tmp_2
          | |- keeps_message _ (ctx (set_anim_prev_millis _) _) =>
              apply keeps_set_prev
          | |- keeps_message _ (ctx (set_routine _) _) =>
              apply keeps_set_routine
          | |- keeps_message _ (for_up _ _ _) =>
              apply keeps_for_up; [intros ? ? ?|]
          | |- keeps_message _ (outcome_engine (if ?c then _ else _)) =>
              destruct c
          | |- keeps_message _ (if ?c then _ else _) => destruct c
          end).

Section Keeps.
Variable font : font8x5_h.

Lemma keeps_routines (t : tick) (l : Z) (e : engine) :
  keeps_message e (outcome_engine (anim_smooth_scroll_clear font l e))
  /\ keeps_message e (outcome_engine (anim_smooth_scroll font l e))
  /\ keeps_message e (outcome_engine (anim_static_text font l e))
  /\ keeps_message e (outcome_engine (anim_blink font l e))
  /\ keeps_message e (outcome_engine (anim_invert font l e))
  /\ keeps_message e (outcome_engine (anim_scroll_rows font l e))
  /\ keeps_message e (outcome_engine (anim_block_scroll font l e))
  /\ keeps_message e (outcome_engine (anim_zap font l e))
  /\ keeps_message e (outcome_engine (anim_dissolve font t e))
  /\ keeps_message e (outcome_engine (anim_slide font l e))
  /\ keeps_message e (outcome_engine (anim_roll font l e))
  /\ keeps_message e (outcome_engine (anim_pacman l e))
  /\ keeps_message e (outcome_engine (anim_random t e)).
Proof.
  repeat match goal with |- _ /\ _ => split end.
  - unfold anim_smooth_scroll_clear, anim_smooth_scroll. keeps.
  - unfold anim_smooth_scroll. keeps.
  - unfold anim_static_text. keeps.
  - unfold anim_blink. keeps.
  - unfold anim_invert. keeps.
  - unfold anim_scroll_rows. keeps.
  - unfold anim_block_scroll. keeps.
  - unfold anim_zap. keeps.
  - unfold anim_dissolve. keeps.
  - unfold anim_slide. keeps.
  - unfold anim_roll. keeps.
  - unfold anim_pacman. keeps.
  - unfold anim_random. keeps.
Qed.

End Keeps.

(** X13. Whatever the routine, the state and the clock, a call of
    [do_animation] leaves the message, its length, the animation speed, the
    pause interval and the pause timestamp as they were, and never lowers a
    raised completion flag. *)
Theorem do_animation_keeps_message (font : font8x5_h) (t : tick) (e : engine) :
  msg_ptr (msg_context (do_animation font t e)) = msg_ptr (msg_context e)
  /\ msg_length (msg_context (do_animation font t e))
     = msg_length (msg_context e)
  /\ animation_speed (msg_context (do_animation font t e))
     = animation_speed (msg_context e)
  /\ interval (msg_context (do_animation font t e))
     = interval (msg_context e)
  /\ delay_prev_millis (msg_context (do_animation font t e))
     = delay_prev_millis (msg_context e)
  /\ (fetch_next_msg e = true ->
      fetch_next_msg (do_animation font t e) = true).
Proof.
  change (keeps_message e (do_animation font t e)).
  destruct (keeps_routines font t (to_ulong (now t)) e)
    as (K0 & K1 & K2 & K5 & K8 & K11 & K13 & K14 & K15 & K16 & K17 & K19 & K20).
  unfold do_animation. cbv zeta.
  repeat match goal with
         | |- keeps_message _ (match (if ?c then _ else _) with _ => _ end) =>
             destruct c
         end;
    cbv beta iota;
    try match goal with
        | |- keeps_message _ (match ?o with _ => _ end) =>
            let E := fresh "E" in
            destruct o eqn:E; rewrite ?E in *; cbn [outcome_engine] in *
        end;
    keeps.
Qed.

(** X14. A routine number above 20 has no case in the [switch]: the call
    raises the completion flag and changes nothing else. *)
Theorem do_animation_unhandled (font : font8x5_h) (t : tick) (e : engine) :
  20 < routine (msg_context e) ->
  do_animation font t e = set_fetch_next_msg true e.
Proof.
  intros H. unfold do_animation. cbv zeta.
  repeat match goal with
         | |- context [?a =? ?b] =>
             destruct (Z.eqb_spec a b); [lia|]
         | |- context [(?a <=? ?b) && (?c <=? ?d)] =>
             destruct (Z.leb_spec c d); [lia|]; rewrite andb_false_r
         end.
  reflexivity.
Qed.

Section Dispatch.
Variable font : font8x5_h.

Lemma do_animation_static (t : tick) (e : engine) :
  2 <= routine (msg_context e) <= 4 ->
  do_animation font t e
  = pause_check t (outcome_engine (anim_static_text font (to_ulong (now t)) e)).
Proof.
  intros H. unfold do_animation. cbv zeta.
  assert (E : routine (msg_context e) = 2 \/ routine (msg_context e) = 3
              \/ routine (msg_context e) = 4) by lia.
  destruct E as [E|[E|E]]; rewrite E; cbn [Z.eqb Z.leb Z.compare Pos.compare Pos.compare_cont andb];
    unfold anim_static_text; destruct (_ =? 0); reflexivity.
Qed.

(** X15. Static text (routines 2 to 4) is drawn once: once the animation
    timestamp is not 0 a call changes neither the display nor the context,
    and the completion flag afterwards is the old flag or-ed with "the pause
    interval has passed". *)
Theorem static_text_holds (t : tick) (e : engine) :
  2 <= routine (msg_context e) <= 4 ->
  anim_prev_millis (msg_context e) <> 0 ->
  display_buffer (do_animation font t e) = display_buffer e
  /\ msg_context (do_animation font t e) = msg_context e
  /\ fetch_next_msg (do_animation font t e)
     = fetch_next_msg e
       || elapsed_gt (to_ulong (now_tail t))
                     (delay_prev_millis (msg_context e))
                     (interval (msg_context e)).
Proof.
  intros Hr Hp. rewrite do_animation_static by exact Hr.
  unfold anim_static_text. apply Z.eqb_neq in Hp. rewrite Hp.
  cbn [outcome_engine]. unfold pause_check.
  destruct (elapsed_gt _ _ _); cbn [set_fetch_next_msg display_buffer
                                     msg_context fetch_next_msg].
  - rewrite orb_true_r. auto.
  - rewrite orb_false_r. auto.
Qed.

(** What the first call of a static-text routine draws. *)
Lemma static_text_first (t : tick) (e : engine) :
  2 <= routine (msg_context e) <= 4 ->
  anim_prev_millis (msg_context e) = 0 ->
  display_buffer (do_animation font t e)
  = matrix_draw_text font (msg_ptr (msg_context e))
      (to_int (msg_length (msg_context e)))
      (to_int (to_uint (routine (msg_context e) - 2))) DT_STYLE_NORMAL
      (if msg_length (msg_context e) <? MATRIX_MAX_CHRS
       then matrix_fill_buffer 0 (display_buffer e) else display_buffer e)
  /\ anim_prev_millis (msg_context (do_animation font t e)) = 1.
Proof.
  intros Hr Hp. rewrite do_animation_static by exact Hr.
  unfold anim_static_text. rewrite Hp. change (0 =? 0) with true. cbv iota zeta.
  cbn [outcome_engine]. unfold pause_check.
  destruct (msg_length (msg_context e) <? MATRIX_MAX_CHRS);
    destruct (elapsed_gt _ _ _); fields; rewrite Hp; split; reflexivity.
Qed.

Lemma do_animation_dissolve (t : tick) (e : engine) :
  routine (msg_context e) = 15 ->
  do_animation font t e
  = match anim_dissolve font t e with
    | Return e' => e'
    | Break e' => pause_check t e'
    end.
Proof. intros H. unfold do_animation. rewrite H. reflexivity. Qed.

(** X16. While the dissolve (routine 15) has made fewer than 6000 draws, a
    call puts out the LED at ([rand_a mod 120], [rand_b mod 8]), leaves
    every other LED as it was, counts the draw in [state], and leaves the
    completion flag alone. *)
Theorem dissolve_tick (t : tick) (e : engine) (x y : Z) :
  routine (msg_context e) = 15 ->
  state (msg_context e) < 6000 ->
  wf_buffer (display_buffer e) = true ->
  0 <= rand_a t -> 0 <= rand_b t ->
  0 <= x < MATRIX_COLUMNS -> 0 <= y < MATRIX_ROWS ->
  get_pixel (display_buffer (do_animation font t e)) x y
  = (if (x =? rand_a t mod MATRIX_COLUMNS) && (y =? rand_b t mod MATRIX_ROWS)
     then false else get_pixel (display_buffer e) x y)
  /\ state (msg_context (do_animation font t e))
     = to_int (state (msg_context e) + 1)
  /\ fetch_next_msg (do_animation font t e) = fetch_next_msg e.
Proof.
  intros Hr Hs Hw Ha Hb Hx Hy. rewrite do_animation_dissolve by exact Hr.
  unfold anim_dissolve.
  destruct (Z.ltb_spec (state (msg_context e)) 6000); [|lia].
  cbv zeta. cbn [buf ctx display_buffer msg_context fetch_next_msg set_state state].
  split; [|split; reflexivity].
  rewrite draw_pixel_get by assumption.
  unfold random_below, MATRIX_COLUMNS, MATRIX_ROWS.
  change (120 =? 0) with false. change (8 =? 0) with false. cbv iota.
  rewrite !Z.rem_mod_nonneg by lia. reflexivity.
Qed.

Lemma do_animation_random (t : tick) (e : engine) :
  routine (msg_context e) = 20 ->
  do_animation font t e = pause_check t (outcome_engine (anim_random t e)).
Proof.
  intros H. unfold do_animation. rewrite H. cbv zeta.
  cbn [Z.eqb Z.leb Z.compare Pos.compare Pos.compare_cont andb].
  unfold anim_random. destruct (_ <=? _); reflexivity.
Qed.

(** X17. Routine 20 always hands over: after the call the routine is a
    number from 0 to 19, namely 0 for a message longer than 24 characters
    and the drawn number otherwise; the display is not touched. *)
Theorem random_picks_routine (t : tick) (e : engine) :
  routine (msg_context e) = 20 ->
  0 <= rand_a t ->
  0 <= routine (msg_context (do_animation font t e)) < 20
  /\ (MATRIX_MAX_CHRS < msg_length (msg_context e) ->
      routine (msg_context (do_animation font t e)) = 0)
  /\ (msg_length (msg_context e) <= MATRIX_MAX_CHRS ->
      routine (msg_context (do_animation font t e)) = rand_a t mod 20)
  /\ display_buffer (do_animation font t e) = display_buffer e.
Proof.
  intros Hr Ha. rewrite do_animation_random by exact Hr.
  unfold anim_random, pause_check.
  assert (Hm : 0 <= rand_a t mod 20 < 20) by (apply Z.mod_pos_bound; lia).
  assert (E : to_uint (random_below (rand_a t) (20 - 0) + 0) = rand_a t mod 20).
  { unfold random_below. change (20 - 0 =? 0) with false. cbv iota.
    change (20 - 0) with 20.
    rewrite Z.rem_mod_nonneg, Z.add_0_r by lia. apply to_uint_small. lia. }
  destruct (Z.leb_spec (msg_length (msg_context e)) MATRIX_MAX_CHRS) as [L|L];
    cbn [outcome_engine];
    destruct (elapsed_gt _ _ _);
    cbn [set_fetch_next_msg ctx set_routine msg_context routine display_buffer];
    rewrite ?E; repeat split; try lia; try reflexivity.
Qed.

End Dispatch.

Lemma do_animation_unhandled_witness :
  do_animation test_font (Build_tick 2000 2000 0 0)
    (ctx (set_routine 21) used_engine)
  = set_fetch_next_msg true (ctx (set_routine 21) used_engine).
Proof.
  apply (do_animation_unhandled test_font (Build_tick 2000 2000 0 0)
           (ctx (set_routine 21) used_engine)).
  vm_compute. reflexivity.
Defined.

Lemma static_text_holds_witness :
  display_buffer
    (do_animation test_font (Build_tick 60000 60000 0 0)
       (ctx (set_routine 3) used_engine))
  = test_buffer
  /\ msg_context
       (do_animation test_font (Build_tick 60000 60000 0 0)
          (ctx (set_routine 3) used_engine))
     = msg_context (ctx (set_routine 3) used_engine)
  /\ fetch_next_msg
       (do_animation test_font (Build_tick 60000 60000 0 0)
          (ctx (set_routine 3) used_engine))
     = true.
Proof.
  apply (static_text_holds test_font (Build_tick 60000 60000 0 0)
           (ctx (set_routine 3) used_engine)).
  - vm_compute. split; discriminate.
  - vm_compute. discriminate.
Defined.

Lemma dissolve_tick_witness :
  get_pixel
    (display_buffer
       (do_animation test_font (Build_tick 52000 52000 130 11)
          (ctx (set_routine 15) used_engine))) 10 3
  = false
  /\ state (msg_context
              (do_animation test_font (Build_tick 52000 52000 130 11)
                 (ctx (set_routine 15) used_engine)))
     = 4
  /\ fetch_next_msg
       (do_animation test_font (Build_tick 52000 52000 130 11)
          (ctx (set_routine 15) used_engine))
     = true.
Proof.
  apply (dissolve_tick test_font (Build_tick 52000 52000 130 11)
           (ctx (set_routine 15) used_engine) 10 3).
  - reflexivity.
  - vm_compute. reflexivity.
  - reflexivity.
  - vm_compute. discriminate.
  - vm_compute. discriminate.
  - unfold MATRIX_COLUMNS. lia.
  - unfold MATRIX_ROWS. lia.
Defined.

Lemma random_picks_routine_witness :
  routine (msg_context
             (do_animation test_font (Build_tick 52000 52000 47 0)
                (ctx (set_routine 20) used_engine)))
  = 7.
Proof.
  assert (H : msg_length (msg_context (ctx (set_routine 20) used_engine))
              <= MATRIX_MAX_CHRS) by (vm_compute; discriminate).
  apply (proj1 (proj2 (proj2
           (random_picks_routine test_font (Build_tick 52000 52000 47 0)
              (ctx (set_routine 20) used_engine) eq_refl
              ltac:(vm_compute; discriminate)))) H).
Defined.

(** ** Smooth scroll and rolling text along a run *)

Lemma buffer_ext b1 b2 :
  wf_buffer b1 = true -> wf_buffer b2 = true ->
  (forall x y, 0 <= x < MATRIX_COLUMNS -> 0 <= y < MATRIX_ROWS ->
               get_pixel b1 x y = get_pixel b2 x y) ->
  b1 = b2.
Proof.
  intros H1 H2 H.
  pose proof (wf_buffer_inv b1 H1) as [L1 _].
  pose proof (wf_buffer_inv b2 H2) as [L2 _].
  apply (nth_ext b1 b2 [] []); [congruence|].
  intros r Hr. rewrite L1 in Hr.
  apply row_ext; [apply wf_buffer_row; assumption
                 | apply wf_buffer_row; assumption |].
  intros c Hc. rewrite <- !get_pixel_row_bit.
  apply H; unfold MATRIX_COLUMNS, MATRIX_ROWS; lia.
Qed.

Lemma blank_buffer_wf : wf_buffer blank_buffer = true.
Proof. reflexivity. Qed.

Lemma get_pixel_blank x y :
  0 <= y < MATRIX_ROWS -> get_pixel blank_buffer x y = false.
Proof.
  intros Hy. unfold MATRIX_ROWS in Hy.
  unfold get_pixel, buf_read, blank_buffer.
  change (Z.to_nat MATRIX_ROWS) with 8%nat.
  rewrite nth_repeat_lt by lia. fold blank_row.
  rewrite nth_blank_row. apply Z.bits_0.
Qed.

Lemma dark_blank b :
  wf_buffer b = true -> dark_from 0 b -> b = blank_buffer.
Proof.
  intros H D. apply buffer_ext; [exact H | apply blank_buffer_wf |].
  intros x y Hx Hy. rewrite get_pixel_blank by exact Hy.
  apply D; try assumption. lia.
Qed.

Lemma dark_shift_left c0 b :
  wf_buffer b = true -> dark_from c0 b ->
  dark_from (c0 - 1) (matrix_shift_buffer DIRECTION_LEFT b).
Proof.
  intros H D x y Hx Hy Hc.
  destruct (shift_horizontal_pixels b x y H Hx Hy) as [E _]. rewrite E.
  unfold MATRIX_COLUMNS in *.
  destruct (Z.eqb_spec x (120 - 1)); [reflexivity|].
  apply D; unfold MATRIX_COLUMNS; try assumption; lia.
Qed.

Lemma dark_fill b c0 :
  wf_buffer b = true -> dark_from c0 (matrix_fill_buffer 0 b).
Proof.
  intros H x y Hx Hy _. rewrite matrix_fill_buffer_clears by exact H.
  apply get_pixel_blank, Hy.
Qed.

Lemma matrix_shiftin_chr_wf font c bit_index dir b :
  wf_buffer b = true ->
  wf_buffer (matrix_shiftin_chr font c bit_index dir b) = true.
Proof.
  intros H. unfold matrix_shiftin_chr.
  destruct (_ || _); [exact H|]. cbv zeta.
  change MATRIX_ROWS with (Z.of_nat 8).
  apply (column_loop_pixels 8 _ (fun row => bitRead (Font8x5 font (glyph_of font c) bit_index) row)
           (matrix_shift_buffer dir b) 0 0);
    [apply matrix_shift_buffer_wf, H | |]; unfold MATRIX_COLUMNS, MATRIX_ROWS; lia.
Qed.

Section ScrollBuffer.
Variable font : font8x5_h.

(** What one call in routine 0 does to the buffer. *)
Lemma scroll_buffer (t : tick) (e : engine) :
  routine (msg_context e) = 0 ->
  display_buffer (do_animation font t e)
  = if anim_prev_millis (msg_context e) =? 0
    then matrix_fill_buffer 0 (display_buffer e)
    else if scroll_due t e
         then if uint_le (state (msg_context e)) (msg_length (msg_context e) - 1)
              then matrix_shiftin_chr font
                     (char_at (msg_ptr (msg_context e)) (state (msg_context e)))
                     (tmp_1 (msg_context e)) DIRECTION_LEFT (display_buffer e)
              else matrix_shift_buffer DIRECTION_LEFT (display_buffer e)
         else display_buffer e.
Proof.
  intros Hr. open_engine e. subst rt. run_scroll.
  destruct (pv =? 0) eqn:Hpv; fields.
  - rewrite Hpv. fields. reflexivity.
  - rewrite Hpv. fields.
    destruct (elapsed_gt _ _ _); fields; [|reflexivity].
    destruct (uint_le st (ml - 1)); fields.
    + destruct (to_int (t1 + 1) =? FONT_PITCH); reflexivity.
    + destruct (uint_ge _ _); reflexivity.
Qed.

Lemma scroll_buffer_wf (t : tick) (e : engine) :
  routine (msg_context e) = 0 ->
  wf_buffer (display_buffer e) = true ->
  wf_buffer (display_buffer (do_animation font t e)) = true.
Proof.
  intros Hr H. rewrite scroll_buffer by exact Hr.
  destruct (_ =? 0); [apply matrix_fill_buffer_wf, H|].
  destruct (scroll_due t e); [|exact H].
  destruct (uint_le _ _);
    [apply matrix_shiftin_chr_wf, H | apply matrix_shift_buffer_wf, H].
Qed.

End ScrollBuffer.

Section ScrollEnds.
Variable font : font8x5_h.

(** The trailing shifts darken the display from the right. *)
Lemma scroll_dark_step (L : Z) (t : tick) (e : engine) (k m : Z) :
  1 <= L -> L + MATRIX_COLUMNS + 1 <= INT_MAX ->
  scroll_inv L e k m ->
  wf_buffer (display_buffer e) = true ->
  (forall j, 0 <= j <= MATRIX_COLUMNS + 1 -> k = L * FONT_PITCH + j ->
             dark_from (MATRIX_COLUMNS - j) (display_buffer e)) ->
  forall j, 0 <= j <= MATRIX_COLUMNS + 1 ->
            k + (if scroll_due t e then 1 else 0) = L * FONT_PITCH + j ->
            dark_from (MATRIX_COLUMNS - j)
                      (display_buffer (do_animation font t e)).
Proof.
  intros HL Hmax (Hr & Hlen & Hph) Hw Hd j Hj Hk.
  rewrite scroll_buffer by exact Hr.
  unfold INT_MAX, MATRIX_COLUMNS, FONT_PITCH in *.
  destruct (Z.eqb_spec (anim_prev_millis (msg_context e)) 0) as [P0|P0].
  { apply dark_fill, Hw. }
  inversion Hph as [Hp Hs Hf | s j0 Hp Hs Ht Hsr Hjr Hf | j0 Hp Hs Hjr Hf
                   | k' m' Hk' Hf Hm]; subst k; try subst m.
  - contradiction.
  - (* entry phase: the count reaches L*FONT_PITCH at most *)
    unfold FONT_PITCH in *.
    assert (j = 0) by (destruct (scroll_due t e); lia). subst j.
    intros x y Hx Hy Hc. unfold MATRIX_COLUMNS in *. lia.
  - (* trailing phase *)
    unfold FONT_PITCH, MATRIX_COLUMNS in *.
    assert (Hle : uint_le (state (msg_context e))
                          (msg_length (msg_context e) - 1) = false).
    { rewrite Hs, Hlen. unfold uint_le.
      rewrite !to_uint_small by lia. apply Z.leb_gt. lia. }
    rewrite Hle.
    destruct (scroll_due t e).
    + replace (120 - j) with (120 - j0 - 1) by lia.
      apply dark_shift_left; [exact Hw|]. apply Hd; lia.
    + apply Hd; lia.
  - (* completed *)
    unfold FONT_PITCH, MATRIX_COLUMNS in *.
    destruct (scroll_due t e); [lia|]. apply Hd; lia.
Qed.

Lemma scroll_dark_run (L : Z) (ticks : list tick) (e : engine) (k m : Z) :
  1 <= L -> L + MATRIX_COLUMNS + 1 <= INT_MAX ->
  Forall (fun t => to_ulong (now t) <> 0) ticks ->
  scroll_inv L e k m ->
  wf_buffer (display_buffer e) = true ->
  (forall j, 0 <= j <= MATRIX_COLUMNS + 1 -> k = L * FONT_PITCH + j ->
             dark_from (MATRIX_COLUMNS - j) (display_buffer e)) ->
  wf_buffer (display_buffer (run font ticks e)) = true
  /\ forall j, 0 <= j <= MATRIX_COLUMNS + 1 ->
               k + scroll_steps font ticks e = L * FONT_PITCH + j ->
               dark_from (MATRIX_COLUMNS - j)
                         (display_buffer (run font ticks e)).
Proof.
  intros HL Hmax Hticks. revert e k m.
  induction Hticks as [|t ticks Ht _ IH]; intros e k m Hinv Hw Hd.
  - cbn [run fold_left scroll_steps]. split; [exact Hw|].
    intros j Hj Hk. apply Hd; [exact Hj|lia].
  - cbn [scroll_steps]. rewrite Z.add_assoc.
    change (run font (t :: ticks) e) with (run font ticks (do_animation font t e)).
    apply (IH (do_animation font t e) _
              (m + (if scroll_shiftin_due t e then 1 else 0))).
    + apply scroll_step; assumption.
    + apply scroll_buffer_wf; [apply Hinv | exact Hw].
    + apply (scroll_dark_step L t e k m); assumption.
Qed.

(** X18. The smooth scroll ends on a blank display: for a message of
    [L >= 1] characters, once the animation has made [L * FONT_PITCH + 120]
    steps (and up to the step after, which signals completion) every byte
    of the buffer is 0, whatever was on the display before the message was
    started. *)
Theorem smooth_scroll_ends_blank
  (speed pause now0 : Z) (msg : list Z) (e0 : engine) (ticks : list tick) :
  1 <= strlen msg ->
  strlen msg + MATRIX_COLUMNS + 1 <= INT_MAX ->
  wf_buffer (display_buffer e0) = true ->
  clock_never_zero ticks = true ->
  strlen msg * FONT_PITCH + MATRIX_COLUMNS
  <= scroll_steps font ticks (start_animation 0 speed pause msg now0 e0)
  <= strlen msg * FONT_PITCH + MATRIX_COLUMNS + 1 ->
  display_buffer
    (run font ticks (start_animation 0 speed pause msg now0 e0))
  = blank_buffer.
Proof.
  intros HL Hmax Hw Hclk Hk.
  assert (Hw' : wf_buffer
                  (display_buffer (start_animation 0 speed pause msg now0 e0))
                = true) by (rewrite start_animation_buffer; exact Hw).
  assert (Hd : forall j, 0 <= j <= MATRIX_COLUMNS + 1 ->
                 0 = strlen msg * FONT_PITCH + j ->
                 dark_from (MATRIX_COLUMNS - j)
                   (display_buffer
                      (start_animation 0 speed pause msg now0 e0)))
    by (intros j Hj Hk0; unfold FONT_PITCH in Hk0; lia).
  destruct (scroll_dark_run (strlen msg) ticks
              (start_animation 0 speed pause msg now0 e0) 0 0 HL Hmax
              (clock_never_zero_Forall ticks Hclk)
              (start_animation_scroll_inv speed pause now0 msg e0 HL Hmax)
              Hw' Hd)
    as [W D].
  apply dark_blank; [exact W|]. clear Hd Hw'.
  rewrite Z.add_0_l in D.
  set (k := scroll_steps font ticks _) in *.
  unfold MATRIX_COLUMNS in *.
  destruct (Z.eq_dec k (strlen msg * FONT_PITCH + 120)) as [E|E].
  - replace 0 with (120 - 120) by reflexivity.
    apply (D 120); [lia|]. exact E.
  - intros x y Hx Hy Hc.
    apply (D 121); try assumption; lia.
Qed.

End ScrollEnds.

Section Rolling.
Variable font : font8x5_h.

Lemma do_animation_roll (t : tick) (e : engine) :
  17 <= routine (msg_context e) <= 18 ->
  do_animation font t e
  = match anim_roll font (to_ulong (now t)) e with
    | Return e' => e'
    | Break e' => pause_check t e'
    end.
Proof.
  intros H. unfold do_animation. cbv zeta.
  assert (E : routine (msg_context e) = 17 \/ routine (msg_context e) = 18)
    by lia.
  destruct E as [E|E]; rewrite E; reflexivity.
Qed.

Lemma roll_step (r : Z) (b0 : buffer) (t : tick) (e : engine) (k : Z) :
  17 <= r <= 18 ->
  to_ulong (now t) <> 0 ->
  roll_inv r b0 e k ->
  roll_inv r b0 (do_animation font t e)
           (k + (if roll_due t e then 1 else 0)).
Proof.
  intros Hr Hnow (Hrt & Hp & Hk & Hb & H1 & H2).
  rewrite do_animation_roll by (rewrite Hrt; exact Hr).
  unfold roll_inv, roll_due, anim_roll, pause_check, MATRIX_COLUMNS in *.
  open_engine e. subst rt.
  assert (Hpv : (pv =? 0) = false) by (apply Z.eqb_neq, Hp).
  rewrite Hpv. cbn [negb andb]. fields.
  destruct (Z.eq_dec k 120) as [K|K].
  - (* the revolution is complete *)
    specialize (H2 K). subst st k.
    change (2 =? 0) with false. change (2 =? 1) with false.
    cbn [andb]. fields. change (2 <? 2) with false. cbv iota.
    destruct (elapsed_gt _ _ _); fields; rewrite Z.add_0_r; auto 10.
  - destruct H1 as [Hs Ht]; [lia|]. subst st t1.
    change (1 =? 0) with false. change (1 =? 1) with true. cbn [andb].
    destruct (elapsed_gt (to_ulong (now t)) pv 90); fields.
    + (* one rotation *)
      rewrite to_int_small by lia. fold (roll_dir r).
      destruct (Z.eqb_spec (k + 1) 120) as [E|E]; fields.
      * change (to_int (1 + 1) <? 2) with false. cbv iota.
        assert (Hbuf : matrix_rotate_buffer (roll_dir r) b
                       = Nat.iter (Z.to_nat (k + 1))
                           (matrix_rotate_buffer (roll_dir r)) b0).
        { rewrite Z2Nat.inj_add, Nat.add_comm by lia.
          change (Z.to_nat 1) with 1%nat. cbn [Nat.add].
          rewrite Nat.iter_succ, <- Hb. reflexivity. }
        destruct (elapsed_gt _ _ _); fields;
          (split; [reflexivity|]); (split; [exact Hnow|]);
          (split; [lia|]); (split; [exact Hbuf|]);
          split; intros; try lia; reflexivity.
      * change (1 <? 2) with true. cbv iota. fields.
        split; [reflexivity|]. split; [exact Hnow|]. split; [lia|].
        split.
        { rewrite Z2Nat.inj_add, Nat.add_comm by lia.
          change (Z.to_nat 1) with 1%nat. cbn [Nat.add].
          rewrite Nat.iter_succ, <- Hb. reflexivity. }
        split; intros; [split; reflexivity | lia].
    + change (1 <? 2) with true. cbv iota. fields. rewrite Z.add_0_r.
      split; [reflexivity|]. split; [exact Hp|]. split; [lia|].
      split; [exact Hb|]. split; intros; [split; reflexivity | lia].
Qed.

Lemma roll_run (r : Z) (b0 : buffer) (ticks : list tick) (e : engine) (k : Z) :
  17 <= r <= 18 ->
  Forall (fun t => to_ulong (now t) <> 0) ticks ->
  roll_inv r b0 e k ->
  roll_inv r b0 (run font ticks e) (k + roll_steps font ticks e).
Proof.
  intros Hr Hticks. revert e k.
  induction Hticks as [|t ticks Ht _ IH]; intros e k Hinv.
  - cbn [run fold_left roll_steps]. rewrite Z.add_0_r. exact Hinv.
  - cbn [roll_steps]. rewrite Z.add_assoc.
    apply (IH (do_animation font t e)). apply roll_step; assumption.
Qed.

Lemma rotate_right_period b :
  wf_buffer b = true ->
  Nat.iter 120 (matrix_rotate_buffer DIRECTION_RIGHT) b = b.
Proof.
  intros H.
  destruct (iter_map_rows rotr_row (matrix_rotate_buffer DIRECTION_RIGHT)
              120 b rotr_row_wf rotr_row_as_cells H) as [E _].
  rewrite E. apply map_rows_id; [exact H|].
  intros row Hrow. apply rotr_row_period, Hrow.
Qed.

(** X19. Rolling text (routines 17 and 18) makes one revolution and no
    more: from its rolling state the buffer is the start picture rotated
    once per step, left for routine 17 and right for routine 18; there are
    never more than 120 steps, and at 120 the start picture is back and the
    routine has moved on to its final state. *)
Theorem rolling_text_revolution (ticks : list tick) (e : engine) :
  17 <= routine (msg_context e) <= 18 ->
  anim_prev_millis (msg_context e) <> 0 ->
  state (msg_context e) = 1 ->
  tmp_1 (msg_context e) = 0 ->
  wf_buffer (display_buffer e) = true ->
  clock_never_zero ticks = true ->
  roll_steps font ticks e <= MATRIX_COLUMNS
  /\ display_buffer (run font ticks e)
     = Nat.iter (Z.to_nat (roll_steps font ticks e))
         (matrix_rotate_buffer (roll_dir (routine (msg_context e))))
         (display_buffer e)
  /\ (roll_steps font ticks e = MATRIX_COLUMNS ->
      display_buffer (run font ticks e) = display_buffer e
      /\ state (msg_context (run font ticks e)) = 2).
Proof.
  intros Hr Hp Hs Ht Hw Hclk.
  assert (H0 : roll_inv (routine (msg_context e)) (display_buffer e) e 0).
  { unfold roll_inv, MATRIX_COLUMNS. repeat split; auto; lia. }
  pose proof (roll_run _ _ ticks e 0 Hr (clock_never_zero_Forall _ Hclk) H0)
    as (_ & _ & Hk & Hb & _ & H2).
  rewrite Z.add_0_l in *. split; [lia|]. split; [exact Hb|].
  intros K. split; [|apply H2, K].
  rewrite Hb, K. change (Z.to_nat MATRIX_COLUMNS) with 120%nat.
  unfold roll_dir. destruct (_ =? 17).
  - apply rotate_left_period, Hw.
  - apply rotate_right_period, Hw.
Qed.

End Rolling.

Lemma smooth_scroll_ends_blank_witness :
  display_buffer
    (run test_font (clock_ticks 2000 100 126)
       (start_animation 0 5 20 msg_A 1000 used_engine))
  = blank_buffer.
Proof.
  apply (smooth_scroll_ends_blank test_font 5 20 1000 msg_A used_engine
           (clock_ticks 2000 100 126)).
  - vm_compute. discriminate.
  - vm_compute. discriminate.
  - reflexivity.
  - vm_compute. reflexivity.
  - vm_compute. split; discriminate.
Defined.

Lemma rolling_text_revolution_witness :
  roll_steps test_font (clock_ticks 52000 100 4) rolling_engine
  <= MATRIX_COLUMNS
  /\ display_buffer (run test_font (clock_ticks 52000 100 4) rolling_engine)
     = Nat.iter
         (Z.to_nat
            (roll_steps test_font (clock_ticks 52000 100 4) rolling_engine))
         (matrix_rotate_buffer
            (roll_dir (routine (msg_context rolling_engine))))
         (display_buffer rolling_engine)
  /\ (roll_steps test_font (clock_ticks 52000 100 4) rolling_engine
      = MATRIX_COLUMNS ->
      display_buffer (run test_font (clock_ticks 52000 100 4) rolling_engine)
      = display_buffer rolling_engine
      /\ state (msg_context
                  (run test_font (clock_ticks 52000 100 4) rolling_engine))
         = 2).
Proof.
  apply (rolling_text_revolution test_font (clock_ticks 52000 100 4)
           rolling_engine).
  - vm_compute. split; discriminate.
  - vm_compute. discriminate.
  - reflexivity.
  - reflexivity.
  - reflexivity.
  - vm_compute. reflexivity.
Defined.

(** ** Strings in place *)

Lemma strlen_app (a t : list Z) :
  forallb nonzero a = true -> strlen (a ++ 0 :: t) = Z.of_nat (length a).
Proof.
  induction a as [|x a IH]; intros H; cbn [strlen app forallb length] in *.
  - reflexivity.
  - apply andb_true_iff in H. destruct H as [Hx Ha].
    unfold nonzero in Hx. apply negb_true_iff in Hx. rewrite Hx.
    rewrite IH by exact Ha. lia.
Qed.

Lemma c_string_app (a t : list Z) :
  forallb nonzero a = true -> c_string (a ++ 0 :: t) = a.
Proof.
  intros H. unfold c_string. rewrite strlen_app by exact H.
  rewrite Nat2Z.id, firstn_app, firstn_all, Nat.sub_diag. cbn [firstn].
  apply app_nil_r.
Qed.

Lemma poke_app (a : list Z) (x v : Z) (t : list Z) :
  poke (length a) v (a ++ x :: t) = a ++ v :: t.
Proof.
  unfold poke. induction a as [|y a IH]; cbn [length app upd]; [reflexivity|].
  rewrite IH. reflexivity.
Qed.

Lemma nth_app_at (a : list Z) (x : Z) (t : list Z) :
  nth (length a) (a ++ x :: t) 0 = x.
Proof. rewrite app_nth2, Nat.sub_diag by lia. reflexivity. Qed.

Lemma poke_length i v s : length (poke i v s) = length s.
Proof. apply upd_length. Qed.

(** ** remove_spaces *)

Lemma remove_spaces_loop_spec (rem out junk tail : list Z) (fuel : nat) :
  forallb nonzero rem = true ->
  (length rem < fuel)%nat ->
  exists rest,
    remove_spaces_loop fuel (length out) (length (out ++ junk))
      (out ++ junk ++ rem ++ 0 :: tail)
    = (out ++ filter not_space rem) ++ 0 :: rest
    /\ length ((out ++ filter not_space rem) ++ 0 :: rest)
       = length (out ++ junk ++ rem ++ 0 :: tail)
    /\ exists pre,
         (out ++ filter not_space rem) ++ 0 :: rest = pre ++ 0 :: tail
         /\ length pre = length (out ++ junk ++ rem).
Proof.
  revert out junk fuel.
  induction rem as [|c rem IH]; intros out junk fuel Hnz Hfuel;
    (destruct fuel as [|fuel]; [cbn [length] in Hfuel; lia|]);
    cbn [remove_spaces_loop].
  - (* the terminator *)
    cbn [app filter]. rewrite app_nil_r.
    replace (out ++ junk ++ 0 :: tail) with ((out ++ junk) ++ 0 :: tail)
      by (rewrite <- app_assoc; reflexivity).
    rewrite nth_app_at. cbn [Z.eqb]. rewrite <- app_assoc.
    destruct junk as [|x junk]; cbn [app].
    + rewrite poke_app. exists tail. split; [reflexivity|].
      split; [reflexivity|]. exists out. rewrite !app_nil_r. auto.
    + rewrite poke_app. exists (junk ++ 0 :: tail).
      split; [reflexivity|]. split; [rewrite !length_app; reflexivity|].
      exists (out ++ 0 :: junk). split.
      * rewrite <- app_assoc. reflexivity.
      * rewrite !length_app, app_nil_r. cbn [length]. reflexivity.
  - cbn [forallb] in Hnz. apply andb_true_iff in Hnz. destruct Hnz as [Hc Hnz].
    assert (Hread : nth (length (out ++ junk))
                        (out ++ junk ++ (c :: rem) ++ 0 :: tail) 0 = c).
    { replace (out ++ junk ++ (c :: rem) ++ 0 :: tail)
        with ((out ++ junk) ++ c :: rem ++ 0 :: tail)
        by (rewrite <- app_assoc; reflexivity).
      apply nth_app_at. }
    rewrite Hread. unfold nonzero in Hc. apply negb_true_iff in Hc. rewrite Hc.
    cbv zeta.
    (* the array after the write at [i] *)
    assert (Hwrite : exists junk',
               poke (length out) c (out ++ junk ++ (c :: rem) ++ 0 :: tail)
               = out ++ c :: junk' ++ rem ++ 0 :: tail
               /\ length junk' = length junk).
    { destruct junk as [|x junk]; cbn [app].
      - rewrite poke_app. exists []. split; reflexivity.
      - rewrite poke_app. exists (junk ++ [c]). split.
        + rewrite <- app_assoc. reflexivity.
        + rewrite length_app. cbn [length]. lia. }
    destruct Hwrite as (junk' & -> & Hj).
    rewrite nth_app_at.
    cbn [filter]. change (not_space c) with (negb (c =? 32)).
    destruct (Z.eqb_spec c 32) as [E|E]; cbn [negb].
    + (* a space: the write pointer stays *)
      replace (S (length (out ++ junk))) with (length (out ++ c :: junk'))
        by (rewrite !length_app; cbn [length]; lia).
      destruct (IH out (c :: junk') fuel Hnz ltac:(cbn [length] in Hfuel; lia))
        as (rest & E1 & E2 & pre & E3 & E4).
      cbn [app] in E1. exists rest. split; [exact E1|].
      split; [repeat (rewrite length_app in * || cbn [length] in * ); lia|].
      exists pre. split; [exact E3|].
      repeat (rewrite length_app in * || cbn [length] in * ). lia.
    + (* another character: kept *)
      replace (S (length out)) with (length (out ++ [c]))
        by (rewrite length_app; cbn [length]; lia).
      replace (S (length (out ++ junk))) with (length ((out ++ [c]) ++ junk'))
        by (rewrite !length_app; cbn [length]; lia).
      replace (out ++ c :: junk' ++ rem ++ 0 :: tail)
        with ((out ++ [c]) ++ junk' ++ rem ++ 0 :: tail)
        by (rewrite <- app_assoc; reflexivity).
      destruct (IH (out ++ [c]) junk' fuel Hnz
                  ltac:(cbn [length] in Hfuel; lia))
        as (rest & E1 & E2 & pre & E3 & E4).
      exists rest. split; [|split].
      * rewrite <- !app_assoc in *. cbn [app] in *. exact E1.
      * repeat (rewrite length_app in * || cbn [length] in * ). lia.
      * exists pre. split.
        -- rewrite <- !app_assoc in *. cbn [app] in *. exact E3.
        -- repeat (rewrite length_app in * || cbn [length] in * ). lia.
Qed.

Lemma filter_nonzero (f : Z -> bool) (l : list Z) :
  forallb nonzero l = true -> forallb nonzero (filter f l) = true.
Proof.
  induction l as [|x l IH]; cbn [forallb filter]; [reflexivity|].
  intros H. apply andb_true_iff in H. destruct H as [Hx Hl].
  destruct (f x); cbn [forallb]; rewrite ?Hx; auto.
Qed.

Lemma skipn_length_app {A : Type} (pre l : list A) :
  skipn (length pre) (pre ++ l) = l.
Proof. induction pre as [|x pre IH]; cbn [length app skipn]; auto. Qed.

(** X20. [remove_spaces] on a terminated string leaves, as a C string,
    exactly the characters other than the space, in their order; the old
    terminator and everything behind it in the array are as they were
    (nothing is written past the old terminator), and the array keeps its
    size. *)
Theorem remove_spaces_string (str tail : list Z) :
  forallb nonzero str = true ->
  c_string (remove_spaces (str ++ 0 :: tail)) = filter not_space str
  /\ skipn (length str) (remove_spaces (str ++ 0 :: tail)) = 0 :: tail
  /\ length (remove_spaces (str ++ 0 :: tail)) = length (str ++ 0 :: tail).
Proof.
  intros H. unfold remove_spaces.
  destruct (remove_spaces_loop_spec str [] [] tail
              (S (length (str ++ 0 :: tail))) H
              ltac:(rewrite length_app; cbn [length]; lia))
    as (rest & E1 & E2 & pre & E3 & E4).
  cbn [app length] in E1, E2, E3, E4. rewrite E1. split; [|split].
  - apply c_string_app, filter_nonzero, H.
  - rewrite E3, <- E4. apply skipn_length_app.
  - exact E2.
Qed.

Lemma remove_spaces_string_witness :
  c_string (remove_spaces ([72; 32; 73; 32] ++ 0 :: [9])) = [72; 73]
  /\ skipn (length [72; 32; 73; 32])
       (remove_spaces ([72; 32; 73; 32] ++ 0 :: [9])) = 0 :: [9]
  /\ length (remove_spaces ([72; 32; 73; 32] ++ 0 :: [9]))
     = length ([72; 32; 73; 32] ++ 0 :: [9]).
Proof.
  apply (remove_spaces_string [72; 32; 73; 32] [9]). reflexivity.
Defined.

(** ** utf8ascii *)

Lemma forallb_app_nz (a b : list Z) :
  forallb nonzero (a ++ b) = forallb nonzero a && forallb nonzero b.
Proof. apply forallb_app. Qed.

Lemma strlen_app3 (out junk rem tail : list Z) :
  forallb nonzero out = true -> forallb nonzero junk = true ->
  forallb nonzero rem = true ->
  strlen (out ++ junk ++ rem ++ 0 :: tail)
  = Z.of_nat (length (out ++ junk) + length rem).
Proof.
  intros Ho Hj Hr.
  replace (out ++ junk ++ rem ++ 0 :: tail)
    with ((out ++ junk ++ rem) ++ 0 :: tail)
    by (rewrite <- !app_assoc; reflexivity).
  rewrite strlen_app
    by (rewrite !forallb_app_nz, Ho, Hj, Hr; reflexivity).
  rewrite !length_app. f_equal. lia.
Qed.

Lemma utf8ascii_loop_spec (rem out junk tail : list Z) (c1 : Z) (fuel : nat) :
  forallb nonzero out = true -> forallb nonzero junk = true ->
  forallb nonzero rem = true ->
  (length rem < fuel)%nat ->
  exists rest,
    utf8ascii_loop fuel c1 (length out) (length (out ++ junk))
      (out ++ junk ++ rem ++ 0 :: tail)
    = (fst (utf8_stream c1 rem),
       (out ++ snd (utf8_stream c1 rem)) ++ 0 :: rest)
    /\ length ((out ++ snd (utf8_stream c1 rem)) ++ 0 :: rest)
       = length (out ++ junk ++ rem ++ 0 :: tail)
    /\ forallb nonzero (out ++ snd (utf8_stream c1 rem)) = true.
Proof.
  revert out junk c1 fuel.
  induction rem as [|x rem IH]; intros out junk c1 fuel Ho Hj Hr Hfuel;
    (destruct fuel as [|fuel]; [cbn [length] in Hfuel; lia|]);
    cbn [utf8ascii_loop]; rewrite strlen_app3 by assumption.
  - (* at the terminator *)
    cbn [length]. rewrite Nat.add_0_r.
    destruct (Z.ltb_spec (Z.of_nat (length (out ++ junk)))
                         (Z.of_nat (length (out ++ junk)))); [lia|].
    cbn [utf8_stream fst snd app]. rewrite app_nil_r.
    destruct junk as [|y junk]; cbn [app]; rewrite poke_app.
    + exists tail. split; [reflexivity|]. split; [|exact Ho].
      repeat (rewrite length_app || cbn [length]). reflexivity.
    + exists (junk ++ 0 :: tail). split; [reflexivity|]. split; [|exact Ho].
      repeat (rewrite length_app || cbn [length]). reflexivity.
  - cbn [length].
    destruct (Z.ltb_spec (Z.of_nat (length (out ++ junk)))
                         (Z.of_nat (length (out ++ junk) + S (length rem))));
      [|lia].
    assert (Hread : nth (length (out ++ junk))
                        (out ++ junk ++ (x :: rem) ++ 0 :: tail) 0 = x).
    { replace (out ++ junk ++ (x :: rem) ++ 0 :: tail)
        with ((out ++ junk) ++ x :: rem ++ 0 :: tail)
        by (rewrite <- app_assoc; reflexivity).
      apply nth_app_at. }
    rewrite Hread. cbn [utf8_stream].
    cbn [forallb] in Hr. apply andb_true_iff in Hr. destruct Hr as [Hx Hr].
    destruct (utf8ascii_byte c1 (to_byte x)) as [c1' r].
    destruct (Z.eqb_spec (to_char r) 0) as [E|E].
    + (* ignored: only the read index moves *)
      replace (S (length (out ++ junk))) with (length (out ++ (junk ++ [x])))
        by (repeat (rewrite length_app || cbn [length]); lia).
      replace (out ++ junk ++ (x :: rem) ++ 0 :: tail)
        with (out ++ (junk ++ [x]) ++ rem ++ 0 :: tail)
        by (rewrite <- !app_assoc; reflexivity).
      destruct (IH out (junk ++ [x]) c1' fuel Ho
                  ltac:(rewrite forallb_app_nz, Hj; cbn [forallb];
                        rewrite Hx; reflexivity)
                  Hr ltac:(cbn [length] in Hfuel; lia))
        as (rest & E1 & E2 & E3).
      exists rest. destruct (utf8_stream c1' rem) as [c1'' o].
      cbn [fst snd] in *. split; [exact E1|]. split; [|exact E3].
      repeat (rewrite length_app in * || cbn [length] in * ). lia.
    + (* a character: written at [k] *)
      assert (Hwrite : exists junk',
                 poke (length out) (to_char r)
                      (out ++ junk ++ (x :: rem) ++ 0 :: tail)
                 = (out ++ [to_char r]) ++ junk' ++ rem ++ 0 :: tail
                 /\ length junk' = length junk
                 /\ forallb nonzero junk' = true).
      { destruct junk as [|y junk]; cbn [app].
        - rewrite poke_app. exists []. rewrite <- app_assoc.
          split; [reflexivity|]. split; reflexivity.
        - rewrite poke_app. exists (junk ++ [x]).
          rewrite <- !app_assoc. cbn [app]. split; [reflexivity|].
          split; [rewrite length_app; cbn [length]; lia|].
          cbn [forallb] in Hj. apply andb_true_iff in Hj.
          rewrite forallb_app_nz. cbn [forallb].
          destruct Hj as [_ ->]. rewrite Hx. reflexivity. }
      destruct Hwrite as (junk' & -> & Hl & Hj').
      replace (S (length out)) with (length (out ++ [to_char r]))
        by (rewrite length_app; cbn [length]; lia).
      replace (S (length (out ++ junk)))
        with (length ((out ++ [to_char r]) ++ junk'))
        by (repeat (rewrite length_app || cbn [length]); lia).
      assert (Ho' : forallb nonzero (out ++ [to_char r]) = true).
      { rewrite forallb_app_nz, Ho. cbn [forallb]. unfold nonzero.
        apply Z.eqb_neq in E. rewrite E. reflexivity. }
      destruct (IH (out ++ [to_char r]) junk' c1' fuel Ho' Hj' Hr
                  ltac:(cbn [length] in Hfuel; lia))
        as (rest & E1 & E2 & E3).
      exists rest. destruct (utf8_stream c1' rem) as [c1'' o].
      cbn [fst snd] in *. rewrite <- !app_assoc in *. cbn [app] in *.
      split; [exact E1|]. split; [|exact E3].
      repeat (rewrite length_app in * || cbn [length] in * ). lia.
Qed.

(** X21. The in-place conversion of a terminated string gives, as a C
    string, what converting its bytes one after the other gives with the
    ignored bytes left out; the result is never longer than the input, the
    array keeps its size, and the last-character buffer ends as the
    byte-wise conversion leaves it. *)
Theorem utf8ascii_string (c1 : Z) (str tail : list Z) :
  forallb nonzero str = true ->
  fst (utf8ascii c1 (str ++ 0 :: tail)) = fst (utf8_stream c1 str)
  /\ c_string (snd (utf8ascii c1 (str ++ 0 :: tail)))
     = snd (utf8_stream c1 str)
  /\ (length (snd (utf8_stream c1 str)) <= length str)%nat
  /\ length (snd (utf8ascii c1 (str ++ 0 :: tail)))
     = length (str ++ 0 :: tail).
Proof.
  intros H. unfold utf8ascii.
  destruct (utf8ascii_loop_spec str [] [] tail c1
              (S (length (str ++ 0 :: tail))) eq_refl eq_refl H
              ltac:(rewrite length_app; cbn [length]; lia))
    as (rest & E1 & E2 & E3).
  cbn [app length] in E1, E2, E3. rewrite E1. cbn [fst snd].
  split; [reflexivity|]. split; [apply c_string_app, E3|].
  split; [|exact E2].
  clear. revert c1. induction str as [|x str IH]; intros c1;
    cbn [utf8_stream length snd]; [lia|].
  destruct (utf8ascii_byte c1 (to_byte x)) as [c1' r].
  specialize (IH c1'). destruct (utf8_stream c1' str) as [c1'' o].
  destruct (to_char r =? 0); cbn [snd length] in *; lia.
Qed.

Lemma utf8ascii_string_witness :
  fst (utf8ascii 0 ([72; -61; -87] ++ 0 :: [9])) = 169
  /\ c_string (snd (utf8ascii 0 ([72; -61; -87] ++ 0 :: [9]))) = [72; -23]
  /\ Nat.le (length (snd (utf8_stream 0 [72; -61; -87]))) 3
  /\ length (snd (utf8ascii 0 ([72; -61; -87] ++ 0 :: [9]))) = 5%nat.
Proof.
  apply (utf8ascii_string 0 [72; -61; -87] [9]). reflexivity.
Defined.

Lemma utf8_stream_ascii (c1 : Z) (str : list Z) :
  forallb is_ascii str = true ->
  utf8_stream c1 str = (match str with [] => c1 | _ => 0 end, str).
Proof.
  revert c1. induction str as [|x str IH]; intros c1 H; [reflexivity|].
  cbn [forallb] in H. apply andb_true_iff in H. destruct H as [Hx H].
  unfold is_ascii in Hx. apply andb_true_iff in Hx.
  destruct Hx as [H0 H1]. apply Z.ltb_lt in H0, H1.
  cbn [utf8_stream].
  assert (Hb : to_byte x = x) by (unfold to_byte; apply Z.mod_small; lia).
  rewrite Hb. unfold utf8ascii_byte.
  destruct (Z.ltb_spec x 128); [|lia].
  rewrite (IH 0 H).
  assert (Hc : to_char x = x)
    by (unfold to_char; rewrite Z.mod_small by lia; lia).
  rewrite Hc. destruct (Z.eqb_spec x 0); [lia|].
  destruct str; reflexivity.
Qed.

Lemma ascii_nonzero (str : list Z) :
  forallb is_ascii str = true -> forallb nonzero str = true.
Proof.
  induction str as [|x str IH]; cbn [forallb]; [reflexivity|].
  intros H. apply andb_true_iff in H. destruct H as [Hx H].
  rewrite (IH H), andb_true_r. unfold is_ascii in Hx. unfold nonzero.
  apply andb_true_iff in Hx. destruct Hx as [H0 _]. apply Z.ltb_lt in H0.
  destruct (Z.eqb_spec x 0); [lia|reflexivity].
Qed.

Lemma utf8ascii_in_place (c1 : Z) (str tail : list Z) :
  forallb nonzero str = true ->
  fst (utf8ascii c1 (str ++ 0 :: tail)) = fst (utf8_stream c1 str)
  /\ c_string (snd (utf8ascii c1 (str ++ 0 :: tail)))
     = snd (utf8_stream c1 str).
Proof.
  intros H. unfold utf8ascii.
  destruct (utf8ascii_loop_spec str [] [] tail c1
              (S (length (str ++ 0 :: tail))) eq_refl eq_refl H
              ltac:(rewrite length_app; cbn [length]; lia))
    as (rest & E1 & E2 & E3).
  cbn [app length] in E1, E2, E3. rewrite E1. cbn [fst snd].
  split; [reflexivity | apply c_string_app, E3].
Qed.

(** X22. A string of plain ASCII characters (1 to 127) comes out of the
    in-place conversion as it went in, and a non-empty one leaves the
    last-character buffer [c1] at 0. *)
Theorem utf8ascii_ascii_unchanged (c1 : Z) (str tail : list Z) :
  forallb is_ascii str = true ->
  c_string (snd (utf8ascii c1 (str ++ 0 :: tail))) = str
  /\ (str <> [] -> fst (utf8ascii c1 (str ++ 0 :: tail)) = 0).
Proof.
  intros H.
  destruct (utf8ascii_in_place c1 str tail (ascii_nonzero str H)) as [A B].
  rewrite A, B, utf8_stream_ascii by exact H. cbn [fst snd].
  split; [reflexivity|]. destruct str; [congruence|reflexivity].
Qed.

Lemma utf8ascii_ascii_unchanged_witness :
  c_string (snd (utf8ascii 195 ([72; 73] ++ 0 :: [9]))) = [72; 73]
  /\ ([72; 73] <> [] -> fst (utf8ascii 195 ([72; 73] ++ 0 :: [9])) = 0).
Proof.
  apply (utf8ascii_ascii_unchanged 195 [72; 73] [9]). reflexivity.
Defined.

Lemma latin1_check :
  forallb (fun u => if 192 <=? u then to_byte (Z.lor (u - 64) 192) =? u
                    else true) bytes = true.
Proof. vm_compute. reflexivity. Qed.

(** X23. The two-byte UTF-8 form of a Latin-1 character [u] from 0x80 to
    0xFF decodes to [u]: the lead byte [0xC0 + u / 64] is swallowed (result
    0) and the following byte [0x80 + u mod 64] gives [u], provided the
    byte before the lead byte was not itself 0xC2 or 0xC3. *)
Theorem utf8ascii_latin1 (c1 u : Z) :
  0x80 <= u <= 0xFF ->
  c1 <> 0xC2 -> c1 <> 0xC3 ->
  utf8ascii_byte c1 (0xC0 + u / 64) = (0xC0 + u / 64, 0)
  /\ utf8ascii_byte (0xC0 + u / 64) (0x80 + u mod 64) = (0x80 + u mod 64, u).
Proof.
  intros Hu N2 N3.
  assert (Hq : u / 64 = 2 \/ u / 64 = 3) by (Z.div_mod_to_equations; lia).
  assert (Hm : 0 <= u mod 64 < 64) by (apply Z.mod_pos_bound; lia).
  unfold utf8ascii_byte.
  destruct (Z.ltb_spec (192 + u / 64) 128); [lia|].
  destruct (Z.ltb_spec (128 + u mod 64) 128); [lia|]. cbv zeta.
  destruct (Z.eqb_spec c1 194); [contradiction|].
  destruct (Z.eqb_spec c1 195); [contradiction|].
  destruct (Z.eqb_spec (192 + u / 64) 172); [lia|]. rewrite andb_false_r.
  split; [reflexivity|].
  destruct Hq as [Q|Q]; rewrite Q.
  - change (192 + 2 =? 194) with true. cbv iota. f_equal.
    Z.div_mod_to_equations. lia.
  - change (192 + 3 =? 194) with false. change (192 + 3 =? 195) with true.
    cbv iota. f_equal.
    pose proof latin1_check as C. rewrite forallb_forall in C.
    specialize (C u (in_bytes u ltac:(apply is_byte_range; lia))).
    destruct (Z.leb_spec 192 u); [|Z.div_mod_to_equations; lia].
    apply Z.eqb_eq in C.
    replace (128 + u mod 64) with (u - 64) by (Z.div_mod_to_equations; lia).
    exact C.
Qed.

Lemma utf8ascii_latin1_witness :
  utf8ascii_byte 0 0xC3 = (0xC3, 0)
  /\ utf8ascii_byte 0xC3 0xA9 = (0xA9, 0xE9).
Proof.
  apply (utf8ascii_latin1 0 0xE9).
  - lia.
  - discriminate.
  - discriminate.
Defined.

(** ** EEPROM message memory *)

Lemma slot_addr_eq (i : Z) :
  0 <= i < EEPROM_MSG_MEMORY -> slot_addr i = 1 + EEPROM_MSG_LENGTH * i.
Proof.
  unfold EEPROM_MSG_MEMORY, EEPROM_MSG_LENGTH. intros H.
  assert (E : i = 0 \/ i = 1 \/ i = 2 \/ i = 3 \/ i = 4 \/ i = 5) by lia.
  repeat (destruct E as [->|E]; [reflexivity|]). subst i. reflexivity.
Qed.

Lemma eeprom_update_block_spec (n : nat) (src : list Z) (dst : Z)
      (ee : eeprom) (a : Z) :
  eeprom_update_block src dst n ee a
  = if (dst <=? a) && (a <? dst + Z.of_nat n)
    then to_byte (nth (Z.to_nat (a - dst)) src 0)
    else ee a.
Proof.
  revert src dst ee. induction n as [|n IH]; intros src dst ee.
  - cbn [eeprom_update_block].
    destruct (Z.leb_spec dst a); destruct (Z.ltb_spec a (dst + Z.of_nat 0));
      try lia; reflexivity.
  - cbn [eeprom_update_block]. rewrite IH. unfold eeprom_write_byte.
    destruct (Z.leb_spec (dst + 1) a) as [A|A];
      destruct (Z.ltb_spec a (dst + 1 + Z.of_nat n)) as [B|B]; cbn [andb].
    + destruct (Z.leb_spec dst a); [|lia].
      destruct (Z.ltb_spec a (dst + Z.of_nat (S n))); [|lia]. cbn [andb].
      f_equal. replace (Z.to_nat (a - dst)) with (S (Z.to_nat (a - (dst + 1))))
        by lia.
      destruct src; [destruct (Z.to_nat (a - (dst + 1))); reflexivity|].
      reflexivity.
    + destruct (Z.eqb_spec a dst); [lia|].
      destruct (Z.leb_spec dst a); [|reflexivity].
      destruct (Z.ltb_spec a (dst + Z.of_nat (S n))); [lia|reflexivity].
    + destruct (Z.eqb_spec a dst) as [->|N].
      * destruct (Z.leb_spec dst dst); [|lia].
        destruct (Z.ltb_spec dst (dst + Z.of_nat (S n))); [|lia]. cbn [andb].
        rewrite Z.sub_diag. destruct src; reflexivity.
      * destruct (Z.leb_spec dst a); [lia|reflexivity].
    + destruct (Z.eqb_spec a dst); [lia|].
      destruct (Z.leb_spec dst a); [lia|reflexivity].
Qed.

(** The copy loop only looks at the slot it reads. *)
Lemma eeprom_copy_loop_ext (fuel : nat) (ee1 ee2 : eeprom)
      (address c1 c2 p : Z) (acc : list Z) :
  (forall a, address < a < address + (EEPROM_MSG_LENGTH - p) ->
             ee1 a = ee2 a) ->
  (p < EEPROM_MSG_LENGTH -> c1 = c2) ->
  eeprom_copy_loop fuel ee1 address c1 p acc
  = eeprom_copy_loop fuel ee2 address c2 p acc.
Proof.
  revert address c1 c2 p acc.
  induction fuel as [|fuel IH]; intros address c1 c2 p acc Hee Hc;
    cbn [eeprom_copy_loop]; [reflexivity|].
  destruct (Z.ltb_spec p EEPROM_MSG_LENGTH) as [P|P].
  - rewrite (Hc P). destruct (negb (c2 =? 0)); cbn [andb]; [|reflexivity].
    apply IH.
    + intros a Ha. apply Hee. lia.
    + intros P'. f_equal. apply Hee. lia.
  - rewrite !andb_false_r. reflexivity.
Qed.

(** Reading back a string that lies in the slot. *)
Lemma eeprom_copy_loop_string (ee : eeprom) (base : Z) (str rem acc : list Z)
      (fuel : nat) :
  acc ++ rem = str ->
  (Z.of_nat (length str) <= EEPROM_MSG_LENGTH) ->
  (forall k, (k < length str)%nat ->
             to_char (ee (base + Z.of_nat k)) = nth k str 0
             /\ nth k str 0 <> 0) ->
  (Z.of_nat (length str) < EEPROM_MSG_LENGTH ->
   to_char (ee (base + Z.of_nat (length str))) = 0) ->
  (length rem < fuel)%nat ->
  eeprom_copy_loop fuel ee (base + Z.of_nat (length acc))
    (to_char (ee (base + Z.of_nat (length acc))))
    (Z.of_nat (length acc)) acc
  = str.
Proof.
  intros Hstr Hlen Hk Hend. revert acc fuel Hstr.
  induction rem as [|x rem IH]; intros acc fuel Hstr Hfuel;
    (destruct fuel as [|fuel]; [cbn [length] in Hfuel; lia|]);
    cbn [eeprom_copy_loop].
  - rewrite app_nil_r in Hstr. subst acc.
    destruct (Z.ltb_spec (Z.of_nat (length str)) EEPROM_MSG_LENGTH) as [P|P].
    + rewrite (Hend P). reflexivity.
    + rewrite andb_false_r. reflexivity.
  - assert (Hl : (length acc < length str)%nat)
      by (rewrite <- Hstr, length_app; cbn [length]; lia).
    destruct (Hk _ Hl) as [Hc Hnz].
    assert (Hx : nth (length acc) str 0 = x)
      by (rewrite <- Hstr; apply nth_app_at).
    rewrite Hc, Hx in *.
    destruct (Z.eqb_spec x 0); [contradiction|].
    destruct (Z.ltb_spec (Z.of_nat (length acc)) EEPROM_MSG_LENGTH); [|lia].
    cbn [negb andb].
    replace (base + Z.of_nat (length acc) + 1)
      with (base + Z.of_nat (length (acc ++ [x])))
      by (rewrite length_app; cbn [length]; lia).
    replace (Z.of_nat (length acc) + 1) with (Z.of_nat (length (acc ++ [x])))
      by (rewrite length_app; cbn [length]; lia).
    apply IH; [rewrite <- app_assoc; exact Hstr|].
    cbn [length] in Hfuel. lia.
Qed.

Lemma to_char_to_byte (c : Z) : is_char c = true -> to_char (to_byte c) = c.
Proof.
  unfold is_char, to_char, to_byte. intros H.
  apply andb_true_iff in H. destruct H as [A B].
  apply Z.leb_le in A. apply Z.leb_le in B.
  Z.div_mod_to_equations. lia.
Qed.

Lemma message_char_inv (str : list Z) (k : nat) :
  forallb message_char str = true -> (k < length str)%nat ->
  is_char (nth k str 0) = true /\ nth k str 0 <> 0.
Proof.
  intros H Hk. rewrite forallb_forall in H.
  assert (I : In (nth k str 0) str) by (apply nth_In; exact Hk).
  apply H in I. unfold message_char in I. apply andb_true_iff in I.
  destruct I as [A B]. split; [exact A|].
  unfold nonzero in B. apply negb_true_iff in B. apply Z.eqb_neq in B. exact B.
Qed.

Lemma message_char_nonzero (str : list Z) :
  forallb message_char str = true -> forallb nonzero str = true.
Proof.
  intros H. rewrite forallb_forall in *. intros x Hx. apply H in Hx.
  unfold message_char in Hx. apply andb_true_iff in Hx. apply Hx.
Qed.

(** What [write_eeprom_message] stores for a datastore message. *)
Lemma write_eeprom_message_block (get : list Z -> list Z) (ee : eeprom)
      (i : Z) (str tail : list Z) :
  0 <= i < EEPROM_MSG_MEMORY ->
  get [to_char (i + 97)] = str ++ 0 :: tail ->
  forallb message_char str = true ->
  Z.of_nat (length str) < INT_MAX ->
  write_eeprom_message get i ee
  = eeprom_update_block (str ++ 0 :: tail) (slot_addr i)
      (Z.to_nat (Z.min (Z.of_nat (length str) + 1) EEPROM_MSG_LENGTH)) ee.
Proof.
  intros Hi Hget Hstr Hlen. unfold write_eeprom_message.
  destruct (Z.ltb_spec i 0); [lia|].
  destruct (Z.geb_spec i EEPROM_MSG_MEMORY); [lia|]. cbn [orb].
  cbv zeta. rewrite Hget.
  destruct str as [|x str].
  - cbn [app nth]. cbn [Z.eqb negb length Z.of_nat Z.add Z.min].
    unfold eeprom_write_byte.
    cbn. unfold eeprom_write_byte. reflexivity.
  - assert (Hx : nth 0 ((x :: str) ++ 0 :: tail) 0 <> 0).
    { destruct (message_char_inv (x :: str) 0 Hstr) as [_ N];
        [cbn [length]; lia|exact N]. }
    destruct (Z.eqb_spec (nth 0 ((x :: str) ++ 0 :: tail) 0) 0);
      [contradiction|]. cbn [negb].
    rewrite strlen_app by (apply message_char_nonzero; exact Hstr).
    unfold INT_MAX in Hlen. rewrite to_int_small by lia.
    f_equal. f_equal. unfold EEPROM_MSG_LENGTH.
    destruct (Z.geb_spec (Z.of_nat (length (x :: str)) + 1) 170).
    + rewrite to_uint_small by lia. lia.
    + rewrite to_uint_small by lia. lia.
Qed.

(** A slot after [write_eeprom_message]; the other slots keep their
    messages. *)
Lemma write_eeprom_message_slots (get : list Z -> list Z) (ee : eeprom)
      (i j : Z) (str tail : list Z) :
  0 <= i < EEPROM_MSG_MEMORY -> 0 <= j < EEPROM_MSG_MEMORY ->
  get [to_char (i + 97)] = str ++ 0 :: tail ->
  forallb message_char str = true ->
  Z.of_nat (length str) < INT_MAX ->
  eeprom_message (write_eeprom_message get i ee) j
  = if j =? i then firstn (Z.to_nat EEPROM_MSG_LENGTH) str
    else eeprom_message ee j.
Proof.
  intros Hi Hj Hget Hstr Hlen.
  rewrite (write_eeprom_message_block get ee i str tail Hi Hget Hstr Hlen).
  set (n := Z.to_nat (Z.min (Z.of_nat (length str) + 1) EEPROM_MSG_LENGTH)).
  set (ee' := eeprom_update_block (str ++ 0 :: tail) (slot_addr i) n ee).
  assert (Hn : Z.of_nat n = Z.min (Z.of_nat (length str) + 1) EEPROM_MSG_LENGTH)
    by (unfold n, EEPROM_MSG_LENGTH; lia).
  assert (Hin : forall k : nat, (Z.of_nat k < Z.of_nat n) ->
                ee' (slot_addr i + Z.of_nat k)
                = to_byte (nth k (str ++ 0 :: tail) 0)).
  { intros k Hk. unfold ee'. rewrite eeprom_update_block_spec.
    destruct (Z.leb_spec (slot_addr i) (slot_addr i + Z.of_nat k)); [|lia].
    destruct (Z.ltb_spec (slot_addr i + Z.of_nat k)
                (slot_addr i + Z.of_nat n)); [|lia].
    cbn [andb]. do 2 f_equal. lia. }
  assert (Hout : forall a, a < slot_addr i \/
                           slot_addr i + EEPROM_MSG_LENGTH <= a ->
                           ee' a = ee a).
  { intros a Ha. unfold ee'. rewrite eeprom_update_block_spec.
    destruct (Z.leb_spec (slot_addr i) a); [|reflexivity].
    destruct (Z.ltb_spec a (slot_addr i + Z.of_nat n)); [|reflexivity].
    unfold EEPROM_MSG_LENGTH in *. lia. }
  destruct (Z.eqb_spec j i) as [->|Hne].
  - set (s := firstn (Z.to_nat EEPROM_MSG_LENGTH) str).
    assert (Hs : Z.of_nat (length s)
                 = Z.min (Z.of_nat (length str)) EEPROM_MSG_LENGTH).
    { unfold s. rewrite length_firstn. unfold EEPROM_MSG_LENGTH. lia. }
    assert (Hnth : forall k, (k < length s)%nat ->
                   nth k s 0 = nth k (str ++ 0 :: tail) 0
                   /\ (k < length str)%nat).
    { intros k Hk. assert (k < length str)%nat by lia.
      split; [|assumption].
      rewrite app_nth1 by assumption.
      unfold s. rewrite nth_firstn.
      destruct (Nat.ltb_spec k (Z.to_nat EEPROM_MSG_LENGTH));
        [reflexivity|]. unfold EEPROM_MSG_LENGTH in *. lia. }
    assert (Hread : forall k, (k < length s)%nat ->
              to_char (ee' (slot_addr i + Z.of_nat k)) = nth k s 0
              /\ nth k s 0 <> 0).
    { intros k Hk. destruct (Hnth k Hk) as [E Hk'].
      rewrite Hin by lia. rewrite E, app_nth1 by exact Hk'.
      destruct (message_char_inv str k Hstr Hk') as [C N].
      rewrite to_char_to_byte by exact C. split; [reflexivity|exact N]. }
    assert (Hend : Z.of_nat (length s) < EEPROM_MSG_LENGTH ->
                   to_char (ee' (slot_addr i + Z.of_nat (length s))) = 0).
    { intros Hlt. assert (E : length s = length str) by lia.
      rewrite Hin by lia. rewrite E, nth_app_at. reflexivity. }
    pose proof (eeprom_copy_loop_string ee' (slot_addr i) s s []
                  (S (Z.to_nat EEPROM_MSG_LENGTH)) eq_refl
                  ltac:(lia) Hread Hend
                  ltac:(unfold EEPROM_MSG_LENGTH in *; lia)) as L.
    cbn [length Z.of_nat] in L. rewrite Z.add_0_r in L.
    unfold eeprom_message. cbv zeta.
    destruct (Z.eqb_spec (to_char (ee' (slot_addr i))) 0) as [Z0|NZ];
      cbn [negb]; [|exact L].
    destruct s as [|x s'] eqn:Es; [reflexivity|].
    destruct (Hread 0%nat ltac:(cbn [length]; lia)) as [A B].
    cbn [Z.of_nat] in A. rewrite Z.add_0_r in A. congruence.
  - assert (Hslot : forall a, slot_addr j <= a < slot_addr j + EEPROM_MSG_LENGTH
                              -> ee' a = ee a).
    { intros a Ha. apply Hout.
      rewrite (slot_addr_eq i Hi). rewrite (slot_addr_eq j Hj) in Ha.
      unfold EEPROM_MSG_LENGTH in *. lia. }
    unfold eeprom_message. cbv zeta.
    rewrite (Hslot (slot_addr j)) by (unfold EEPROM_MSG_LENGTH; lia).
    destruct (negb (to_char (ee (slot_addr j)) =? 0)); [|reflexivity].
    apply eeprom_copy_loop_ext; [|reflexivity].
    intros a Ha. apply Hslot. lia.
Qed.

Lemma write_eeprom_message_magic (get : list Z -> list Z) (ee : eeprom)
      (i : Z) :
  write_eeprom_message get i ee EEPROM_MAGIC_ADDR = ee EEPROM_MAGIC_ADDR.
Proof.
  unfold write_eeprom_message.
  destruct (Z.ltb_spec i 0); [reflexivity|].
  destruct (Z.geb_spec i EEPROM_MSG_MEMORY); [reflexivity|]. cbn [orb].
  cbv zeta.
  assert (A : EEPROM_MAGIC_ADDR < slot_addr i)
    by (rewrite slot_addr_eq by lia;
        unfold EEPROM_MAGIC_ADDR, EEPROM_MSG_LENGTH; lia).
  destruct (negb _).
  - rewrite eeprom_update_block_spec.
    destruct (Z.leb_spec (slot_addr i) EEPROM_MAGIC_ADDR); [lia|reflexivity].
  - unfold eeprom_write_byte.
    destruct (Z.eqb_spec EEPROM_MAGIC_ADDR (slot_addr i)); [lia|reflexivity].
Qed.

(** X24. Storing and reading back: after [write_eeprom_message] for slot
    [i] (0 to 5), when the datastore holds a terminated message of
    characters under the slot's key, reading slot [i] as
    [read_eeprom_messages] does gives the message cut to its first 170
    characters (nothing for an empty message); every other slot reads as
    before; the magic byte at address 0 is untouched. *)
Theorem write_eeprom_message_round_trip (get : list Z -> list Z)
        (ee : eeprom) (i j : Z) (str tail : list Z) :
  0 <= i < EEPROM_MSG_MEMORY -> 0 <= j < EEPROM_MSG_MEMORY ->
  get [to_char (i + 97)] = str ++ 0 :: tail ->
  forallb message_char str = true ->
  Z.of_nat (length str) < INT_MAX ->
  eeprom_message (write_eeprom_message get i ee) j
  = (if j =? i then firstn (Z.to_nat EEPROM_MSG_LENGTH) str
     else eeprom_message ee j)
  /\ write_eeprom_message get i ee EEPROM_MAGIC_ADDR = ee EEPROM_MAGIC_ADDR.
Proof.
  intros Hi Hj Hget Hstr Hlen. split.
  - apply (write_eeprom_message_slots get ee i j str tail); assumption.
  - apply write_eeprom_message_magic.
Qed.

Lemma write_eeprom_message_round_trip_witness :
  eeprom_message (write_eeprom_message (test_store 97) 0 fresh_eeprom) 0
  = [72; 73]
  /\ write_eeprom_message (test_store 97) 0 fresh_eeprom EEPROM_MAGIC_ADDR
     = fresh_eeprom EEPROM_MAGIC_ADDR.
Proof.
  apply (write_eeprom_message_round_trip (test_store 97) fresh_eeprom 0 0
           [72; 73] []).
  - unfold EEPROM_MSG_MEMORY. lia.
  - unfold EEPROM_MSG_MEMORY. lia.
  - reflexivity.
  - reflexivity.
  - vm_compute. reflexivity.
Defined.

(** The slots after the first [k] rounds of the update-all loop. *)
Lemma write_all_slots (get : list Z -> list Z) (ee : eeprom)
      (str tail : Z -> list Z) (k : nat) (j : Z) :
  (forall i, 0 <= i < EEPROM_MSG_MEMORY ->
     get [to_char (i + 97)] = str i ++ 0 :: tail i
     /\ forallb message_char (str i) = true
     /\ Z.of_nat (length (str i)) < INT_MAX) ->
  Z.of_nat k <= EEPROM_MSG_MEMORY -> 0 <= j < EEPROM_MSG_MEMORY ->
  eeprom_message
    (for_up (Z.of_nat k) (fun i ee => write_eeprom_message get i ee) ee) j
  = if j <? Z.of_nat k then firstn (Z.to_nat EEPROM_MSG_LENGTH) (str j)
    else eeprom_message ee j.
Proof.
  intros Hget. induction k as [|k IH]; intros Hk Hj.
  - rewrite for_up_zero. destruct (Z.ltb_spec j (Z.of_nat 0)); [lia|reflexivity].
  - rewrite for_up_succ.
    destruct (Hget (Z.of_nat k) ltac:(lia)) as (G & C & L).
    rewrite (write_eeprom_message_slots get _ (Z.of_nat k) j _ _
               ltac:(lia) Hj G C L).
    destruct (Z.eqb_spec j (Z.of_nat k)) as [->|N].
    + destruct (Z.ltb_spec (Z.of_nat k) (Z.of_nat (S k))); [reflexivity|lia].
    + rewrite IH by lia.
      destruct (Z.ltb_spec j (Z.of_nat k));
        destruct (Z.ltb_spec j (Z.of_nat (S k))); try lia; reflexivity.
Qed.

Lemma erase_all_bytes (ee : eeprom) (a : Z) :
  for_up EEPROM_MSG_MEMORY (fun i ee => eeprom_write_byte (slot_addr i) 0x00 ee)
    ee a
  = if existsb (Z.eqb a) eeprom_msg_start_addr then 0 else ee a.
Proof.
  unfold for_up. change (Z.to_nat EEPROM_MSG_MEMORY) with 6%nat.
  cbn [seq fold_left]. unfold eeprom_write_byte, eeprom_msg_start_addr.
  cbn [existsb].
  change (slot_addr (Z.of_nat 0)) with 1. change (slot_addr (Z.of_nat 1)) with 171.
  change (slot_addr (Z.of_nat 2)) with 341. change (slot_addr (Z.of_nat 3)) with 511.
  change (slot_addr (Z.of_nat 4)) with 681. change (slot_addr (Z.of_nat 5)) with 851.
  change (to_byte 0) with 0.
  destruct (a =? 1), (a =? 171), (a =? 341), (a =? 511), (a =? 681),
    (a =? 851); reflexivity.
Qed.

Lemma slot_addr_in (i : Z) :
  0 <= i < EEPROM_MSG_MEMORY ->
  existsb (Z.eqb (slot_addr i)) eeprom_msg_start_addr = true.
Proof.
  unfold EEPROM_MSG_MEMORY. intros H.
  assert (E : i = 0 \/ i = 1 \/ i = 2 \/ i = 3 \/ i = 4 \/ i = 5) by lia.
  repeat (destruct E as [->|E]; [reflexivity|]). subst i. reflexivity.
Qed.

Lemma read_vacant (ee : eeprom) :
  (forall i, 0 <= i < EEPROM_MSG_MEMORY -> ee (slot_addr i) = 0) ->
  read_eeprom_messages ee = [].
Proof.
  intros H. unfold read_eeprom_messages, for_up.
  change (Z.to_nat EEPROM_MSG_MEMORY) with 6%nat. cbn [seq fold_left].
  unfold EEPROM_MSG_MEMORY in H.
  rewrite (H (Z.of_nat 0)), (H (Z.of_nat 1)), (H (Z.of_nat 2)),
    (H (Z.of_nat 3)), (H (Z.of_nat 4)), (H (Z.of_nat 5)) by lia.
  reflexivity.
Qed.

(** X25. The request "A" stores all six datastore messages: afterwards
    every slot reads as its datastore message cut to 170 characters, and
    the request is acknowledged with an empty value. *)
Theorem update_eeprom_messages_all (get : list Z -> list Z) (ee : eeprom)
        (str tail : Z -> list Z) (j : Z) :
  nth 0 (get KEY_UPDATE_EEPROM) 0 = 65 ->
  (forall i, 0 <= i < EEPROM_MSG_MEMORY ->
     get [to_char (i + 97)] = str i ++ 0 :: tail i
     /\ forallb message_char (str i) = true
     /\ Z.of_nat (length (str i)) < INT_MAX) ->
  0 <= j < EEPROM_MSG_MEMORY ->
  eeprom_message (fst (update_eeprom_messages get ee)) j
  = firstn (Z.to_nat EEPROM_MSG_LENGTH) (str j)
  /\ snd (update_eeprom_messages get ee) = [(KEY_UPDATE_EEPROM, [])].
Proof.
  intros Hreq Hget Hj. unfold update_eeprom_messages. cbv zeta.
  rewrite Hreq. cbn [Z.eqb Pos.eqb fst snd]. split; [|reflexivity].
  change EEPROM_MSG_MEMORY with (Z.of_nat 6) at 1.
  rewrite (write_all_slots get ee str tail 6 j Hget) by
    (unfold EEPROM_MSG_MEMORY in *; lia).
  destruct (Z.ltb_spec j (Z.of_nat 6)); [reflexivity|].
  unfold EEPROM_MSG_MEMORY in *; lia.
Qed.

Lemma update_eeprom_messages_all_witness :
  eeprom_message (fst (update_eeprom_messages (test_store 65) fresh_eeprom)) 1
  = [65]
  /\ snd (update_eeprom_messages (test_store 65) fresh_eeprom)
     = [(KEY_UPDATE_EEPROM, [])].
Proof.
  apply (update_eeprom_messages_all (test_store 65) fresh_eeprom
           (fun i => if i =? 0 then [72; 73] else if i =? 1 then [65] else [])
           (fun _ => []) 1).
  - reflexivity.
  - unfold EEPROM_MSG_MEMORY. intros i Hi.
    assert (E : i = 0 \/ i = 1 \/ i = 2 \/ i = 3 \/ i = 4 \/ i = 5) by lia.
    repeat (destruct E as [->|E];
            [split; [reflexivity|split; [reflexivity|vm_compute; reflexivity]]
            |]).
    subst i. split; [reflexivity|split; [reflexivity|vm_compute; reflexivity]].
  - unfold EEPROM_MSG_MEMORY. lia.
Defined.

(** X26. The request "X" erases: afterwards every slot reads as vacant and
    [read_eeprom_messages] publishes nothing; only the first byte of each
    slot is written; the request is acknowledged with an empty value. *)
Theorem update_eeprom_messages_erase (get : list Z -> list Z) (ee : eeprom) :
  nth 0 (get KEY_UPDATE_EEPROM) 0 = 88 ->
  (forall j, 0 <= j < EEPROM_MSG_MEMORY ->
     eeprom_message (fst (update_eeprom_messages get ee)) j = [])
  /\ read_eeprom_messages (fst (update_eeprom_messages get ee)) = []
  /\ (forall a, existsb (Z.eqb a) eeprom_msg_start_addr = false ->
        fst (update_eeprom_messages get ee) a = ee a)
  /\ snd (update_eeprom_messages get ee) = [(KEY_UPDATE_EEPROM, [])].
Proof.
  intros Hreq. unfold update_eeprom_messages. cbv zeta.
  rewrite Hreq. cbn [Z.eqb Pos.eqb fst snd Z.leb Z.compare Pos.compare
                     Pos.compare_cont andb].
  assert (V : forall i, 0 <= i < EEPROM_MSG_MEMORY ->
            for_up EEPROM_MSG_MEMORY
              (fun i ee => eeprom_write_byte (slot_addr i) 0x00 ee) ee
              (slot_addr i) = 0).
  { intros i Hi. rewrite erase_all_bytes, slot_addr_in by exact Hi.
    reflexivity. }
  split; [|split; [|split]].
  - intros j Hj. unfold eeprom_message. cbv zeta. rewrite V by exact Hj.
    reflexivity.
  - apply read_vacant. exact V.
  - intros a Ha. rewrite erase_all_bytes, Ha. reflexivity.
  - reflexivity.
Qed.

Lemma update_eeprom_messages_erase_witness :
  (forall j, 0 <= j < EEPROM_MSG_MEMORY ->
     eeprom_message
       (fst (update_eeprom_messages (test_store 88)
               (write_eeprom_message (test_store 97) 0 fresh_eeprom))) j = [])
  /\ read_eeprom_messages
       (fst (update_eeprom_messages (test_store 88)
               (write_eeprom_message (test_store 97) 0 fresh_eeprom))) = []
  /\ (forall a, existsb (Z.eqb a) eeprom_msg_start_addr = false ->
        fst (update_eeprom_messages (test_store 88)
               (write_eeprom_message (test_store 97) 0 fresh_eeprom)) a
        = write_eeprom_message (test_store 97) 0 fresh_eeprom a)
  /\ snd (update_eeprom_messages (test_store 88)
            (write_eeprom_message (test_store 97) 0 fresh_eeprom))
     = [(KEY_UPDATE_EEPROM, [])].
Proof.
  apply (update_eeprom_messages_erase (test_store 88)
           (write_eeprom_message (test_store 97) 0 fresh_eeprom)).
  reflexivity.
Defined.

(** X27. No request touches the magic byte at address 0, and a request
    that is not acknowledged (any character other than "A", "a" to "f" and
    "X") leaves the EEPROM as it was. *)
Theorem update_eeprom_messages_safe (get : list Z -> list Z) (ee : eeprom) :
  fst (update_eeprom_messages get ee) EEPROM_MAGIC_ADDR = ee EEPROM_MAGIC_ADDR
  /\ (snd (update_eeprom_messages get ee) = [] ->
      fst (update_eeprom_messages get ee) = ee).
Proof.
  unfold update_eeprom_messages. cbv zeta.
  destruct (_ =? 65).
  - cbn [fst snd]. split; [|discriminate].
    apply (for_up_invariant (fun e => e EEPROM_MAGIC_ADDR = ee EEPROM_MAGIC_ADDR));
      [|reflexivity].
    intros i x Hx. rewrite write_eeprom_message_magic. exact Hx.
  - destruct (_ && _).
    + cbn [fst snd]. split; [|discriminate]. apply write_eeprom_message_magic.
    + destruct (_ =? 88); cbn [fst snd].
      * split; [|discriminate]. rewrite erase_all_bytes. reflexivity.
      * split; reflexivity.
Qed.

(** ** Smooth scroll: the steps from the clock *)

Section ScrollClock.
Variable font : font8x5_h.

(** What one call in routine 0 does to the fields the step test reads. *)
Lemma scroll_clock_fields (t : tick) (e : engine) :
  routine (msg_context e) = 0 ->
  routine (msg_context (do_animation font t e)) = 0
  /\ animation_speed (msg_context (do_animation font t e))
     = animation_speed (msg_context e)
  /\ msg_ptr (msg_context (do_animation font t e)) = msg_ptr (msg_context e)
  /\ anim_prev_millis (msg_context (do_animation font t e))
     = if anim_prev_millis (msg_context e) =? 0 then to_ulong (now t)
       else if scroll_due t e then to_ulong (now t)
            else anim_prev_millis (msg_context e).
Proof.
  intros Hr. open_engine e. subst rt. run_scroll.
  destruct (pv =? 0) eqn:Hpv; fields.
  - rewrite Hpv. fields. auto.
  - rewrite Hpv. fields.
    destruct (elapsed_gt _ _ _); fields; [|auto].
    destruct (uint_le st (ml - 1)); fields.
    + destruct (to_int (t1 + 1) =? FONT_PITCH); fields; auto.
    + destruct (uint_ge _ _); fields; auto.
Qed.

(** The steps the engine makes are the steps the clock gives. *)
Lemma scroll_steps_clock (ticks : list tick) (e : engine) :
  routine (msg_context e) = 0 ->
  scroll_steps font ticks e
  = clock_steps (animation_speed (msg_context e) * 10 + 15)
      (anim_prev_millis (msg_context e)) ticks.
Proof.
  revert e. induction ticks as [|t ticks IH]; intros e Hr; [reflexivity|].
  cbn [scroll_steps clock_steps]. cbv zeta.
  destruct (scroll_clock_fields t e Hr) as (Kr & Ks & _ & Kp).
  rewrite (IH _ Kr), Ks, Kp. unfold scroll_due.
  destruct (anim_prev_millis (msg_context e) =? 0); cbn [negb andb];
    [reflexivity|].
  destruct (elapsed_gt _ _ _); reflexivity.
Qed.

(** On a paced clock every call after the initialising one is a step. *)
Lemma paced_after_steps (gap prev : Z) (ticks : list tick) :
  prev <> 0 -> paced_after gap prev ticks = true ->
  clock_steps gap prev ticks = Z.of_nat (length ticks).
Proof.
  revert prev. induction ticks as [|t ticks IH]; intros prev Hp H;
    [reflexivity|].
  cbn [paced_after] in H. apply andb_true_iff in H. destruct H as [H H3].
  apply andb_true_iff in H. destruct H as [H1 H2].
  apply negb_true_iff, Z.eqb_neq in H1.
  cbn [clock_steps length]. cbv zeta.
  destruct (Z.eqb_spec prev 0); [contradiction|].
  rewrite H2, (IH _ H1 H3). lia.
Qed.

Lemma paced_steps (gap : Z) (ticks : list tick) :
  paced gap ticks = true ->
  clock_steps gap 0 ticks = Z.max 0 (Z.of_nat (length ticks) - 1).
Proof.
  destruct ticks as [|t ticks]; [reflexivity|].
  cbn [paced clock_steps length]. cbv zeta. intros H.
  apply andb_true_iff in H. destruct H as [H1 H2].
  apply negb_true_iff, Z.eqb_neq in H1.
  change (0 =? 0) with true. cbv iota.
  rewrite (paced_after_steps _ _ _ H1 H2). lia.
Qed.

(** The picture grows by one step with every step of the scroll. *)
Lemma scroll_picture_step (msg : list Z) (b0 : buffer) (t : tick)
      (e : engine) (k m : Z) :
  1 <= strlen msg -> strlen msg + MATRIX_COLUMNS + 1 <= INT_MAX ->
  scroll_inv (strlen msg) e k m ->
  anim_prev_millis (msg_context e) <> 0 ->
  msg_ptr (msg_context e) = msg ->
  0 <= k ->
  k + (if scroll_due t e then 1 else 0)
  <= strlen msg * FONT_PITCH + MATRIX_COLUMNS + 1 ->
  display_buffer e = scroll_picture font msg (Z.to_nat k) b0 ->
  display_buffer (do_animation font t e)
  = scroll_picture font msg
      (Z.to_nat (k + (if scroll_due t e then 1 else 0))) b0.
Proof.
  intros HL Hmax (Hr & Hlen & Hph) Hp Hmsg Hk Hle Hb.
  unfold INT_MAX, MATRIX_COLUMNS, FONT_PITCH in *.
  rewrite scroll_buffer by exact Hr.
  apply Z.eqb_neq in Hp. rewrite Hp.
  destruct (scroll_due t e) eqn:Hdue; [|rewrite Z.add_0_r; exact Hb].
  replace (Z.to_nat (k + 1)) with (S (Z.to_nat k)) by lia.
  cbn [scroll_picture]. cbv zeta. rewrite Z2Nat.id by lia.
  rewrite <- Hb, Hmsg, Hlen. unfold FONT_PITCH.
  inversion Hph as [Hp0 Hs Hf | s j Hp' Hs Ht Hsr Hjr Hf | j Hp' Hs Hjr Hf
                   | k' m' Hk' Hf Hm]; subst; unfold FONT_PITCH in *.
  - apply Z.eqb_neq in Hp. contradiction.
  - assert (Hu : uint_le (state (msg_context e)) (strlen (msg_ptr (msg_context e)) - 1) = true)
      by (unfold uint_le; rewrite !to_uint_small by lia; apply Z.leb_le; lia).
    rewrite Hu.
    destruct (Z.ltb_spec (state (msg_context e) * 5 + tmp_1 (msg_context e))
                (strlen (msg_ptr (msg_context e)) * 5)); [|lia].
    f_equal.
    + f_equal. Z.div_mod_to_equations. lia.
    + Z.div_mod_to_equations. lia.
  - assert (Hu : uint_le (state (msg_context e)) (strlen (msg_ptr (msg_context e)) - 1) = false)
      by (unfold uint_le; rewrite !to_uint_small by lia; apply Z.leb_gt; lia).
    rewrite Hu.
    destruct (Z.ltb_spec (strlen (msg_ptr (msg_context e)) * 5 + j)
                (strlen (msg_ptr (msg_context e)) * 5)); [lia|].
    reflexivity.
  - unfold MATRIX_COLUMNS in *. lia.
Qed.

Lemma scroll_steps_nonneg (ticks : list tick) (e : engine) :
  0 <= scroll_steps font ticks e.
Proof.
  revert e. induction ticks as [|t ticks IH]; intros e; cbn [scroll_steps];
    [lia|].
  specialize (IH (do_animation font t e)). destruct (scroll_due t e); lia.
Qed.

(** The same along a run. *)
Lemma scroll_picture_run (msg : list Z) (b0 : buffer) (ticks : list tick)
      (e : engine) (k m : Z) :
  1 <= strlen msg -> strlen msg + MATRIX_COLUMNS + 1 <= INT_MAX ->
  Forall (fun t => to_ulong (now t) <> 0) ticks ->
  scroll_inv (strlen msg) e k m ->
  anim_prev_millis (msg_context e) <> 0 ->
  msg_ptr (msg_context e) = msg ->
  0 <= k ->
  k + scroll_steps font ticks e
  <= strlen msg * FONT_PITCH + MATRIX_COLUMNS + 1 ->
  display_buffer e = scroll_picture font msg (Z.to_nat k) b0 ->
  display_buffer (run font ticks e)
  = scroll_picture font msg (Z.to_nat (k + scroll_steps font ticks e)) b0.
Proof.
  intros HL Hmax Hticks. revert e k m.
  induction Hticks as [|t ticks Ht _ IH]; intros e k m Hinv Hp Hmsg Hk Hle Hb.
  - cbn [run fold_left scroll_steps]. rewrite Z.add_0_r. exact Hb.
  - cbn [scroll_steps] in *. rewrite Z.add_assoc in *.
    change (run font (t :: ticks) e)
      with (run font ticks (do_animation font t e)).
    pose proof (scroll_steps_nonneg ticks (do_animation font t e)) as Hn.
    destruct (scroll_clock_fields t e (proj1 Hinv)) as (_ & _ & Km & Kp).
    apply (IH (do_animation font t e) _
              (m + (if scroll_shiftin_due t e then 1 else 0))).
    + apply scroll_step; assumption.
    + rewrite Kp. destruct (_ =? 0); [exact Ht|].
      destruct (scroll_due t e); assumption.
    + rewrite Km. exact Hmsg.
    + destruct (scroll_due t e); lia.
    + exact Hle.
    + apply (scroll_picture_step msg b0 t e k m); try assumption. lia.
Qed.

End ScrollClock.

(** C1 (as amended).  Smooth scroll (routine 0) started with a non-empty
    message of length [L], on a clock that never reads 0.  The first call of
    [do_animation] only initialises (and clears the display); a later call
    is a step when it comes more than [animation_speed * 10 + 15] ms after
    the last initialising or stepping call, so the steps [k] of a run are
    read off the clock alone, and on a clock paced slower than that every
    call but the first is a step.  The completion flag [fetch_next_msg]
    after the run is raised exactly when
    [k >= L*FONT_PITCH + COLUMNS + 1]: at step [L*FONT_PITCH + COLUMNS + 1]
    and not before.  Up to there the display is the cleared buffer after
    [k] steps, the first [L*FONT_PITCH] of them shift-ins of the
    characters' columns, the later ones whole-buffer left shifts. *)
Theorem smooth_scroll_completion
  (font : font8x5_h) (speed pause now0 : Z) (msg : list Z) (e0 : engine)
  (ticks : list tick) :
  1 <= strlen msg ->
  strlen msg + MATRIX_COLUMNS + 1 <= INT_MAX ->
  clock_never_zero ticks = true ->
  let e := run font ticks (start_animation 0 speed pause msg now0 e0) in
  let k := clock_steps (to_uint speed * 10 + 15) 0 ticks in
  fetch_next_msg e = (strlen msg * FONT_PITCH + MATRIX_COLUMNS + 1 <=? k)
  /\ (k <= strlen msg * FONT_PITCH + MATRIX_COLUMNS + 1 ->
      scroll_shiftins font ticks (start_animation 0 speed pause msg now0 e0)
      = Z.min k (strlen msg * FONT_PITCH))
  /\ (ticks <> [] ->
      k <= strlen msg * FONT_PITCH + MATRIX_COLUMNS + 1 ->
      display_buffer e
      = scroll_picture font msg (Z.to_nat k)
          (matrix_fill_buffer 0 (display_buffer e0)))
  /\ scroll_steps font ticks (start_animation 0 speed pause msg now0 e0) = k
  /\ (paced (to_uint speed * 10 + 15) ticks = true ->
      k = Z.max 0 (Z.of_nat (length ticks) - 1)).
Proof.
  intros HL Hmax Hclk. cbv zeta.
  set (start := start_animation 0 speed pause msg now0 e0).
  pose proof (start_animation_scroll_inv speed pause now0 msg e0 HL Hmax)
    as Hinv. fold start in Hinv.
  pose proof (clock_never_zero_Forall ticks Hclk) as Hnz.
  destruct (start_animation_records 0 speed pause now0 msg e0)
    as (Hr & Hsp & _ & Hmsg & _). fold start in Hr, Hsp, Hmsg.
  destruct (start_animation_armed 0 speed pause now0 msg e0)
    as (_ & Hp & _ & _);
    [unfold INT_MAX, MATRIX_COLUMNS in Hmax; lia|]. fold start in Hp.
  assert (Hsteps : scroll_steps font ticks start
                   = clock_steps (to_uint speed * 10 + 15) 0 ticks).
  { rewrite scroll_steps_clock by exact Hr. rewrite Hsp, Hp. reflexivity. }
  pose proof (scroll_run font (strlen msg) ticks _ 0 0 HL Hmax Hnz Hinv)
    as (_ & _ & Hph).
  rewrite !Z.add_0_l, Hsteps in Hph.
  destruct (scroll_phase_reading _ _ _ _ HL Hph) as [Hflag Hins].
  split; [exact Hflag|]. split; [exact Hins|].
  split; [|split; [exact Hsteps | apply paced_steps]].
  intros Hne Hle. rewrite <- Hsteps in *.
  destruct ticks as [|t ticks]; [congruence|]. clear Hne.
  apply Forall_cons_iff in Hnz. destruct Hnz as [Ht Hnz'].
  change (run font (t :: ticks) start)
    with (run font ticks (do_animation font t start)).
  cbn [scroll_steps] in Hle |- *.
  assert (Hdue : scroll_due t start = false)
    by (unfold scroll_due; rewrite Hp; reflexivity).
  rewrite Hdue in *. rewrite Z.add_0_l in *.
  destruct (scroll_clock_fields font t start Hr) as (_ & _ & Km & Kp).
  rewrite Hp in Kp. change (0 =? 0) with true in Kp. cbv iota in Kp.
  pose proof (scroll_step font (strlen msg) t start 0 0 HL Hmax Ht Hinv)
    as Hinv1.
  rewrite Hdue in Hinv1. unfold scroll_shiftin_due in Hinv1.
  rewrite Hdue in Hinv1. cbn [andb] in Hinv1. rewrite !Z.add_0_r in Hinv1.
  assert (P1 : anim_prev_millis (msg_context (do_animation font t start)) <> 0)
    by (rewrite Kp; exact Ht).
  assert (P2 : msg_ptr (msg_context (do_animation font t start)) = msg)
    by (rewrite Km; exact Hmsg).
  assert (P3 : display_buffer (do_animation font t start)
               = scroll_picture font msg (Z.to_nat 0)
                   (matrix_fill_buffer 0 (display_buffer e0))).
  { cbn [Z.to_nat scroll_picture].
    rewrite scroll_buffer by exact Hr. rewrite Hp.
    change (0 =? 0) with true. cbv iota.
    unfold start. rewrite start_animation_buffer. reflexivity. }
  rewrite <- (Z.add_0_l (scroll_steps font ticks (do_animation font t start))).
  apply (scroll_picture_run font msg _ ticks (do_animation font t start) 0 0
           HL Hmax Hnz' Hinv1 P1 P2 ltac:(lia) ltac:(lia) P3).
Qed.

Lemma smooth_scroll_completion_witness :
  fetch_next_msg
    (run test_font (clock_ticks 2000 100 127)
       (start_animation 0 5 20 msg_A 1000 used_engine)) = true
  /\ fetch_next_msg
       (run test_font (clock_ticks 2000 100 126)
          (start_animation 0 5 20 msg_A 1000 used_engine)) = false
  /\ display_buffer
       (run test_font (clock_ticks 2000 100 127)
          (start_animation 0 5 20 msg_A 1000 used_engine))
     = scroll_picture test_font msg_A 126
         (matrix_fill_buffer 0 (display_buffer used_engine))
  /\ scroll_shiftins test_font (clock_ticks 2000 100 127)
       (start_animation 0 5 20 msg_A 1000 used_engine) = 5
  /\ scroll_steps test_font (clock_ticks 2000 100 127)
       (start_animation 0 5 20 msg_A 1000 used_engine) = 126
  /\ clock_steps (to_uint 5 * 10 + 15) 0 (clock_ticks 2000 100 127) = 126.
Proof.
  assert (H1 : 1 <= strlen msg_A) by (vm_compute; discriminate).
  assert (H2 : strlen msg_A + MATRIX_COLUMNS + 1 <= INT_MAX)
    by (vm_compute; discriminate).
  destruct (smooth_scroll_completion test_font 5 20 1000 msg_A used_engine
              (clock_ticks 2000 100 127) H1 H2 eq_refl)
    as (F & I & B & S & P).
  destruct (smooth_scroll_completion test_font 5 20 1000 msg_A used_engine
              (clock_ticks 2000 100 126) H1 H2 eq_refl)
    as (F' & _).
  assert (K : clock_steps (to_uint 5 * 10 + 15) 0 (clock_ticks 2000 100 127)
              = 126) by (rewrite (P eq_refl); reflexivity).
  rewrite K in *.
  split; [exact F|]. split; [exact F'|].
  split; [apply B; [discriminate | vm_compute; discriminate]|].
  split; [apply I; vm_compute; discriminate|].
  split; [exact S | reflexivity].
Defined.

(** ** Pac-man: the hand-over *)

(** Two nested pixel loops keep the shape of the buffer. *)
Lemma pixel_loops_wf (n m : Z) (g : Z -> Z -> engine -> Z * Z * Z)
      (e : engine) :
  wf_buffer (display_buffer e) = true ->
  wf_buffer
    (display_buffer
       (for_up n (fun col e =>
          for_up m (fun row e =>
            buf (matrix_draw_pixel (fst (fst (g col row e)))
                   (snd (fst (g col row e))) (snd (g col row e))) e) e) e))
  = true.
Proof.
  intros H.
  apply (for_up_invariant (fun x => wf_buffer (display_buffer x) = true));
    [|exact H].
  intros col x Hx.
  apply (for_up_invariant (fun y => wf_buffer (display_buffer y) = true));
    [|exact Hx].
  intros row y Hy. cbn [buf display_buffer]. apply matrix_draw_pixel_wf, Hy.
Qed.

Section Pacman.
Variable font : font8x5_h.

(** One call in routine 19, on any clock. *)
Lemma pacman_call (t : tick) (e : engine) :
  routine (msg_context e) = 19 ->
  wf_buffer (display_buffer e) = true ->
  fetch_next_msg (do_animation font t e) = fetch_next_msg e
  /\ wf_buffer (display_buffer (do_animation font t e)) = true
  /\ routine (msg_context (do_animation font t e))
     = (if pacman_handover t e then 0 else 19)
  /\ (pacman_handover t e = true ->
      display_buffer (do_animation font t e) = blank_buffer
      /\ msg_context (do_animation font t e)
         = set_routine 0 (msg_context e)).
Proof.
  intros Hr Hw. rewrite do_animation_routine_19 by exact Hr.
  unfold anim_pacman, pacman_handover.
  destruct (anim_prev_millis (msg_context e) =? 0); cbn [negb andb].
  { fields. rewrite Hr. repeat split; auto; try easy. }
  destruct ((state (msg_context e) <? 2) && elapsed_gt _ _ _); cbn [negb andb].
  { match goal with
    | |- context [for_up 8 ?f (for_up 8 ?g e)] =>
        set (e1 := for_up 8 g e); set (e2 := for_up 8 f e1)
    end.
    assert (H1 : msg_context e1 = msg_context e
                 /\ fetch_next_msg e1 = fetch_next_msg e)
      by (apply (pixel_loops_frame 8 MATRIX_ROWS
                   (fun col row e =>
                      matrix_draw_pixel
                        (to_int (col + tmp_1 (msg_context e))) row
                        (bitRead (pacman_at (tmp_2 (msg_context e)) col) row)))).
    assert (H2 : msg_context e2 = msg_context e1
                 /\ fetch_next_msg e2 = fetch_next_msg e1)
      by (apply (pixel_loops_frame 8 MATRIX_ROWS
                   (fun col row e =>
                      matrix_draw_pixel
                        (to_int (to_int (col + tmp_1 (msg_context e)) + 8))
                        row 0))).
    assert (W1 : wf_buffer (display_buffer e1) = true)
      by (apply (pixel_loops_wf 8 MATRIX_ROWS
                   (fun col row e =>
                      (to_int (col + tmp_1 (msg_context e)), row,
                       bitRead (pacman_at (tmp_2 (msg_context e)) col) row))),
            Hw).
    assert (W2 : wf_buffer (display_buffer e2) = true)
      by (apply (pixel_loops_wf 8 MATRIX_ROWS
                   (fun col row e =>
                      (to_int (to_int (col + tmp_1 (msg_context e)) + 8),
                       row, 0))), W1).
    destruct H1 as [C1 F1], H2 as [C2 F2].
    destruct (tmp_2 (msg_context e2) =? 0); fields;
      rewrite ?C2, ?C1, ?F2, ?F1, ?Hr; repeat split; auto; try easy. }
  destruct ((state (msg_context e) =? 2) && (tmp_1 (msg_context e) >? -8));
    cbn [negb andb].
  { fields. rewrite Hr. repeat split; auto; try easy. }
  destruct (tmp_1 (msg_context e) <=? -8); fields.
  - split; [reflexivity|]. split; [apply matrix_fill_buffer_wf, Hw|].
    split; [reflexivity|]. intros _.
    split; [apply matrix_fill_buffer_clears, Hw | reflexivity].
  - rewrite Hr. repeat split; auto; try easy.
Qed.

(** One initialised call in routine 19 with the frame delay passed. *)
Lemma pacman_due_call (t : tick) (e : engine) :
  routine (msg_context e) = 19 ->
  anim_prev_millis (msg_context e) <> 0 ->
  elapsed_gt (to_ulong (now t)) (anim_prev_millis (msg_context e)) 100 = true ->
  pacman_fields (do_animation font t e) = pacman_next (pacman_fields e)
  /\ (pacman_moving (pacman_fields e) = true ->
      anim_prev_millis (msg_context (do_animation font t e))
      = to_ulong (now t)
      /\ routine (msg_context (do_animation font t e)) = 19)
  /\ (pacman_moving (pacman_fields e) = false ->
      tmp_1 (msg_context e) <= -8 ->
      pacman_handover t e = true).
Proof.
  intros Hr Hp Hd. rewrite do_animation_routine_19 by exact Hr.
  unfold anim_pacman, pacman_handover, pacman_fields, pacman_next,
    pacman_moving.
  apply Z.eqb_neq in Hp. rewrite Hp, Hd. cbn [negb]. rewrite !andb_true_r.
  destruct (state (msg_context e) <? 2); cbn [negb andb orb].
  { match goal with
    | |- context [for_up 8 ?f (for_up 8 ?g e)] =>
        set (e1 := for_up 8 g e); set (e2 := for_up 8 f e1)
    end.
    assert (H1 : msg_context e1 = msg_context e
                 /\ fetch_next_msg e1 = fetch_next_msg e)
      by (apply (pixel_loops_frame 8 MATRIX_ROWS
                   (fun col row e =>
                      matrix_draw_pixel
                        (to_int (col + tmp_1 (msg_context e))) row
                        (bitRead (pacman_at (tmp_2 (msg_context e)) col) row)))).
    assert (H2 : msg_context e2 = msg_context e1
                 /\ fetch_next_msg e2 = fetch_next_msg e1)
      by (apply (pixel_loops_frame 8 MATRIX_ROWS
                   (fun col row e =>
                      matrix_draw_pixel
                        (to_int (to_int (col + tmp_1 (msg_context e)) + 8))
                        row 0))).
    destruct H1 as [C1 F1], H2 as [C2 F2].
    assert (C : msg_context e2 = msg_context e) by congruence.
    rewrite C.
    destruct (tmp_2 (msg_context e) =? 0); fields; rewrite ?C, ?Hr;
      (split; [reflexivity|]); (split; [auto | discriminate]). }
  destruct ((state (msg_context e) =? 2) && (tmp_1 (msg_context e) >? -8));
    cbn [negb andb].
  { fields. rewrite Hr. split; [reflexivity|]. split; [auto | discriminate]. }
  destruct (Z.leb_spec (tmp_1 (msg_context e)) (-8)); fields.
  - split; [reflexivity|]. split; [discriminate | auto].
  - split; [reflexivity|]. split; [discriminate | intros; lia].
Qed.

(** A paced run follows the script. *)
Lemma pacman_paced_run (ticks : list tick) (e : engine) :
  routine (msg_context e) = 19 ->
  anim_prev_millis (msg_context e) <> 0 ->
  wf_buffer (display_buffer e) = true ->
  paced_after 100 (anim_prev_millis (msg_context e)) ticks = true ->
  (forall i, (S i < length ticks)%nat ->
             pacman_moving (pacman_script i (pacman_fields e)) = true) ->
  pacman_fields (run font ticks e)
  = pacman_script (length ticks) (pacman_fields e)
  /\ fetch_next_msg (run font ticks e) = fetch_next_msg e
  /\ (routine (msg_context (run font ticks e)) = 19
      \/ display_buffer (run font ticks e) = blank_buffer).
Proof.
  revert e. induction ticks as [|t ticks IH]; intros e Hr Hp Hw Hpaced Hmov.
  - cbn [run fold_left length pacman_script]. auto.
  - cbn [paced_after] in Hpaced.
    apply andb_true_iff in Hpaced. destruct Hpaced as [Hpaced P3].
    apply andb_true_iff in Hpaced. destruct Hpaced as [P1 P2].
    apply negb_true_iff, Z.eqb_neq in P1.
    change (run font (t :: ticks) e)
      with (run font ticks (do_animation font t e)).
    cbn [length pacman_script].
    destruct (pacman_due_call t e Hr Hp P2) as (Kf & Km & _).
    destruct (pacman_call t e Hr Hw) as (Cf & Cw & Cr & Ch).
    destruct ticks as [|t' ticks].
    + cbn [run fold_left length pacman_script].
      split; [exact Kf|]. split; [exact Cf|].
      rewrite Cr. destruct (pacman_handover t e); [right; apply Ch|left];
        reflexivity.
    + destruct (Km (Hmov 0%nat ltac:(cbn [length]; lia))) as [Kp Kr].
      rewrite <- Kf, <- Cf.
      apply IH; try assumption.
      * rewrite Kp. exact P1.
      * rewrite Kp. exact P3.
      * intros i Hi. rewrite Kf.
        apply (Hmov (S i)). cbn [length] in *. lia.
Qed.

(** The initialising call. *)
Lemma pacman_init_call (t : tick) (e : engine) :
  routine (msg_context e) = 19 ->
  anim_prev_millis (msg_context e) = 0 ->
  state (msg_context e) = 0 ->
  pacman_fields (do_animation font t e) = pacman_first
  /\ anim_prev_millis (msg_context (do_animation font t e))
     = to_ulong (now t)
  /\ fetch_next_msg (do_animation font t e) = fetch_next_msg e
  /\ display_buffer (do_animation font t e) = display_buffer e.
Proof.
  intros Hr Hp Hs. rewrite do_animation_routine_19 by exact Hr.
  unfold anim_pacman, pacman_fields, pacman_first. rewrite Hp.
  change (0 =? 0) with true. cbv iota. fields. rewrite Hr, Hs.
  repeat split.
Qed.

(** While the routine is 19 along a run, on any clock, the flag is as at
    the start and the buffer keeps its shape. *)
Lemma pacman_run_any (pre : list tick) (e : engine) :
  routine (msg_context e) = 19 ->
  wf_buffer (display_buffer e) = true ->
  routine (msg_context (run font pre e)) = 19 ->
  fetch_next_msg (run font pre e) = fetch_next_msg e
  /\ wf_buffer (display_buffer (run font pre e)) = true.
Proof.
  intros Hr Hw. induction pre as [|t pre IH] using rev_ind.
  - cbn [run fold_left]. auto.
  - rewrite run_snoc. intros H19.
    destruct (pacman_run font pre e Hr) as [[P19|P0] _].
    + destruct (IH P19) as [If Iw].
      destruct (pacman_call t _ P19 Iw) as (Cf & Cw & _).
      split; [congruence | exact Cw].
    + destruct (scroll_keeps font t _ P0) as (K & _ & _).
      rewrite K in H19. discriminate H19.
Qed.

End Pacman.

Lemma paced_after_app (gap prev : Z) (a b : list tick) :
  paced_after gap prev (a ++ b) = true -> paced_after gap prev a = true.
Proof.
  revert prev. induction a as [|t a IH]; intros prev H; [reflexivity|].
  cbn [app paced_after] in *.
  apply andb_true_iff in H. destruct H as [H H3].
  rewrite H. cbn [andb]. apply (IH _ H3).
Qed.

(** The script, call by call: the routine is 19 and the sprite goes left by
    eight columns every five calls; every call but the last of
    [PACMAN_CALLS] draws or moves; the call after them hands over. *)
Lemma pacman_script_check :
  forallb (fun i =>
    let '(rt, st, t1, t2) := pacman_script i pacman_first in
    (rt =? 19) && (t1 =? 112 - 8 * ((Z.of_nat i + 1) / 5)))
    (seq 0 PACMAN_CALLS)
  = true
  /\ forallb (fun i => pacman_moving (pacman_script i pacman_first))
       (seq 0 (PACMAN_CALLS - 1))
     = true
  /\ pacman_script PACMAN_CALLS pacman_first = (0, 2, -8, 0).
Proof. vm_compute. repeat split. Qed.

Lemma pacman_script_at (i : nat) :
  (i < PACMAN_CALLS)%nat ->
  exists st t2,
    pacman_script i pacman_first
    = (19, st, 112 - 8 * ((Z.of_nat i + 1) / 5), t2).
Proof.
  intros Hi. destruct pacman_script_check as (A & _ & _).
  rewrite forallb_forall in A.
  specialize (A i ltac:(apply in_seq; lia)).
  destruct (pacman_script i pacman_first) as [[[rt st] t1] t2].
  apply andb_true_iff in A. destruct A as [A1 A2].
  apply Z.eqb_eq in A1, A2. subst. eauto.
Qed.

Lemma pacman_script_moving (i : nat) :
  (S i < PACMAN_CALLS)%nat ->
  pacman_moving (pacman_script i pacman_first) = true.
Proof.
  intros Hi. destruct pacman_script_check as (_ & B & _).
  rewrite forallb_forall in B. apply B, in_seq. unfold PACMAN_CALLS in *. lia.
Qed.

(** A paced run from [start_animation]: the fields after the calls. *)
Lemma pacman_paced_start
  (font : font8x5_h) (speed pause now0 : Z) (msg : list Z) (e0 : engine)
  (ticks : list tick) :
  1 <= strlen msg < 65536 ->
  wf_buffer (display_buffer e0) = true ->
  paced 100 ticks = true ->
  (0 < length ticks <= S PACMAN_CALLS)%nat ->
  pacman_fields
    (run font ticks (start_animation 19 speed pause msg now0 e0))
  = pacman_script (length ticks - 1) pacman_first
  /\ fetch_next_msg
       (run font ticks (start_animation 19 speed pause msg now0 e0))
     = false
  /\ (routine
        (msg_context
           (run font ticks (start_animation 19 speed pause msg now0 e0)))
      = 19
      \/ display_buffer
           (run font ticks (start_animation 19 speed pause msg now0 e0))
         = blank_buffer).
Proof.
  intros HL Hw Hpaced Hlen.
  set (start := start_animation 19 speed pause msg now0 e0).
  destruct (start_animation_records 19 speed pause now0 msg e0)
    as (Hr & _). fold start in Hr. change (to_uint 19) with 19 in Hr.
  destruct (start_animation_armed 19 speed pause now0 msg e0)
    as (Hs & Hp & _ & Hf); [lia|]. fold start in Hs, Hp, Hf.
  assert (Hb : display_buffer start = display_buffer e0)
    by apply start_animation_buffer.
  destruct ticks as [|t0 ticks]; [cbn [length] in Hlen; lia|].
  cbn [paced] in Hpaced. apply andb_true_iff in Hpaced.
  destruct Hpaced as [P1 P2]. apply negb_true_iff, Z.eqb_neq in P1.
  change (run font (t0 :: ticks) start)
    with (run font ticks (do_animation font t0 start)).
  destruct (pacman_init_call font t0 start Hr Hp Hs) as (If & Ip & Ifl & Ib).
  replace (length (t0 :: ticks) - 1)%nat with (length ticks)
    by (cbn [length]; lia).
  assert (Ir : routine (msg_context (do_animation font t0 start)) = 19).
  { unfold pacman_fields, pacman_first in If. congruence. }
  destruct (pacman_paced_run font ticks (do_animation font t0 start))
    as (Rf & Rfl & Rb).
  - exact Ir.
  - rewrite Ip. exact P1.
  - rewrite Ib, Hb. exact Hw.
  - rewrite Ip. exact P2.
  - intros i Hi. rewrite If. apply pacman_script_moving.
    cbn [length] in Hlen. lia.
  - rewrite If in Rf. split; [exact Rf|]. split; [congruence | exact Rb].
Qed.

(** C6.  Routine 19 (pac-man) started with a non-empty message.  On any
    clock, as long as the routine is 19 a further call of [do_animation]
    leaves the completion flag down; the call hands over exactly when the
    hand-over test of the code holds (initialised, no frame due, no move
    due, [tmp_1 <= -8]), and then it leaves a blank buffer, sets the routine
    to 0 and changes nothing else of the context.  The edge is reached: on
    a clock paced slower than the frame delay of 100 ms the routine is
    still 19 after each of the first [PACMAN_CALLS] calls, the sprite going
    left by eight columns every five calls, and the call after them is the
    hand-over, with the flag still down. *)
Theorem pacman_no_completion_signal
  (font : font8x5_h) (speed pause now0 : Z) (msg : list Z) (e0 : engine)
  (pre : list tick) (t : tick) :
  1 <= strlen msg < 65536 ->
  wf_buffer (display_buffer e0) = true ->
  let e1 := run font pre (start_animation 19 speed pause msg now0 e0) in
  let e2 := run font (pre ++ [t])
              (start_animation 19 speed pause msg now0 e0) in
  (routine (msg_context e1) = 19 ->
   fetch_next_msg e2 = false
   /\ routine (msg_context e2) = (if pacman_handover t e1 then 0 else 19)
   /\ (pacman_handover t e1 = true ->
       display_buffer e2 = blank_buffer
       /\ msg_context e2 = set_routine 0 (msg_context e1)))
  /\ (paced 100 (pre ++ [t]) = true ->
      ((length pre < PACMAN_CALLS)%nat ->
       routine (msg_context e2) = 19
       /\ tmp_1 (msg_context e2)
          = MATRIX_COLUMNS - 8 - 8 * ((Z.of_nat (length pre) + 1) / 5)
       /\ fetch_next_msg e2 = false)
      /\ (length pre = PACMAN_CALLS ->
          routine (msg_context e1) = 19
          /\ pacman_handover t e1 = true
          /\ routine (msg_context e2) = 0
          /\ display_buffer e2 = blank_buffer
          /\ fetch_next_msg e2 = false)).
Proof.
  intros HL Hw. cbv zeta.
  set (start := start_animation 19 speed pause msg now0 e0).
  destruct (start_animation_records 19 speed pause now0 msg e0)
    as (Hr & _). fold start in Hr. change (to_uint 19) with 19 in Hr.
  destruct (start_animation_armed 19 speed pause now0 msg e0)
    as (_ & _ & _ & Hf); [lia|]. fold start in Hf.
  assert (Hws : wf_buffer (display_buffer start) = true)
    by (unfold start; rewrite start_animation_buffer; exact Hw).
  assert (Any : routine (msg_context (run font pre start)) = 19 ->
          fetch_next_msg (run font (pre ++ [t]) start) = false
          /\ routine (msg_context (run font (pre ++ [t]) start))
             = (if pacman_handover t (run font pre start) then 0 else 19)
          /\ (pacman_handover t (run font pre start) = true ->
              display_buffer (run font (pre ++ [t]) start) = blank_buffer
              /\ msg_context (run font (pre ++ [t]) start)
                 = set_routine 0 (msg_context (run font pre start)))).
  { intros H19. rewrite run_snoc.
    destruct (pacman_run_any font pre start Hr Hws H19) as [Rf Rw].
    destruct (pacman_call font t _ H19 Rw) as (Cf & _ & Cr & Ch).
    split; [congruence|]. split; [exact Cr | exact Ch]. }
  split; [exact Any|].
  intros Hpaced.
  assert (Hlen : length (pre ++ [t]) = S (length pre))
    by (rewrite length_app; cbn [length]; lia).
  split.
  - intros Hlt.
    destruct (pacman_paced_start font speed pause now0 msg e0 (pre ++ [t])
                HL Hw Hpaced ltac:(unfold PACMAN_CALLS in *; lia))
      as (Sf & Sfl & _). fold start in Sf, Sfl.
    rewrite Hlen in Sf. cbn [Nat.sub] in Sf. rewrite Nat.sub_0_r in Sf.
    destruct (pacman_script_at (length pre) Hlt) as (st & t2 & E).
    rewrite E in Sf. unfold pacman_fields in Sf.
    unfold MATRIX_COLUMNS.
    split; [congruence|]. split; [|exact Sfl].
    replace (120 - 8 - 8 * ((Z.of_nat (length pre) + 1) / 5))
      with (112 - 8 * ((Z.of_nat (length pre) + 1) / 5)) by lia.
    congruence.
  - intros Heq.
    destruct (pacman_paced_start font speed pause now0 msg e0 (pre ++ [t])
                HL Hw Hpaced ltac:(unfold PACMAN_CALLS in *; lia))
      as (Sf & Sfl & Sb). fold start in Sf, Sfl, Sb.
    rewrite Hlen in Sf. cbn [Nat.sub] in Sf. rewrite Nat.sub_0_r, Heq in Sf.
    destruct pacman_script_check as (_ & _ & C). rewrite C in Sf.
    assert (R2 : routine (msg_context (run font (pre ++ [t]) start)) = 0)
      by (unfold pacman_fields in Sf; congruence).
    assert (Hpre : paced 100 pre = true).
    { destruct pre as [|t0 pre]; [reflexivity|].
      cbn [app paced] in *. apply andb_true_iff in Hpaced.
      destruct Hpaced as [P1 P2]. rewrite P1. cbn [andb].
      apply (paced_after_app _ _ _ _ P2). }
    destruct (pacman_paced_start font speed pause now0 msg e0 pre
                HL Hw Hpre ltac:(unfold PACMAN_CALLS in *; lia))
      as (Pf & _ & _). fold start in Pf.
    assert (Hi : (length pre - 1 < PACMAN_CALLS)%nat)
      by (unfold PACMAN_CALLS in *; lia).
    destruct (pacman_script_at _ Hi) as (st & t2 & E).
    rewrite E in Pf.
    assert (R1 : routine (msg_context (run font pre start)) = 19)
      by (unfold pacman_fields in Pf; congruence).
    destruct (Any R1) as (_ & Ar & _). rewrite R2 in Ar.
    split; [exact R1|].
    split; [destruct (pacman_handover t (run font pre start));
            [reflexivity|discriminate Ar]|].
    split; [exact R2|]. split; [|exact Sfl].
    destruct Sb as [Sb|Sb]; [congruence | exact Sb].
Qed.

Lemma pacman_no_completion_signal_witness :
  (routine
     (msg_context
        (run test_font (clock_ticks 2000 150 79)
           (start_animation 19 5 20 msg_HI 1000 used_engine))) = 19
   /\ pacman_handover (Build_tick 13850 13850 0 0)
        (run test_font (clock_ticks 2000 150 79)
           (start_animation 19 5 20 msg_HI 1000 used_engine)) = true
   /\ routine
        (msg_context
           (run test_font
              (clock_ticks 2000 150 79 ++ [Build_tick 13850 13850 0 0])
              (start_animation 19 5 20 msg_HI 1000 used_engine))) = 0
   /\ display_buffer
        (run test_font
           (clock_ticks 2000 150 79 ++ [Build_tick 13850 13850 0 0])
           (start_animation 19 5 20 msg_HI 1000 used_engine))
      = blank_buffer
   /\ fetch_next_msg
        (run test_font
           (clock_ticks 2000 150 79 ++ [Build_tick 13850 13850 0 0])
           (start_animation 19 5 20 msg_HI 1000 used_engine))
      = false)
  /\ (fetch_next_msg
        (run test_font
           (clock_ticks 2000 10 665 ++ [Build_tick 8650 8650 0 0])
           (start_animation 19 5 20 msg_HI 1000 used_engine))
      = false
      /\ routine
           (msg_context
              (run test_font
                 (clock_ticks 2000 10 665 ++ [Build_tick 8650 8650 0 0])
                 (start_animation 19 5 20 msg_HI 1000 used_engine))) = 0
      /\ display_buffer
           (run test_font
              (clock_ticks 2000 10 665 ++ [Build_tick 8650 8650 0 0])
              (start_animation 19 5 20 msg_HI 1000 used_engine))
         = blank_buffer).
Proof.
  assert (HL : 1 <= strlen msg_HI < 65536)
    by (vm_compute; split; [discriminate | reflexivity]).
  split.
  - destruct (pacman_no_completion_signal test_font 5 20 1000 msg_HI
                used_engine (clock_ticks 2000 150 79)
                (Build_tick 13850 13850 0 0) HL eq_refl)
      as [_ P].
    destruct (P eq_refl) as [_ Q].
    exact (Q eq_refl).
  - destruct (pacman_no_completion_signal test_font 5 20 1000 msg_HI
                used_engine (clock_ticks 2000 10 665)
                (Build_tick 8650 8650 0 0) HL eq_refl)
      as [A _].
    assert (R1 : routine
                   (msg_context
                      (run test_font (clock_ticks 2000 10 665)
                         (start_animation 19 5 20 msg_HI 1000 used_engine)))
                 = 19) by (vm_compute; reflexivity).
    assert (H : pacman_handover (Build_tick 8650 8650 0 0)
                  (run test_font (clock_ticks 2000 10 665)
                     (start_animation 19 5 20 msg_HI 1000 used_engine))
                = true) by (vm_compute; reflexivity).
    destruct (A R1) as (F & R & C). rewrite H in R.
    split; [exact F|]. split; [exact R|]. apply (C H).
Defined.

(** On a clock faster than the frame delay the hand-over comes as soon as
    the sprite has moved past the left edge, with [state] still 0: calls
    10 ms apart hand over at call 666, flag down, buffer blank. *)
Example pacman_fast_clock :
  routine (msg_context
             (run test_font (clock_ticks 2000 10 665)
                (start_animation 19 5 20 msg_HI 1000 used_engine))) = 19
  /\ pacman_handover (Build_tick 8650 8650 0 0)
       (run test_font (clock_ticks 2000 10 665)
          (start_animation 19 5 20 msg_HI 1000 used_engine)) = true
  /\ state (msg_context
              (run test_font (clock_ticks 2000 10 665)
                 (start_animation 19 5 20 msg_HI 1000 used_engine))) = 0
  /\ tmp_1 (msg_context
              (run test_font (clock_ticks 2000 10 665)
                 (start_animation 19 5 20 msg_HI 1000 used_engine))) = -8.
Proof. vm_compute. repeat split. Qed.
